(** * UThread: the cooperative thread-lifecycle controller of
    [common/thread.cpp], embedded as state-passing functions.

    Every function below follows one member function of [evo::UThread]
    (or of [evo::Result] / [evo::Duration]) statement by statement.  The
    state mutex is modelled by atomicity: a function runs from its
    [LockState()] to its next condition wait (or to its return) as one
    step, and a condition wait is the only place where other threads get
    to act.  Failed [assert]s stop the run ([Abort]). *)

From Stdlib Require Import ZArith List String Bool Lia.
Import ListNotations.

Local Open Scope string_scope.
Local Open Scope Z_scope.

(** ** common/time_measures.hpp: 64-bit nanosecond counts *)

Abbreviation Duration := Z (only parsing).
Abbreviation TimePoint := Z (only parsing).

Definition int64_min : Z := - 2 ^ 63.
Definition int64_max : Z := 2 ^ 63 - 1.

Definition in_int64 (z : Z) : Prop := int64_min <= z <= int64_max.

(** Two's-complement wrap-around of the [std::int64_t] representation. *)
Definition int64_wrap (z : Z) : Z := (z + 2 ^ 63) mod 2 ^ 64 - 2 ^ 63.

(** The same for [int]. *)
Definition int32_wrap (z : Z) : Z := (z + 2 ^ 31) mod 2 ^ 32 - 2 ^ 31.

(** [Duration::Min()]: the "wait for ever" sentinel. *)
Definition Duration_Min : Duration := int64_min.

(** [TimePoint::Min()]: the "no deadline" sentinel. *)
Definition TimePoint_Min : TimePoint := int64_min.

(** [Duration::operator-], [TimePoint::operator-(TimePoint)]. *)
Definition Duration_sub (a b : Duration) : Duration := int64_wrap (a - b).
Definition TimePoint_diff (a b : TimePoint) : Duration := int64_wrap (a - b).

(** ** common/result.hpp, common/result.cpp *)

Record Result : Type := mkResult {
  code_ : Z;
  message_ : option string
}.

Definition INVALID_RESULT_CODE : Z := 1.
Definition SUCCESS_CODE : Z := 0.
Definition TIMED_OUT_CODE : Z := -600.
Definition THREAD_RESTRICTION_CODE : Z := -1700.
Definition NOT_REGISTERED_CODE : Z := -1800.
Definition NOT_INIT_CODE : Z := -2000.
Definition INVALID_ARGUMENT_CODE : Z := -3000.
Definition SHUTTING_DOWN_CODE : Z := -3100.
Definition DEADLOCK_AVERTED_CODE : Z := -3200.
Definition NOT_IMPLEMENTED_CODE : Z := -3300.
Definition STATE_ALREADY_EFFECTIVE_CODE : Z := -3400.
Definition RESOURCE_UNAVAILABLE_CODE : Z := -3500.
Definition INTERRUPTED_OPERATION_CODE : Z := -3600.
Definition DEFAULT_ERROR_CODE : Z := INVALID_RESULT_CODE.

(** [Result (int code)]: no message stored. *)
Definition Result_of_code (c : Z) : Result := mkResult c None.

Definition SUCCESS := Result_of_code SUCCESS_CODE.
Definition INVALID_RESULT := Result_of_code INVALID_RESULT_CODE.
Definition TIMED_OUT := Result_of_code TIMED_OUT_CODE.
Definition THREAD_RESTRICTION := Result_of_code THREAD_RESTRICTION_CODE.
Definition NOT_REGISTERED := Result_of_code NOT_REGISTERED_CODE.
Definition NOT_INIT := Result_of_code NOT_INIT_CODE.
Definition INVALID_ARGUMENT := Result_of_code INVALID_ARGUMENT_CODE.
Definition SHUTTING_DOWN := Result_of_code SHUTTING_DOWN_CODE.
Definition DEADLOCK_AVERTED := Result_of_code DEADLOCK_AVERTED_CODE.
Definition NOT_IMPLEMENTED := Result_of_code NOT_IMPLEMENTED_CODE.
Definition STATE_ALREADY_EFFECTIVE := Result_of_code STATE_ALREADY_EFFECTIVE_CODE.
Definition RESOURCE_UNAVAILABLE := Result_of_code RESOURCE_UNAVAILABLE_CODE.
Definition INTERRUPTED_OPERATION := Result_of_code INTERRUPTED_OPERATION_CODE.

(** [Result::has_message]. *)
Definition has_message (r : Result) : bool :=
  match message_ r with
  | Some m => negb (String.eqb m EmptyString)
  | None => false
  end.

(** [Result::operator==]: the codes decide, except between two results
    that both carry the default code. *)
Definition Result_eqb (a arg : Result) : bool :=
  if (DEFAULT_ERROR_CODE =? code_ arg) && (DEFAULT_ERROR_CODE =? code_ a) then
    match message_ arg, message_ a with
    | None, None => true
    | Some x, Some y => String.eqb x y
    | _, _ => false
    end
  else code_ arg =? code_ a.

(** [Result::is_error], [Result::is_success]. *)
Definition is_error (r : Result) : bool :=
  negb (INVALID_RESULT_CODE =? code_ r) && negb (SUCCESS_CODE =? code_ r).

Definition is_success (r : Result) : bool := SUCCESS_CODE =? code_ r.

(** [Result::Prepend (const string&) const]. *)
Definition Prepend (msg : string) (r : Result) : Result :=
  match message_ r with
  | Some m =>
      if has_message r then mkResult (code_ r) (Some (msg ++ ": " ++ m))
      else mkResult (code_ r) (Some msg)
  | None => mkResult (code_ r) (Some msg)
  end.

(** ** common/thread.hpp: the enumerations *)

Inductive State : Type :=
  kInvalid | kInit | kGo | kIdle | kExiting | kExited.

Inductive CycleWait : Type :=
  kCycleInvalid | kAbsolute | kRelative | kIndefinite.

Inductive Blocking : Type := kOff | kOn.

Inductive ProcStateResult : Type := kContinue | kExit.

Definition State_eq_dec (a b : State) : {a = b} + {a <> b}.
Proof. decide equality. Defined.

Definition CycleWait_eq_dec (a b : CycleWait) : {a = b} + {a <> b}.
Proof. decide equality. Defined.

Definition State_eqb (a b : State) : bool :=
  if State_eq_dec a b then true else false.

Definition CycleWait_eqb (a b : CycleWait) : bool :=
  if CycleWait_eq_dec a b then true else false.

Infix "==s" := State_eqb (at level 70, no associativity).
Infix "==c" := CycleWait_eqb (at level 70, no associativity).

(** [UThread::StateToString (State)]. *)
Definition StateToString (s : State) : string :=
  match s with
  | kInvalid => "Invalid"
  | kInit => "Initializing"
  | kGo => "Run"
  | kIdle => "Idle"
  | kExiting => "Exiting"
  | kExited => "Exited"
  end.

(** Thread identifiers: [boost::thread::id].  [thread_] below is the
    [shared_ptr<boost::thread>]: [None] is the null pointer, [Some t] a
    live thread object whose [get_id()] is [t]. *)
Abbreviation ThreadId := N (only parsing).
Definition kInvalidThreadId : ThreadId := 0%N.

Abbreviation ListenerHandle := N (only parsing).

(** [UThread::RequestStateMultipleInfo].  The three pointers all lead to
    locals of one [RequestStateMultiple] call; the integer behind
    [pending_count_p] is [go_state_pending_count] of [World] below. *)
Record RequestStateMultipleInfo : Type := mkInfo {
  in_progress : bool
}.

Definition Info_Clear : RequestStateMultipleInfo := mkInfo false.
Definition Info_Activate : RequestStateMultipleInfo := mkInfo true.

(** The data members of [UThread] ([name_], [lwpid_], the user function
    and the mutexes are left out; condition variables only appear as
    [Cond] names in the observation log). *)
Record UThread : Type := mkUThread {
  thread_ : option ThreadId;
  cycle_count_ : Z;
  state_ : State;
  requested_state_ : State;
  prev_state_ : State;
  cycle_wait_skip_orig_state_ : State;
  cycle_wait_type_ : CycleWait;
  cycle_wait_period_ : Duration;
  cycle_wait_changed_ : bool;
  cycle_wait_skip_count_ : Z;
  prev_cycle_time_point_ : TimePoint;
  state_ready_wait_count_ : Z;
  state_ready_time_points_ : list (State * TimePoint);
  is_between_cycles_ : bool;
  is_joined_with_thread_ : bool;
  is_pause_pending_ : bool;
  is_paused_ : bool;
  next_state_change_listener_handle_ : ListenerHandle;
  state_change_listeners_ : list ListenerHandle;
  set_state_multiple_info_ : RequestStateMultipleInfo;
  thread_func_result_ : Result;
  dbg_paused_count_ : Z
}.

Definition set_thread_ (v : option ThreadId) (u : UThread) : UThread :=
  {| thread_ := v; cycle_count_ := cycle_count_ u; state_ := state_ u;
     requested_state_ := requested_state_ u; prev_state_ := prev_state_ u;
     cycle_wait_skip_orig_state_ := cycle_wait_skip_orig_state_ u;
     cycle_wait_type_ := cycle_wait_type_ u;
     cycle_wait_period_ := cycle_wait_period_ u;
     cycle_wait_changed_ := cycle_wait_changed_ u;
     cycle_wait_skip_count_ := cycle_wait_skip_count_ u;
     prev_cycle_time_point_ := prev_cycle_time_point_ u;
     state_ready_wait_count_ := state_ready_wait_count_ u;
     state_ready_time_points_ := state_ready_time_points_ u;
     is_between_cycles_ := is_between_cycles_ u;
     is_joined_with_thread_ := is_joined_with_thread_ u;
     is_pause_pending_ := is_pause_pending_ u; is_paused_ := is_paused_ u;
     next_state_change_listener_handle_ := next_state_change_listener_handle_ u;
     state_change_listeners_ := state_change_listeners_ u;
     set_state_multiple_info_ := set_state_multiple_info_ u;
     thread_func_result_ := thread_func_result_ u;
     dbg_paused_count_ := dbg_paused_count_ u |}.

Definition set_cycle_count_ (v : Z) (u : UThread) : UThread :=
  {| thread_ := thread_ u; cycle_count_ := v; state_ := state_ u;
     requested_state_ := requested_state_ u; prev_state_ := prev_state_ u;
     cycle_wait_skip_orig_state_ := cycle_wait_skip_orig_state_ u;
     cycle_wait_type_ := cycle_wait_type_ u;
     cycle_wait_period_ := cycle_wait_period_ u;
     cycle_wait_changed_ := cycle_wait_changed_ u;
     cycle_wait_skip_count_ := cycle_wait_skip_count_ u;
     prev_cycle_time_point_ := prev_cycle_time_point_ u;
     state_ready_wait_count_ := state_ready_wait_count_ u;
     state_ready_time_points_ := state_ready_time_points_ u;
     is_between_cycles_ := is_between_cycles_ u;
     is_joined_with_thread_ := is_joined_with_thread_ u;
     is_pause_pending_ := is_pause_pending_ u; is_paused_ := is_paused_ u;
     next_state_change_listener_handle_ := next_state_change_listener_handle_ u;
     state_change_listeners_ := state_change_listeners_ u;
     set_state_multiple_info_ := set_state_multiple_info_ u;
     thread_func_result_ := thread_func_result_ u;
     dbg_paused_count_ := dbg_paused_count_ u |}.

Definition set_state_ (v : State) (u : UThread) : UThread :=
  {| thread_ := thread_ u; cycle_count_ := cycle_count_ u; state_ := v;
     requested_state_ := requested_state_ u; prev_state_ := prev_state_ u;
     cycle_wait_skip_orig_state_ := cycle_wait_skip_orig_state_ u;
     cycle_wait_type_ := cycle_wait_type_ u;
     cycle_wait_period_ := cycle_wait_period_ u;
     cycle_wait_changed_ := cycle_wait_changed_ u;
     cycle_wait_skip_count_ := cycle_wait_skip_count_ u;
     prev_cycle_time_point_ := prev_cycle_time_point_ u;
     state_ready_wait_count_ := state_ready_wait_count_ u;
     state_ready_time_points_ := state_ready_time_points_ u;
     is_between_cycles_ := is_between_cycles_ u;
     is_joined_with_thread_ := is_joined_with_thread_ u;
     is_pause_pending_ := is_pause_pending_ u; is_paused_ := is_paused_ u;
     next_state_change_listener_handle_ := next_state_change_listener_handle_ u;
     state_change_listeners_ := state_change_listeners_ u;
     set_state_multiple_info_ := set_state_multiple_info_ u;
     thread_func_result_ := thread_func_result_ u;
     dbg_paused_count_ := dbg_paused_count_ u |}.

Definition set_requested_state_ (v : State) (u : UThread) : UThread :=
  {| thread_ := thread_ u; cycle_count_ := cycle_count_ u;
     state_ := state_ u; requested_state_ := v; prev_state_ := prev_state_ u;
     cycle_wait_skip_orig_state_ := cycle_wait_skip_orig_state_ u;
     cycle_wait_type_ := cycle_wait_type_ u;
     cycle_wait_period_ := cycle_wait_period_ u;
     cycle_wait_changed_ := cycle_wait_changed_ u;
     cycle_wait_skip_count_ := cycle_wait_skip_count_ u;
     prev_cycle_time_point_ := prev_cycle_time_point_ u;
     state_ready_wait_count_ := state_ready_wait_count_ u;
     state_ready_time_points_ := state_ready_time_points_ u;
     is_between_cycles_ := is_between_cycles_ u;
     is_joined_with_thread_ := is_joined_with_thread_ u;
     is_pause_pending_ := is_pause_pending_ u; is_paused_ := is_paused_ u;
     next_state_change_listener_handle_ := next_state_change_listener_handle_ u;
     state_change_listeners_ := state_change_listeners_ u;
     set_state_multiple_info_ := set_state_multiple_info_ u;
     thread_func_result_ := thread_func_result_ u;
     dbg_paused_count_ := dbg_paused_count_ u |}.

Definition set_prev_state_ (v : State) (u : UThread) : UThread :=
  {| thread_ := thread_ u; cycle_count_ := cycle_count_ u;
     state_ := state_ u; requested_state_ := requested_state_ u;
     prev_state_ := v;
     cycle_wait_skip_orig_state_ := cycle_wait_skip_orig_state_ u;
     cycle_wait_type_ := cycle_wait_type_ u;
     cycle_wait_period_ := cycle_wait_period_ u;
     cycle_wait_changed_ := cycle_wait_changed_ u;
     cycle_wait_skip_count_ := cycle_wait_skip_count_ u;
     prev_cycle_time_point_ := prev_cycle_time_point_ u;
     state_ready_wait_count_ := state_ready_wait_count_ u;
     state_ready_time_points_ := state_ready_time_points_ u;
     is_between_cycles_ := is_between_cycles_ u;
     is_joined_with_thread_ := is_joined_with_thread_ u;
     is_pause_pending_ := is_pause_pending_ u; is_paused_ := is_paused_ u;
     next_state_change_listener_handle_ := next_state_change_listener_handle_ u;
     state_change_listeners_ := state_change_listeners_ u;
     set_state_multiple_info_ := set_state_multiple_info_ u;
     thread_func_result_ := thread_func_result_ u;
     dbg_paused_count_ := dbg_paused_count_ u |}.

Definition set_cycle_wait_skip_orig_state_ (v : State) (u : UThread) : UThread :=
  {| thread_ := thread_ u; cycle_count_ := cycle_count_ u;
     state_ := state_ u; requested_state_ := requested_state_ u;
     prev_state_ := prev_state_ u; cycle_wait_skip_orig_state_ := v;
     cycle_wait_type_ := cycle_wait_type_ u;
     cycle_wait_period_ := cycle_wait_period_ u;
     cycle_wait_changed_ := cycle_wait_changed_ u;
     cycle_wait_skip_count_ := cycle_wait_skip_count_ u;
     prev_cycle_time_point_ := prev_cycle_time_point_ u;
     state_ready_wait_count_ := state_ready_wait_count_ u;
     state_ready_time_points_ := state_ready_time_points_ u;
     is_between_cycles_ := is_between_cycles_ u;
     is_joined_with_thread_ := is_joined_with_thread_ u;
     is_pause_pending_ := is_pause_pending_ u; is_paused_ := is_paused_ u;
     next_state_change_listener_handle_ := next_state_change_listener_handle_ u;
     state_change_listeners_ := state_change_listeners_ u;
     set_state_multiple_info_ := set_state_multiple_info_ u;
     thread_func_result_ := thread_func_result_ u;
     dbg_paused_count_ := dbg_paused_count_ u |}.

Definition set_cycle_wait_type_ (v : CycleWait) (u : UThread) : UThread :=
  {| thread_ := thread_ u; cycle_count_ := cycle_count_ u;
     state_ := state_ u; requested_state_ := requested_state_ u;
     prev_state_ := prev_state_ u;
     cycle_wait_skip_orig_state_ := cycle_wait_skip_orig_state_ u;
     cycle_wait_type_ := v; cycle_wait_period_ := cycle_wait_period_ u;
     cycle_wait_changed_ := cycle_wait_changed_ u;
     cycle_wait_skip_count_ := cycle_wait_skip_count_ u;
     prev_cycle_time_point_ := prev_cycle_time_point_ u;
     state_ready_wait_count_ := state_ready_wait_count_ u;
     state_ready_time_points_ := state_ready_time_points_ u;
     is_between_cycles_ := is_between_cycles_ u;
     is_joined_with_thread_ := is_joined_with_thread_ u;
     is_pause_pending_ := is_pause_pending_ u; is_paused_ := is_paused_ u;
     next_state_change_listener_handle_ := next_state_change_listener_handle_ u;
     state_change_listeners_ := state_change_listeners_ u;
     set_state_multiple_info_ := set_state_multiple_info_ u;
     thread_func_result_ := thread_func_result_ u;
     dbg_paused_count_ := dbg_paused_count_ u |}.

Definition set_cycle_wait_period_ (v : Duration) (u : UThread) : UThread :=
  {| thread_ := thread_ u; cycle_count_ := cycle_count_ u;
     state_ := state_ u; requested_state_ := requested_state_ u;
     prev_state_ := prev_state_ u;
     cycle_wait_skip_orig_state_ := cycle_wait_skip_orig_state_ u;
     cycle_wait_type_ := cycle_wait_type_ u; cycle_wait_period_ := v;
     cycle_wait_changed_ := cycle_wait_changed_ u;
     cycle_wait_skip_count_ := cycle_wait_skip_count_ u;
     prev_cycle_time_point_ := prev_cycle_time_point_ u;
     state_ready_wait_count_ := state_ready_wait_count_ u;
     state_ready_time_points_ := state_ready_time_points_ u;
     is_between_cycles_ := is_between_cycles_ u;
     is_joined_with_thread_ := is_joined_with_thread_ u;
     is_pause_pending_ := is_pause_pending_ u; is_paused_ := is_paused_ u;
     next_state_change_listener_handle_ := next_state_change_listener_handle_ u;
     state_change_listeners_ := state_change_listeners_ u;
     set_state_multiple_info_ := set_state_multiple_info_ u;
     thread_func_result_ := thread_func_result_ u;
     dbg_paused_count_ := dbg_paused_count_ u |}.

Definition set_cycle_wait_changed_ (v : bool) (u : UThread) : UThread :=
  {| thread_ := thread_ u; cycle_count_ := cycle_count_ u;
     state_ := state_ u; requested_state_ := requested_state_ u;
     prev_state_ := prev_state_ u;
     cycle_wait_skip_orig_state_ := cycle_wait_skip_orig_state_ u;
     cycle_wait_type_ := cycle_wait_type_ u;
     cycle_wait_period_ := cycle_wait_period_ u; cycle_wait_changed_ := v;
     cycle_wait_skip_count_ := cycle_wait_skip_count_ u;
     prev_cycle_time_point_ := prev_cycle_time_point_ u;
     state_ready_wait_count_ := state_ready_wait_count_ u;
     state_ready_time_points_ := state_ready_time_points_ u;
     is_between_cycles_ := is_between_cycles_ u;
     is_joined_with_thread_ := is_joined_with_thread_ u;
     is_pause_pending_ := is_pause_pending_ u; is_paused_ := is_paused_ u;
     next_state_change_listener_handle_ := next_state_change_listener_handle_ u;
     state_change_listeners_ := state_change_listeners_ u;
     set_state_multiple_info_ := set_state_multiple_info_ u;
     thread_func_result_ := thread_func_result_ u;
     dbg_paused_count_ := dbg_paused_count_ u |}.

Definition set_cycle_wait_skip_count_ (v : Z) (u : UThread) : UThread :=
  {| thread_ := thread_ u; cycle_count_ := cycle_count_ u;
     state_ := state_ u; requested_state_ := requested_state_ u;
     prev_state_ := prev_state_ u;
     cycle_wait_skip_orig_state_ := cycle_wait_skip_orig_state_ u;
     cycle_wait_type_ := cycle_wait_type_ u;
     cycle_wait_period_ := cycle_wait_period_ u;
     cycle_wait_changed_ := cycle_wait_changed_ u;
     cycle_wait_skip_count_ := v;
     prev_cycle_time_point_ := prev_cycle_time_point_ u;
     state_ready_wait_count_ := state_ready_wait_count_ u;
     state_ready_time_points_ := state_ready_time_points_ u;
     is_between_cycles_ := is_between_cycles_ u;
     is_joined_with_thread_ := is_joined_with_thread_ u;
     is_pause_pending_ := is_pause_pending_ u; is_paused_ := is_paused_ u;
     next_state_change_listener_handle_ := next_state_change_listener_handle_ u;
     state_change_listeners_ := state_change_listeners_ u;
     set_state_multiple_info_ := set_state_multiple_info_ u;
     thread_func_result_ := thread_func_result_ u;
     dbg_paused_count_ := dbg_paused_count_ u |}.

Definition set_prev_cycle_time_point_ (v : TimePoint) (u : UThread) : UThread :=
  {| thread_ := thread_ u; cycle_count_ := cycle_count_ u;
     state_ := state_ u; requested_state_ := requested_state_ u;
     prev_state_ := prev_state_ u;
     cycle_wait_skip_orig_state_ := cycle_wait_skip_orig_state_ u;
     cycle_wait_type_ := cycle_wait_type_ u;
     cycle_wait_period_ := cycle_wait_period_ u;
     cycle_wait_changed_ := cycle_wait_changed_ u;
     cycle_wait_skip_count_ := cycle_wait_skip_count_ u;
     prev_cycle_time_point_ := v;
     state_ready_wait_count_ := state_ready_wait_count_ u;
     state_ready_time_points_ := state_ready_time_points_ u;
     is_between_cycles_ := is_between_cycles_ u;
     is_joined_with_thread_ := is_joined_with_thread_ u;
     is_pause_pending_ := is_pause_pending_ u; is_paused_ := is_paused_ u;
     next_state_change_listener_handle_ := next_state_change_listener_handle_ u;
     state_change_listeners_ := state_change_listeners_ u;
     set_state_multiple_info_ := set_state_multiple_info_ u;
     thread_func_result_ := thread_func_result_ u;
     dbg_paused_count_ := dbg_paused_count_ u |}.

Definition set_state_ready_wait_count_ (v : Z) (u : UThread) : UThread :=
  {| thread_ := thread_ u; cycle_count_ := cycle_count_ u;
     state_ := state_ u; requested_state_ := requested_state_ u;
     prev_state_ := prev_state_ u;
     cycle_wait_skip_orig_state_ := cycle_wait_skip_orig_state_ u;
     cycle_wait_type_ := cycle_wait_type_ u;
     cycle_wait_period_ := cycle_wait_period_ u;
     cycle_wait_changed_ := cycle_wait_changed_ u;
     cycle_wait_skip_count_ := cycle_wait_skip_count_ u;
     prev_cycle_time_point_ := prev_cycle_time_point_ u;
     state_ready_wait_count_ := v;
     state_ready_time_points_ := state_ready_time_points_ u;
     is_between_cycles_ := is_between_cycles_ u;
     is_joined_with_thread_ := is_joined_with_thread_ u;
     is_pause_pending_ := is_pause_pending_ u; is_paused_ := is_paused_ u;
     next_state_change_listener_handle_ := next_state_change_listener_handle_ u;
     state_change_listeners_ := state_change_listeners_ u;
     set_state_multiple_info_ := set_state_multiple_info_ u;
     thread_func_result_ := thread_func_result_ u;
     dbg_paused_count_ := dbg_paused_count_ u |}.

Definition set_state_ready_time_points_ (v : list (State * TimePoint)) (u : UThread) : UThread :=
  {| thread_ := thread_ u; cycle_count_ := cycle_count_ u;
     state_ := state_ u; requested_state_ := requested_state_ u;
     prev_state_ := prev_state_ u;
     cycle_wait_skip_orig_state_ := cycle_wait_skip_orig_state_ u;
     cycle_wait_type_ := cycle_wait_type_ u;
     cycle_wait_period_ := cycle_wait_period_ u;
     cycle_wait_changed_ := cycle_wait_changed_ u;
     cycle_wait_skip_count_ := cycle_wait_skip_count_ u;
     prev_cycle_time_point_ := prev_cycle_time_point_ u;
     state_ready_wait_count_ := state_ready_wait_count_ u;
     state_ready_time_points_ := v;
     is_between_cycles_ := is_between_cycles_ u;
     is_joined_with_thread_ := is_joined_with_thread_ u;
     is_pause_pending_ := is_pause_pending_ u; is_paused_ := is_paused_ u;
     next_state_change_listener_handle_ := next_state_change_listener_handle_ u;
     state_change_listeners_ := state_change_listeners_ u;
     set_state_multiple_info_ := set_state_multiple_info_ u;
     thread_func_result_ := thread_func_result_ u;
     dbg_paused_count_ := dbg_paused_count_ u |}.

Definition set_is_between_cycles_ (v : bool) (u : UThread) : UThread :=
  {| thread_ := thread_ u; cycle_count_ := cycle_count_ u;
     state_ := state_ u; requested_state_ := requested_state_ u;
     prev_state_ := prev_state_ u;
     cycle_wait_skip_orig_state_ := cycle_wait_skip_orig_state_ u;
     cycle_wait_type_ := cycle_wait_type_ u;
     cycle_wait_period_ := cycle_wait_period_ u;
     cycle_wait_changed_ := cycle_wait_changed_ u;
     cycle_wait_skip_count_ := cycle_wait_skip_count_ u;
     prev_cycle_time_point_ := prev_cycle_time_point_ u;
     state_ready_wait_count_ := state_ready_wait_count_ u;
     state_ready_time_points_ := state_ready_time_points_ u;
     is_between_cycles_ := v;
     is_joined_with_thread_ := is_joined_with_thread_ u;
     is_pause_pending_ := is_pause_pending_ u; is_paused_ := is_paused_ u;
     next_state_change_listener_handle_ := next_state_change_listener_handle_ u;
     state_change_listeners_ := state_change_listeners_ u;
     set_state_multiple_info_ := set_state_multiple_info_ u;
     thread_func_result_ := thread_func_result_ u;
     dbg_paused_count_ := dbg_paused_count_ u |}.

Definition set_is_joined_with_thread_ (v : bool) (u : UThread) : UThread :=
  {| thread_ := thread_ u; cycle_count_ := cycle_count_ u;
     state_ := state_ u; requested_state_ := requested_state_ u;
     prev_state_ := prev_state_ u;
     cycle_wait_skip_orig_state_ := cycle_wait_skip_orig_state_ u;
     cycle_wait_type_ := cycle_wait_type_ u;
     cycle_wait_period_ := cycle_wait_period_ u;
     cycle_wait_changed_ := cycle_wait_changed_ u;
     cycle_wait_skip_count_ := cycle_wait_skip_count_ u;
     prev_cycle_time_point_ := prev_cycle_time_point_ u;
     state_ready_wait_count_ := state_ready_wait_count_ u;
     state_ready_time_points_ := state_ready_time_points_ u;
     is_between_cycles_ := is_between_cycles_ u; is_joined_with_thread_ := v;
     is_pause_pending_ := is_pause_pending_ u; is_paused_ := is_paused_ u;
     next_state_change_listener_handle_ := next_state_change_listener_handle_ u;
     state_change_listeners_ := state_change_listeners_ u;
     set_state_multiple_info_ := set_state_multiple_info_ u;
     thread_func_result_ := thread_func_result_ u;
     dbg_paused_count_ := dbg_paused_count_ u |}.

Definition set_is_pause_pending_ (v : bool) (u : UThread) : UThread :=
  {| thread_ := thread_ u; cycle_count_ := cycle_count_ u;
     state_ := state_ u; requested_state_ := requested_state_ u;
     prev_state_ := prev_state_ u;
     cycle_wait_skip_orig_state_ := cycle_wait_skip_orig_state_ u;
     cycle_wait_type_ := cycle_wait_type_ u;
     cycle_wait_period_ := cycle_wait_period_ u;
     cycle_wait_changed_ := cycle_wait_changed_ u;
     cycle_wait_skip_count_ := cycle_wait_skip_count_ u;
     prev_cycle_time_point_ := prev_cycle_time_point_ u;
     state_ready_wait_count_ := state_ready_wait_count_ u;
     state_ready_time_points_ := state_ready_time_points_ u;
     is_between_cycles_ := is_between_cycles_ u;
     is_joined_with_thread_ := is_joined_with_thread_ u;
     is_pause_pending_ := v; is_paused_ := is_paused_ u;
     next_state_change_listener_handle_ := next_state_change_listener_handle_ u;
     state_change_listeners_ := state_change_listeners_ u;
     set_state_multiple_info_ := set_state_multiple_info_ u;
     thread_func_result_ := thread_func_result_ u;
     dbg_paused_count_ := dbg_paused_count_ u |}.

Definition set_is_paused_ (v : bool) (u : UThread) : UThread :=
  {| thread_ := thread_ u; cycle_count_ := cycle_count_ u;
     state_ := state_ u; requested_state_ := requested_state_ u;
     prev_state_ := prev_state_ u;
     cycle_wait_skip_orig_state_ := cycle_wait_skip_orig_state_ u;
     cycle_wait_type_ := cycle_wait_type_ u;
     cycle_wait_period_ := cycle_wait_period_ u;
     cycle_wait_changed_ := cycle_wait_changed_ u;
     cycle_wait_skip_count_ := cycle_wait_skip_count_ u;
     prev_cycle_time_point_ := prev_cycle_time_point_ u;
     state_ready_wait_count_ := state_ready_wait_count_ u;
     state_ready_time_points_ := state_ready_time_points_ u;
     is_between_cycles_ := is_between_cycles_ u;
     is_joined_with_thread_ := is_joined_with_thread_ u;
     is_pause_pending_ := is_pause_pending_ u; is_paused_ := v;
     next_state_change_listener_handle_ := next_state_change_listener_handle_ u;
     state_change_listeners_ := state_change_listeners_ u;
     set_state_multiple_info_ := set_state_multiple_info_ u;
     thread_func_result_ := thread_func_result_ u;
     dbg_paused_count_ := dbg_paused_count_ u |}.

Definition set_next_state_change_listener_handle_ (v : ListenerHandle) (u : UThread) : UThread :=
  {| thread_ := thread_ u; cycle_count_ := cycle_count_ u;
     state_ := state_ u; requested_state_ := requested_state_ u;
     prev_state_ := prev_state_ u;
     cycle_wait_skip_orig_state_ := cycle_wait_skip_orig_state_ u;
     cycle_wait_type_ := cycle_wait_type_ u;
     cycle_wait_period_ := cycle_wait_period_ u;
     cycle_wait_changed_ := cycle_wait_changed_ u;
     cycle_wait_skip_count_ := cycle_wait_skip_count_ u;
     prev_cycle_time_point_ := prev_cycle_time_point_ u;
     state_ready_wait_count_ := state_ready_wait_count_ u;
     state_ready_time_points_ := state_ready_time_points_ u;
     is_between_cycles_ := is_between_cycles_ u;
     is_joined_with_thread_ := is_joined_with_thread_ u;
     is_pause_pending_ := is_pause_pending_ u; is_paused_ := is_paused_ u;
     next_state_change_listener_handle_ := v;
     state_change_listeners_ := state_change_listeners_ u;
     set_state_multiple_info_ := set_state_multiple_info_ u;
     thread_func_result_ := thread_func_result_ u;
     dbg_paused_count_ := dbg_paused_count_ u |}.

Definition set_state_change_listeners_ (v : list ListenerHandle) (u : UThread) : UThread :=
  {| thread_ := thread_ u; cycle_count_ := cycle_count_ u;
     state_ := state_ u; requested_state_ := requested_state_ u;
     prev_state_ := prev_state_ u;
     cycle_wait_skip_orig_state_ := cycle_wait_skip_orig_state_ u;
     cycle_wait_type_ := cycle_wait_type_ u;
     cycle_wait_period_ := cycle_wait_period_ u;
     cycle_wait_changed_ := cycle_wait_changed_ u;
     cycle_wait_skip_count_ := cycle_wait_skip_count_ u;
     prev_cycle_time_point_ := prev_cycle_time_point_ u;
     state_ready_wait_count_ := state_ready_wait_count_ u;
     state_ready_time_points_ := state_ready_time_points_ u;
     is_between_cycles_ := is_between_cycles_ u;
     is_joined_with_thread_ := is_joined_with_thread_ u;
     is_pause_pending_ := is_pause_pending_ u; is_paused_ := is_paused_ u;
     next_state_change_listener_handle_ := next_state_change_listener_handle_ u;
     state_change_listeners_ := v;
     set_state_multiple_info_ := set_state_multiple_info_ u;
     thread_func_result_ := thread_func_result_ u;
     dbg_paused_count_ := dbg_paused_count_ u |}.

Definition set_set_state_multiple_info_ (v : RequestStateMultipleInfo) (u : UThread) : UThread :=
  {| thread_ := thread_ u; cycle_count_ := cycle_count_ u;
     state_ := state_ u; requested_state_ := requested_state_ u;
     prev_state_ := prev_state_ u;
     cycle_wait_skip_orig_state_ := cycle_wait_skip_orig_state_ u;
     cycle_wait_type_ := cycle_wait_type_ u;
     cycle_wait_period_ := cycle_wait_period_ u;
     cycle_wait_changed_ := cycle_wait_changed_ u;
     cycle_wait_skip_count_ := cycle_wait_skip_count_ u;
     prev_cycle_time_point_ := prev_cycle_time_point_ u;
     state_ready_wait_count_ := state_ready_wait_count_ u;
     state_ready_time_points_ := state_ready_time_points_ u;
     is_between_cycles_ := is_between_cycles_ u;
     is_joined_with_thread_ := is_joined_with_thread_ u;
     is_pause_pending_ := is_pause_pending_ u; is_paused_ := is_paused_ u;
     next_state_change_listener_handle_ := next_state_change_listener_handle_ u;
     state_change_listeners_ := state_change_listeners_ u;
     set_state_multiple_info_ := v;
     thread_func_result_ := thread_func_result_ u;
     dbg_paused_count_ := dbg_paused_count_ u |}.

Definition set_thread_func_result_ (v : Result) (u : UThread) : UThread :=
  {| thread_ := thread_ u; cycle_count_ := cycle_count_ u;
     state_ := state_ u; requested_state_ := requested_state_ u;
     prev_state_ := prev_state_ u;
     cycle_wait_skip_orig_state_ := cycle_wait_skip_orig_state_ u;
     cycle_wait_type_ := cycle_wait_type_ u;
     cycle_wait_period_ := cycle_wait_period_ u;
     cycle_wait_changed_ := cycle_wait_changed_ u;
     cycle_wait_skip_count_ := cycle_wait_skip_count_ u;
     prev_cycle_time_point_ := prev_cycle_time_point_ u;
     state_ready_wait_count_ := state_ready_wait_count_ u;
     state_ready_time_points_ := state_ready_time_points_ u;
     is_between_cycles_ := is_between_cycles_ u;
     is_joined_with_thread_ := is_joined_with_thread_ u;
     is_pause_pending_ := is_pause_pending_ u; is_paused_ := is_paused_ u;
     next_state_change_listener_handle_ := next_state_change_listener_handle_ u;
     state_change_listeners_ := state_change_listeners_ u;
     set_state_multiple_info_ := set_state_multiple_info_ u;
     thread_func_result_ := v; dbg_paused_count_ := dbg_paused_count_ u |}.

Definition set_dbg_paused_count_ (v : Z) (u : UThread) : UThread :=
  {| thread_ := thread_ u; cycle_count_ := cycle_count_ u;
     state_ := state_ u; requested_state_ := requested_state_ u;
     prev_state_ := prev_state_ u;
     cycle_wait_skip_orig_state_ := cycle_wait_skip_orig_state_ u;
     cycle_wait_type_ := cycle_wait_type_ u;
     cycle_wait_period_ := cycle_wait_period_ u;
     cycle_wait_changed_ := cycle_wait_changed_ u;
     cycle_wait_skip_count_ := cycle_wait_skip_count_ u;
     prev_cycle_time_point_ := prev_cycle_time_point_ u;
     state_ready_wait_count_ := state_ready_wait_count_ u;
     state_ready_time_points_ := state_ready_time_points_ u;
     is_between_cycles_ := is_between_cycles_ u;
     is_joined_with_thread_ := is_joined_with_thread_ u;
     is_pause_pending_ := is_pause_pending_ u; is_paused_ := is_paused_ u;
     next_state_change_listener_handle_ := next_state_change_listener_handle_ u;
     state_change_listeners_ := state_change_listeners_ u;
     set_state_multiple_info_ := set_state_multiple_info_ u;
     thread_func_result_ := thread_func_result_ u; dbg_paused_count_ := v |}.

(** [UThread::Init ()]: the state a constructor leaves behind.
    [prev_cycle_time_point_] is default-constructed, i.e. the time of
    construction [t0]. *)
Definition Init (t0 : TimePoint) : UThread :=
  {| thread_ := None;
     cycle_count_ := 0;
     state_ := kInvalid;
     requested_state_ := kInvalid;
     prev_state_ := kInvalid;
     cycle_wait_skip_orig_state_ := kInvalid;
     cycle_wait_type_ := kAbsolute;
     cycle_wait_period_ := 0;
     cycle_wait_changed_ := false;
     cycle_wait_skip_count_ := 0;
     prev_cycle_time_point_ := t0;
     state_ready_wait_count_ := 0;
     state_ready_time_points_ :=
       [(kInit, 0); (kIdle, 0); (kGo, 0); (kExiting, 0); (kExited, 0)];
     is_between_cycles_ := false;
     is_joined_with_thread_ := false;
     is_pause_pending_ := false;
     is_paused_ := false;
     next_state_change_listener_handle_ := 0%N;
     state_change_listeners_ := [];
     set_state_multiple_info_ := Info_Clear;
     thread_func_result_ := INVALID_RESULT;
     dbg_paused_count_ := 0 |}.

(** The inline accessors of thread.hpp. *)
Definition thread_exists (u : UThread) : bool :=
  match thread_ u with Some _ => true | None => false end.

Definition thread_id (u : UThread) : ThreadId :=
  match thread_ u with Some t => t | None => kInvalidThreadId end.

Definition is_state_changing (u : UThread) : bool :=
  negb (kInvalid ==s requested_state_ u).

Definition is_current_thread (me : ThreadId) (u : UThread) : bool :=
  match thread_ u with Some t => N.eqb me t | None => false end.

Definition is_available (u : UThread) : bool :=
  negb (kExiting ==s state_ u) && negb (kExited ==s state_ u)
  && negb (kExiting ==s requested_state_ u)
  && negb (kExited ==s requested_state_ u).

Definition has_exited (u : UThread) : bool := kExited ==s state_ u.

(** ** The world around one [UThread] *)

(** The condition variables, by member name; [go_state_ready_cond] is the
    local of [RequestStateMultiple] that [go_cond_p] points to. *)
Inductive Cond : Type :=
| state_ready_cond_
| state_ready_none_waiting_cond_
| go_ready_cond_
| idle_ready_cond_
| go_cond_
| cycle_wait_skip_advance_cond_
| paused_cond_
| unpause_cond_
| go_state_ready_cond.

(** What a run leaves in the log, newest entry first. *)
Inductive Obs : Type :=
| NotifyOne (c : Cond)
| NotifyAll (c : Cond)
| Request (s : State)                 (* a caller wrote requested_state_ *)
| SetState (prev new : State)         (* SetStateInternal *)
| Listener (h : ListenerHandle) (new prev : State)
| Sleeps (c : Cond) (until : option TimePoint)
| Spawned (t : ThreadId)
| Joined.

(** [clock] is the sequence of values [TimePoint::Now()] returns, in call
    order; [clock_reads] counts the calls made so far. *)
Record World : Type := mkWorld {
  ut : UThread;
  go_state_pending_count : Z;
  clock : nat -> TimePoint;
  clock_reads : nat;
  log : list Obs
}.

Definition set_ut (v : UThread) (w : World) : World :=
  mkWorld v (go_state_pending_count w) (clock w) (clock_reads w) (log w).

Definition set_go_state_pending_count (v : Z) (w : World) : World :=
  mkWorld (ut w) v (clock w) (clock_reads w) (log w).

Definition set_clock_reads (v : nat) (w : World) : World :=
  mkWorld (ut w) (go_state_pending_count w) (clock w) v (log w).

Definition set_log (v : list Obs) (w : World) : World :=
  mkWorld (ut w) (go_state_pending_count w) (clock w) (clock_reads w) v.

(** How a call ends: it returns, it is left waiting on a condition
    variable, an [assert] fails, or the bound on loop iterations that do
    not wait is used up. *)
Inductive Outcome (A : Type) : Type :=
| Ret (a : A) (w : World)
| Parked (c : Cond) (w : World)
| Abort (w : World)
| OutOfFuel (w : World).

Arguments Ret {A} a w.
Arguments Parked {A} c w.
Arguments Abort {A} w.
Arguments OutOfFuel {A} w.

Definition world_of {A} (r : Outcome A) : World :=
  match r with
  | Ret _ w | Parked _ w | Abort w | OutOfFuel w => w
  end.

(** State-passing programs over [World]. *)
Definition M (A : Type) : Type := World -> Outcome A.

Definition ret {A} (a : A) : M A := fun w => Ret a w.

Definition bind {A B} (m : M A) (k : A -> M B) : M B :=
  fun w =>
    match m w with
    | Ret a w' => k a w'
    | Parked c w' => Parked c w'
    | Abort w' => Abort w'
    | OutOfFuel w' => OutOfFuel w'
    end.

Notation "x <- m ;; k" := (bind m (fun x => k))
  (at level 61, m at next level, right associativity).
Notation "m ;;; k" := (bind m (fun _ => k))
  (at level 61, right associativity).

Definition get : M UThread := fun w => Ret (ut w) w.
Definition modify (f : UThread -> UThread) : M unit :=
  fun w => Ret tt (set_ut (f (ut w)) w).
Definition emit (o : Obs) : M unit :=
  fun w => Ret tt (set_log (o :: log w) w).
Definition assert (b : bool) : M unit :=
  fun w => if b then Ret tt w else Abort w.
Definition park {A} (c : Cond) : M A := fun w => Parked c w.
Definition out_of_fuel {A} : M A := fun w => OutOfFuel w.
Definition when (b : bool) (m : M unit) : M unit := if b then m else ret tt.

(** [TimePoint::Now()]. *)
Definition Now : M TimePoint :=
  fun w => Ret (clock w (clock_reads w)) (set_clock_reads (S (clock_reads w)) w).

(** ** Private helpers of [UThread] *)

(** [UThread::SetStateInternal]. *)
Definition SetStateInternal (new_state : State) : M unit :=
  u <- get ;;
  modify (fun u => set_state_ new_state (set_prev_state_ (state_ u) u)) ;;;
  emit (SetState (state_ u) new_state).

(** [UThread::JoinInternal]. *)
Definition JoinInternal : M unit :=
  u <- get ;;
  assert (kExited ==s state_ u) ;;;
  when (negb (is_joined_with_thread_ u) && thread_exists u)
       (emit Joined ;;; modify (set_is_joined_with_thread_ true)).

(** [UThread::RequestStateMultiple_Prepare]. *)
Definition RequestStateMultiple_Prepare : M unit :=
  modify (set_set_state_multiple_info_ Info_Activate).

(** [UThread::ThreadSafeSetVar] at its two uses. *)
Definition set_cycle_wait_type (type : CycleWait) : M unit :=
  modify (set_cycle_wait_type_ type).

Definition set_cycle_wait_period (period : Duration) : M unit :=
  modify (set_cycle_wait_period_ period).

(** ** Condition waits, seen from the caller *)

(** The test [TimePoint::Min() == timeout_time] of
    [UThread::StateCondWaitUntil]: a time point equal to the sentinel is
    no deadline ([None]), whether it was passed as such or computed. *)
Definition deadline_of (timeout_time : TimePoint) : option TimePoint :=
  if TimePoint_Min =? timeout_time then None else Some timeout_time.

(** [UThread::StateCondWaitUntil] up to the wait itself, after that
    test: [None] is [cond.wait], [Some t] is [cond.wait_until] with
    [t]. *)
Definition StateCondWaitUntil_enter (cond : Cond) (timeout_time : option TimePoint)
  : M Result :=
  u <- get ;;
  if negb (thread_exists u) then
    ret (Prepend "UThread has not been started" NOT_INIT)
  else
    modify (fun u => set_state_ready_wait_count_ (int32_wrap (state_ready_wait_count_ u + 1)) u) ;;;
    emit (Sleeps cond timeout_time) ;;;
    park cond.

(** [UThread::StateCondWaitUntil] from the wake-up on. *)
Definition StateCondWaitUntil_leave (timed_out : bool) : M Result :=
  modify (fun u => set_state_ready_wait_count_ (int32_wrap (state_ready_wait_count_ u - 1)) u) ;;;
  u <- get ;;
  when ((kExited ==s state_ u) && (0 =? state_ready_wait_count_ u))
       (emit (NotifyOne state_ready_none_waiting_cond_)) ;;;
  if timed_out then
    ret (Prepend "Timed out while waiting for thread condition" TIMED_OUT)
  else ret SUCCESS.

(** [UThread::StateCondWaitFor], caller side. *)
Definition StateCondWaitFor_enter (cond : Cond) (wait_period : Duration) : M Result :=
  if 0 =? wait_period then ret SUCCESS
  else if Duration_Min =? wait_period then StateCondWaitUntil_enter cond None
  else
    now <- Now ;;
    StateCondWaitUntil_enter cond (deadline_of (int64_wrap (now + wait_period))).

(** [UThread::StateCondWait], caller side. *)
Definition StateCondWait_enter (cond : Cond) : M unit :=
  StateCondWaitUntil_enter cond None ;;; ret tt.

(** The condition variable [StateWaitFor] waits on. *)
Definition wait_cond_of (desired_state : State) : Cond :=
  match desired_state with
  | kIdle => idle_ready_cond_
  | kGo => go_ready_cond_
  | _ => state_ready_cond_
  end.

(** The tail of [StateWaitFor] after its loop. *)
Definition StateWaitFor_done : M Result :=
  u <- get ;;
  when (kExited ==s state_ u) JoinInternal ;;;
  ret SUCCESS.

(** The [while (state_ != desired_state)] loop of [StateWaitFor]. *)
Fixpoint StateWaitFor_loop (fuel : nat) (desired_state : State) (timeout : Duration)
  : M Result :=
  match fuel with
  | O => out_of_fuel
  | S fuel' =>
      u <- get ;;
      if state_ u ==s desired_state then StateWaitFor_done
      else if kExited ==s state_ u then
        JoinInternal ;;;
        ret (Prepend "Thread has exited" RESOURCE_UNAVAILABLE)
      else if (kExiting ==s state_ u) && negb (kExiting ==s desired_state)
              && negb (kExited ==s desired_state) then
        ret (Prepend "Thread is exiting" SHUTTING_DOWN)
      else
        res <- StateCondWaitFor_enter (wait_cond_of desired_state) timeout ;;
        if Result_eqb TIMED_OUT res then ret TIMED_OUT
        else if (kIdle ==s desired_state) || (kGo ==s desired_state) then
          StateWaitFor_done
        else StateWaitFor_loop fuel' desired_state timeout
  end.

(** [UThread::StateWaitFor]. *)
Definition StateWaitFor (fuel : nat) (me : ThreadId) (desired_state : State)
    (timeout : Duration) : M Result :=
  u <- get ;;
  if negb (thread_exists u) then
    ret (Prepend "UThread has not been started" NOT_INIT)
  else if kInit ==s desired_state then
    ret (Prepend "Cannot wait for 'Init' thread state" INVALID_ARGUMENT)
  else if is_current_thread me u then
    ret (Prepend "A thread cannot call UThread::StateWait() on itself"
                 THREAD_RESTRICTION)
  else StateWaitFor_loop fuel desired_state timeout.

(** [UThread::StateWait]. *)
Definition StateWait (fuel : nat) (me : ThreadId) (state : State) : M Result :=
  StateWaitFor fuel me state Duration_Min.

(** ** Pause and unpause *)

(** [UThread::Unpause]. *)
Definition Unpause : M Result :=
  u <- get ;;
  if negb (thread_exists u) then
    ret (Prepend "UThread has not been started" NOT_INIT)
  else if negb (is_paused_ u) then
    if is_pause_pending_ u then
      modify (set_is_pause_pending_ false) ;;;
      ret SUCCESS
    else ret (Prepend "Thread isn't paused" STATE_ALREADY_EFFECTIVE)
  else
    assert (negb (is_pause_pending_ u)) ;;;
    emit (NotifyOne unpause_cond_) ;;;
    ret SUCCESS.

(** [UThread::Pause], up to its wait on [paused_cond_]. *)
Definition Pause : M Result :=
  u <- get ;;
  if negb (thread_exists u) then
    ret (Prepend "UThread has not been started" NOT_INIT)
  else if is_paused_ u then
    ret (Prepend "Thread is already paused" STATE_ALREADY_EFFECTIVE)
  else if negb (is_available u) then
    ret (Prepend "Thread has exited" RESOURCE_UNAVAILABLE)
  else
    modify (set_is_pause_pending_ true) ;;;
    when ((kGo ==s state_ u) && is_between_cycles_ u)
         (StateCondWait_enter paused_cond_ ;;;
          u' <- get ;;
          assert (negb (is_pause_pending_ u')) ;;;
          assert ((dbg_paused_count_ u <? dbg_paused_count_ u')
                  || negb (is_available u'))) ;;;
    ret SUCCESS.

(** ** State requests *)

(** The [while (newstate != state_)] loop of
    [UThread::RequestState (State, Duration)], entered with the request
    not yet written. *)
Fixpoint RequestState_loop (fuel : nat) (me : ThreadId) (newstate : State)
    (timeout remaining_wait_time : Duration) : M Result :=
  match fuel with
  | O => out_of_fuel
  | S fuel' =>
      u <- get ;;
      if newstate ==s state_ u then ret SUCCESS
      else if kExiting ==s state_ u then
        ret (Prepend ("Thread is exiting, canceling request for new state '"
                      ++ StateToString newstate ++ "'") SHUTTING_DOWN)
      else if kExited ==s state_ u then
        if negb (kExiting ==s newstate) then
          ret (Prepend ("Thread has exited, canceling request for new state '"
                        ++ StateToString newstate ++ "'") RESOURCE_UNAVAILABLE)
        else ret SUCCESS
      else
        modify (set_requested_state_ newstate) ;;;
        emit (Request newstate) ;;;
        emit (NotifyOne go_cond_) ;;;
        if negb (timeout =? Duration_Min) then
          start_time <- Now ;;
          res <- StateWaitFor fuel' me newstate remaining_wait_time ;;
          if negb (Result_eqb SUCCESS res) && negb (Result_eqb TIMED_OUT res) then
            ret (Prepend
              "Error occurred while waiting for thread state to change (with timeout)"
              res)
          else
            let timed_out := negb (Result_eqb SUCCESS res) in
            now <- Now ;;
            let remaining_wait_time :=
              Duration_sub remaining_wait_time (TimePoint_diff now start_time) in
            if timed_out || (remaining_wait_time <=? 0) then
              u <- get ;;
              if newstate ==s state_ u then ret SUCCESS
              else ret (Prepend
                "Timed out while waiting for thread to assume new state" TIMED_OUT)
            else RequestState_loop fuel' me newstate timeout remaining_wait_time
        else
          res <- StateWait fuel' me newstate ;;
          if negb (Result_eqb SUCCESS res) then
            ret (Prepend
              "Error occurred while waiting for thread state to change (no timeout)"
              res)
          else RequestState_loop fuel' me newstate timeout remaining_wait_time
  end.

(** [UThread::RequestState (State, Duration)] before [LockState()]:
    [Some r] is an early return. *)
Definition RequestState_unlocked (newstate : State) (u : UThread) : option Result :=
  if negb (thread_exists u) then
    Some (Prepend "UThread has not been started" NOT_INIT)
  else if kInit ==s newstate then
    Some (Prepend "'Init' thread state cannot be directly requested"
                  INVALID_ARGUMENT)
  else if kExited ==s newstate then
    Some (Prepend "'Exited' thread state cannot be directly requested"
                  INVALID_ARGUMENT)
  else None.

(** [UThread::RequestState (State, Duration)] from the test for a pending
    [kExiting] on: the request is refused, is a no-op that clears what is
    pending, is recorded, or is recorded and waited for. *)
Definition RequestState_submit (fuel : nat) (me : ThreadId) (newstate : State)
    (timeout : Duration) : M Result :=
  u <- get ;;
  if ((kExiting ==s requested_state_ u) || (kExited ==s requested_state_ u))
     && negb (kExiting ==s newstate) then
    ret (Prepend ("Thread is exiting, cannot request new state '"
                  ++ StateToString newstate ++ "'") SHUTTING_DOWN)
  else if newstate ==s state_ u then
    modify (set_requested_state_ kInvalid) ;;;
    emit (NotifyAll state_ready_cond_) ;;;
    ret SUCCESS
  else if 0 =? timeout then
    modify (set_requested_state_ newstate) ;;;
    emit (Request newstate) ;;;
    emit (NotifyOne go_cond_) ;;;
    ret SUCCESS
  else if is_current_thread me u then
    ret (Prepend
      "New thread state requested with blocking enabled, but target thread == current thread"
      DEADLOCK_AVERTED)
  else RequestState_loop fuel me newstate timeout timeout.

(** [UThread::RequestState (State, Duration)] from [LockState()] on. *)
Definition RequestState_locked (fuel : nat) (me : ThreadId) (newstate : State)
    (timeout : Duration) : M Result :=
  u <- get ;;
  if kExited ==s state_ u then
    ret (Prepend ("Thread has exited, ignoring request for new state '"
                  ++ StateToString newstate ++ "'") RESOURCE_UNAVAILABLE)
  else if kExiting ==s state_ u then
    if kExiting ==s newstate then ret SUCCESS
    else ret (Prepend ("Thread is exiting, ignoring request for new state '"
                       ++ StateToString newstate ++ "'") SHUTTING_DOWN)
  else
    assert (negb (is_joined_with_thread_ u)) ;;;
    when (is_paused_ u) (Unpause ;;; ret tt) ;;;
    RequestState_submit fuel me newstate timeout.

(** [UThread::RequestState (State, Duration)]. *)
Definition RequestState (fuel : nat) (me : ThreadId) (newstate : State)
    (timeout : Duration) : M Result :=
  u <- get ;;
  match RequestState_unlocked newstate u with
  | Some r => ret r
  | None => RequestState_locked fuel me newstate timeout
  end.

(** [UThread::RequestState (State, Blocking)]. *)
Definition RequestState_b (fuel : nat) (me : ThreadId) (newstate : State)
    (block : Blocking) : M Result :=
  match block with
  | kOn => RequestState fuel me newstate Duration_Min
  | kOff => RequestState fuel me newstate 0
  end.

(** [UThread::Run], [UThread::Idle]. *)
Definition Run (fuel : nat) (me : ThreadId) (block : Blocking) : M Result :=
  RequestState_b fuel me kGo block.

Definition Idle (fuel : nat) (me : ThreadId) (block : Blocking) : M Result :=
  RequestState_b fuel me kIdle block.

(** [UThread::Exit]. *)
Definition Exit (fuel : nat) (me : ThreadId) (block : Blocking) : M Result :=
  u <- get ;;
  if is_joined_with_thread_ u then ret SUCCESS
  else if negb (kExited ==s state_ u) then
    res <- (if negb (kExiting ==s state_ u)
            then RequestState_b fuel me kExiting block
            else ret SUCCESS) ;;
    if negb (kExiting ==s state_ u) && negb (Result_eqb SUCCESS res)
       && negb (Result_eqb RESOURCE_UNAVAILABLE res) then
      ret (Prepend "Couldn't change UThread state to 'exiting'" res)
    else
      match block with
      | kOn =>
          res <- StateWait fuel me kExited ;;
          if negb (Result_eqb SUCCESS res) then
            ret (Prepend "Couldn't wait for UThread to exit" res)
          else ret SUCCESS
      | kOff => ret SUCCESS
      end
  else ret SUCCESS.

(** [UThread::InitThread]; [t] is the id of the thread it spawns. *)
Definition InitThread (fuel : nat) (me t : ThreadId) (block : Blocking) : M unit :=
  u <- get ;;
  assert (negb (thread_exists u)) ;;;
  modify (set_state_ kInit) ;;;
  modify (set_requested_state_ kIdle) ;;;
  modify (set_thread_ (Some t)) ;;;
  emit (Spawned t) ;;;
  match block with
  | kOn => StateWait fuel me kIdle ;;; ret tt
  | kOff => ret tt
  end.

(** [UThread::Start (Blocking)]. *)
Definition Start (fuel : nat) (me t : ThreadId) (block : Blocking) : M Result :=
  u <- get ;;
  if thread_exists u then
    ret (Prepend "UThread has already been started" STATE_ALREADY_EFFECTIVE)
  else
    InitThread fuel me t block ;;;
    ret SUCCESS.

(** ** Listeners *)

(** [UThread::RegisterStateChangeListener]; returns the handle. *)
Definition RegisterStateChangeListener : M ListenerHandle :=
  u <- get ;;
  let handle := next_state_change_listener_handle_ u in
  modify (fun u =>
    set_state_change_listeners_ (handle :: state_change_listeners_ u)
      (set_next_state_change_listener_handle_ (N.succ handle) u)) ;;;
  ret handle.

(** [UThread::UnregisterStateChangeListener] (the message leaves out the
    decimal form of the handle). *)
Definition UnregisterStateChangeListener (handle : ListenerHandle) : M Result :=
  u <- get ;;
  if existsb (N.eqb handle) (state_change_listeners_ u) then
    modify (set_state_change_listeners_
              (filter (fun h => negb (N.eqb handle h)) (state_change_listeners_ u))) ;;;
    ret SUCCESS
  else
    ret (Prepend "Cannot unregister invalid state change listener handle"
                 NOT_REGISTERED).

(** ** Single stepping *)

(** [UThread::RunNCycles]: the function returns on its first statement;
    the code below that [return] is never run. *)
Definition RunNCycles (n_cycles : Z) (block : Blocking) : M Result :=
  ret (Prepend "UThread::RunNCycles()" NOT_IMPLEMENTED).

(** [UThread::RunOneCycle]. *)
Definition RunOneCycle (block : Blocking) : M Result := RunNCycles 1 block.

(** ** What other threads do while the managed thread waits *)

(** The calls other threads can make on the object.  [CallRequestStateAgain]
    and [CallWaitLeave] are the later steps of a caller that was left
    waiting: its wake-up inside [StateCondWaitUntil] and the next round of
    the loop of [RequestState].  The last three are the writes of
    [RequestStateMultiple] and of the other participants of its barrier. *)
Inductive ExtCall : Type :=
| CallRequestState (who : ThreadId) (newstate : State) (timeout : Duration)
| CallRequestStateAgain (who : ThreadId) (newstate : State)
                        (timeout remaining_wait_time : Duration)
| CallStateWaitFor (who : ThreadId) (desired_state : State) (timeout : Duration)
| CallWaitLeave (timed_out : bool)
| CallExit (who : ThreadId) (block : Blocking)
| CallStart (who t : ThreadId) (block : Blocking)
| CallPause
| CallUnpause
| CallSetCycleWaitType (type : CycleWait)
| CallSetCycleWaitPeriod (period : Duration)
| CallRegister
| CallUnregister (handle : ListenerHandle)
| CallRunNCycles (n_cycles : Z) (block : Blocking)
| CallPrepare
| CallSetPendingCount (n : Z)
| CallOtherArrives.

(** Iterations without a wait that a caller's loops are followed for. *)
Definition ext_fuel : nat := 4.

Definition ext_apply (c : ExtCall) (w : World) : World :=
  match c with
  | CallRequestState who s t => world_of (RequestState ext_fuel who s t w)
  | CallRequestStateAgain who s t r => world_of (RequestState_loop ext_fuel who s t r w)
  | CallStateWaitFor who s t => world_of (StateWaitFor ext_fuel who s t w)
  | CallWaitLeave b => world_of (StateCondWaitUntil_leave b w)
  | CallExit who b => world_of (Exit ext_fuel who b w)
  | CallStart who t b => world_of (Start ext_fuel who t b w)
  | CallPause => world_of (Pause w)
  | CallUnpause => world_of (Unpause w)
  | CallSetCycleWaitType t => world_of (set_cycle_wait_type t w)
  | CallSetCycleWaitPeriod p => world_of (set_cycle_wait_period p w)
  | CallRegister => world_of (RegisterStateChangeListener w)
  | CallUnregister h => world_of (UnregisterStateChangeListener h w)
  | CallRunNCycles n b => world_of (RunNCycles n b w)
  | CallPrepare =>
      if is_available (ut w) then world_of (RequestStateMultiple_Prepare w) else w
  | CallSetPendingCount n => set_go_state_pending_count n w
  | CallOtherArrives =>
      set_go_state_pending_count (int32_wrap (go_state_pending_count w - 1)) w
  end.

Definition run_calls (cs : list ExtCall) (w : World) : World :=
  fold_left (fun w c => ext_apply c w) cs w.

(** One wake-up of the managed thread: the calls made while it slept, and
    whether the wait ended by its deadline. *)
Record Wake : Type := mkWake {
  during : list ExtCall;
  timed_out : bool
}.

(** Programs of the managed thread: they use up wake-ups. *)
Definition MT (A : Type) : Type := list Wake -> World -> Outcome (A * list Wake).

Definition retT {A} (a : A) : MT A := fun env w => Ret (a, env) w.

Definition bindT {A B} (m : MT A) (k : A -> MT B) : MT B :=
  fun env w =>
    match m env w with
    | Ret (a, env') w' => k a env' w'
    | Parked c w' => Parked c w'
    | Abort w' => Abort w'
    | OutOfFuel w' => OutOfFuel w'
    end.

Definition lift {A} (m : M A) : MT A :=
  fun env w =>
    match m w with
    | Ret a w' => Ret (a, env) w'
    | Parked c w' => Parked c w'
    | Abort w' => Abort w'
    | OutOfFuel w' => OutOfFuel w'
    end.

(** A step that does not wait, then the rest with the same wake-ups. *)
Definition bindM {A B} (m : M A) (k : A -> MT B) : MT B :=
  fun env w =>
    match m w with
    | Ret a w' => k a env w'
    | Parked c w' => Parked c w'
    | Abort w' => Abort w'
    | OutOfFuel w' => OutOfFuel w'
    end.

Notation "x <~ m ;; k" := (bindT m (fun x => k))
  (at level 61, m at next level, right associativity).
Notation "m ~;; k" := (bindT m (fun _ => k))
  (at level 61, right associativity).
Notation "x <-! m ;; k" := (bindM m (fun x => k))
  (at level 61, m at next level, right associativity).
Notation "m !;; k" := (bindM m (fun _ => k))
  (at level 61, right associativity).

Definition whenT (b : bool) (m : MT unit) : MT unit := if b then m else retT tt.

(** [UThread::StateCondWaitUntil] run by the managed thread.  [k_now]
    continues a call that returned without waiting, [k_woken] one that
    waited and was woken.  A wait without deadline cannot time out. *)
Definition StateCondWaitUntil {A} (cond : Cond) (timeout_time : option TimePoint)
    (k_now : Result -> MT A) (k_woken : Result -> MT A) : MT A :=
  fun env w =>
    match StateCondWaitUntil_enter cond timeout_time w with
    | Ret r w1 => k_now r env w1
    | Parked c w1 =>
        match env with
        | [] => Parked c w1
        | e :: env' =>
            let expired :=
              match timeout_time with
              | Some _ => timed_out e
              | None => false
              end in
            match StateCondWaitUntil_leave expired (run_calls (during e) w1) with
            | Ret r w2 => k_woken r env' w2
            | Parked c' w2 => Parked c' w2
            | Abort w2 => Abort w2
            | OutOfFuel w2 => OutOfFuel w2
            end
        end
    | Abort w1 => Abort w1
    | OutOfFuel w1 => OutOfFuel w1
    end.

(** [UThread::StateCondWaitFor] run by the managed thread. *)
Definition StateCondWaitFor {A} (cond : Cond) (wait_period : Duration)
    (k_now : Result -> MT A) (k_woken : Result -> MT A) : MT A :=
  if 0 =? wait_period then k_now SUCCESS
  else if Duration_Min =? wait_period then
    StateCondWaitUntil cond None k_now k_woken
  else
    now <-! Now ;;
    StateCondWaitUntil cond (deadline_of (int64_wrap (now + wait_period)))
      k_now k_woken.

(** [UThread::StateCondWait] run by the managed thread. *)
Definition StateCondWait {A} (cond : Cond) (k_now : MT A) (k_woken : MT A) : MT A :=
  StateCondWaitUntil cond None (fun _ => k_now) (fun _ => k_woken).

(** [UThread::ConsiderPause_locked]. *)
Definition ConsiderPause_locked : MT unit :=
  u <-! get ;;
  if is_pause_pending_ u then
    modify (set_is_pause_pending_ false) !;;
    modify (set_is_paused_ true) !;;
    modify (fun u => set_dbg_paused_count_ (int32_wrap (dbg_paused_count_ u + 1)) u) !;;
    emit (NotifyAll paused_cond_) !;;
    let resume := lift (modify (set_is_paused_ false)) in
    StateCondWait unpause_cond_ resume resume
  else retT tt.

(** [UThread::Sleep]. *)
Definition Sleep (me : ThreadId) (max_duration : Duration) : MT Result :=
  u <-! get ;;
  if negb (thread_exists u) then
    retT (Prepend "UThread has not been started" NOT_INIT)
  else if negb (N.eqb me (thread_id u)) then
    retT (Prepend
      "UThread::Sleep() can be invoked only by the UThread process on itself"
      THREAD_RESTRICTION)
  else if is_state_changing u then
    retT (Prepend "Thread state change is pending, not sleeping"
                  INTERRUPTED_OPERATION)
  else if Duration_Min =? max_duration then
    StateCondWait go_cond_ (retT INTERRUPTED_OPERATION) (retT INTERRUPTED_OPERATION)
  else
    let after res :=
      if negb (Result_eqb TIMED_OUT res) then
        retT (Prepend "Thread sleep was interrupted" res)
      else retT SUCCESS in
    StateCondWaitFor go_cond_ max_duration after after.

(** ** The checkpoint *)

Definition out_of_fuelT {A} : MT A := fun _ w => OutOfFuel w.

(** The block of [ProcState] on [cycle_wait_skip_orig_state_]; [Some r]
    when [ProcState] returns [r] from inside it. *)
Definition ProcState_skip : MT (option ProcStateResult) :=
  u <-! get ;;
  if negb (kInvalid ==s cycle_wait_skip_orig_state_ u) then
    assert (0 <=? cycle_wait_skip_count_ u) !;;
    emit (NotifyAll cycle_wait_skip_advance_cond_) !;;
    if kInvalid ==s requested_state_ u then
      if 0 <? cycle_wait_skip_count_ u then
        ConsiderPause_locked ~;;
        modify (fun u =>
          set_cycle_wait_skip_count_ (int64_wrap (cycle_wait_skip_count_ u - 1)) u) !;;
        retT (Some kContinue)
      else
        when (kIdle ==s cycle_wait_skip_orig_state_ u)
             (modify (set_requested_state_ kIdle)) !;;
        modify (set_cycle_wait_skip_orig_state_ kInvalid) !;;
        retT None
    else
      modify (set_cycle_wait_skip_orig_state_ kInvalid) !;;
      modify (set_cycle_wait_skip_count_ 0) !;;
      retT None
  else retT None.

(** The assignment to [sleep_period] at the top of the cycle-wait loop;
    [Now()] is read for [kAbsolute] only. *)
Definition cycle_sleep_period (sleep_period : Duration) : M Duration :=
  u <- get ;;
  if negb (kIndefinite ==c cycle_wait_type_ u) then
    if kRelative ==c cycle_wait_type_ u then ret (cycle_wait_period_ u)
    else if kAbsolute ==c cycle_wait_type_ u then
      now <- Now ;;
      let cycle_elapsed := TimePoint_diff now (prev_cycle_time_point_ u) in
      if cycle_wait_period_ u <=? cycle_elapsed then ret 0
      else ret (Duration_sub (cycle_wait_period_ u) cycle_elapsed)
    else ret sleep_period
  else ret sleep_period.

(** The branch of the cycle-wait loop taken when the wait timed out. *)
Definition cycle_wait_expired : MT (option ProcStateResult) :=
  now <-! Now ;;
  modify (set_prev_cycle_time_point_ now) !;;
  modify (set_is_between_cycles_ false) !;;
  ConsiderPause_locked ~;;
  retT (Some kContinue).

(** The branch taken when [go_cond_] was signalled: [true] for
    [continue], [false] for [break]. *)
Definition cycle_wait_signalled : M bool :=
  u <- get ;;
  when (negb (kInvalid ==s cycle_wait_skip_orig_state_ u))
    (assert (0 <? cycle_wait_skip_count_ u) ;;;
     if kInvalid ==s requested_state_ u then
       modify (fun u =>
         set_cycle_wait_skip_count_ (int64_wrap (cycle_wait_skip_count_ u - 1)) u)
     else
       modify (set_cycle_wait_skip_orig_state_ kInvalid) ;;;
       modify (set_cycle_wait_skip_count_ 0)) ;;;
  u <- get ;;
  if cycle_wait_changed_ u then
    modify (set_cycle_wait_changed_ false) ;;;
    if (kRelative ==c cycle_wait_type_ u)
       || negb (kInvalid ==s cycle_wait_skip_orig_state_ u) then ret false
    else ret true
  else ret false.

(** One round of the [while (true)] loop; [again] is the next round.  A
    round that would go round again without having waited is cut off. *)
Definition cycle_wait_round (again : Duration -> MT (option ProcStateResult))
    (sleep_period : Duration) : MT (option ProcStateResult) :=
  sleep_period <-! cycle_sleep_period sleep_period ;;
  if negb (sleep_period =? 0) then
    modify (set_cycle_wait_changed_ false) !;;
    u <-! get ;;
    let signalled next :=
      go_round <-! cycle_wait_signalled ;;
      if go_round then next else retT None in
    if kIndefinite ==c cycle_wait_type_ u then
      StateCondWait go_cond_ (signalled out_of_fuelT) (signalled (again sleep_period))
    else
      let after next res :=
        assert (is_success res || Result_eqb TIMED_OUT res) !;;
        if is_success res then signalled next else cycle_wait_expired in
      StateCondWaitFor go_cond_ sleep_period
        (after out_of_fuelT) (after (again sleep_period))
  else retT None.

Fixpoint cycle_wait_loop (env : list Wake) (sleep_period : Duration) (w : World)
    {struct env} : Outcome (option ProcStateResult * list Wake) :=
  cycle_wait_round (fun sp env' w' => cycle_wait_loop env' sp w') sleep_period env w.

(** The locals of [ProcState] that its last part reads. *)
Record Locals : Type := mkLocals {
  procstate_res : ProcStateResult;
  handle_state_changed : bool
}.

(** [case State::kGo] of the [switch]. *)
Definition apply_go (l : Locals) : M Locals :=
  modify (set_requested_state_ kInvalid) ;;;
  emit (NotifyAll go_ready_cond_) ;;;
  SetStateInternal kGo ;;;
  ret (mkLocals (procstate_res l) true).

(** [case State::kExiting]. *)
Definition apply_exiting (l : Locals) : M Locals :=
  SetStateInternal kExiting ;;;
  modify (set_requested_state_ kInvalid) ;;;
  ret (mkLocals kExit true).

(** What [case State::kIdle] does once [StateCondWait (go_cond_)] is
    over; returns the request the loop test will read. *)
Definition idle_woken : M State :=
  now <- Now ;;
  modify (set_prev_cycle_time_point_ now) ;;;
  u <- get ;;
  when (negb (kInvalid ==s cycle_wait_skip_orig_state_ u))
    (assert (0 <? cycle_wait_skip_count_ u) ;;;
     modify (fun u =>
       set_cycle_wait_skip_count_ (int64_wrap (cycle_wait_skip_count_ u - 1)) u)) ;;;
  ret (requested_state_ u).

(** One round of the [do ... while (kInvalid != requested_state_)] loop;
    [again] is the next round.  After [case kGo], [case kExiting] and
    [case kInvalid] the loop test reads the [kInvalid] just written (or
    found) and the loop ends.  With a multi-transition in progress
    [case kIdle] writes [kGo], the test holds and the next round is
    [case kGo].  Only the round that parks in [kIdle] can be followed by
    a round that depends on what other threads did. *)
Definition state_change_round (again : Locals -> MT Locals) (l : Locals)
  : MT Locals :=
  u <-! get ;;
  match requested_state_ u with
  | kGo => l' <-! apply_go l ;; retT l'
  | kIdle =>
      if in_progress (set_state_multiple_info_ u) then
        modify (set_requested_state_ kGo) !;;
        l' <-! apply_go l ;;
        retT l'
      else
        modify (set_requested_state_ kInvalid) !;;
        let l' := mkLocals (procstate_res l) false in
        SetStateInternal kIdle !;;
        emit (NotifyAll state_ready_cond_) !;;
        emit (NotifyAll idle_ready_cond_) !;;
        let woken next :=
          requested <-! idle_woken ;;
          if negb (kInvalid ==s requested) then next l' else retT l' in
        StateCondWait go_cond_ (woken (fun _ => out_of_fuelT)) (woken again)
  | kExiting => l' <-! apply_exiting l ;; retT l'
  | kInvalid => retT l
  | kInit | kExited => assert false !;; retT l
  end.

Fixpoint state_change_loop (env : list Wake) (l : Locals) (w : World)
    {struct env} : Outcome (Locals * list Wake) :=
  state_change_round (fun l' env' w' => state_change_loop env' l' w') l env w.

(** The calls that do not take the state lock. *)
Definition lock_free (c : ExtCall) : bool :=
  match c with
  | CallRegister | CallUnregister _ | CallSetPendingCount _ | CallOtherArrives => true
  | _ => false
  end.

(** The wait on [*go_cond_p].  It is made with the state lock held, so
    only calls that do not take that lock get through. *)
Definition barrier_wait : MT unit :=
  fun env w =>
    let w1 := set_log (Sleeps go_state_ready_cond None :: log w) w in
    match env with
    | [] => Parked go_state_ready_cond w1
    | e :: env' => Ret (tt, env') (run_calls (filter lock_free (during e)) w1)
    end.

Definition get_pending_count : M Z := fun w => Ret (go_state_pending_count w) w.

(** The barrier of a synchronised [kGo] transition. *)
Definition ProcState_barrier : MT unit :=
  u <-! get ;;
  if in_progress (set_state_multiple_info_ u) then
    (fun w => Ret tt (set_go_state_pending_count
                        (int32_wrap (go_state_pending_count w - 1)) w)) !;;
    n <-! get_pending_count ;;
    (if negb (n =? 0) then
       assert (0 <? n) !;;
       barrier_wait
     else
       emit (NotifyAll go_state_ready_cond) !;; retT tt) ~;;
    modify (set_set_state_multiple_info_ Info_Clear) !;;
    retT tt
  else retT tt.

(** The loop over [state_change_listeners_]. *)
Definition call_listeners : M unit :=
  fun w =>
    let u := ut w in
    Ret tt (fold_left
              (fun w h => set_log (Listener h (state_ u) (prev_state_ u) :: log w) w)
              (state_change_listeners_ u) w).

(** [state_ready_time_points_[state] = t]. *)
Definition set_time_point (s : State) (t : TimePoint) (l : list (State * TimePoint))
  : list (State * TimePoint) :=
  (s, t) :: filter (fun p => negb (fst p ==s s)) l.

(** The cycle wait of [ProcState]: the [if] on a missing request, with
    the loop inside. *)
Definition ProcState_cycle_wait : MT (option ProcStateResult) :=
  u <-! get ;;
  if kInvalid ==s requested_state_ u then
    assert ((kIndefinite ==c cycle_wait_type_ u)
            || (kRelative ==c cycle_wait_type_ u)
            || (kAbsolute ==c cycle_wait_type_ u)) !;;
    if (0 <? cycle_wait_period_ u) || (kIndefinite ==c cycle_wait_type_ u) then
      r <~ (fun env w => cycle_wait_loop env 0 w) ;;
      match r with
      | Some res => retT (Some res)
      | None =>
          now <-! Now ;;
          modify (set_prev_cycle_time_point_ now) !;;
          retT None
      end
    else
      modify (set_is_between_cycles_ false) !;;
      ConsiderPause_locked ~;;
      retT (Some kContinue)
  else retT None.

(** The last part of [ProcState]: barrier, listeners, pause. *)
Definition ProcState_finish (l : Locals) : MT ProcStateResult :=
  ProcState_barrier ~;;
  when (handle_state_changed l)
    (call_listeners ;;;
     emit (NotifyAll state_ready_cond_) ;;;
     now <- Now ;;
     modify (fun u =>
       set_state_ready_time_points_
         (set_time_point (state_ u) now (state_ready_time_points_ u)) u)) !;;
  modify (set_is_between_cycles_ false) !;;
  ConsiderPause_locked ~;;
  retT (procstate_res l).

(** [ProcState] from the test [requested_state_ == state_] on. *)
Definition ProcState_apply : MT ProcStateResult :=
  u <-! get ;;
  l <~ (if requested_state_ u ==s state_ u then
          modify (set_requested_state_ kInvalid) !;;
          modify (set_is_between_cycles_ false) !;;
          retT (mkLocals kContinue false)
        else fun env w => state_change_loop env (mkLocals kContinue false) w) ;;
  ProcState_finish l.

(** [UThread::ProcState], called by the thread [me]. *)
Definition ProcState (me : ThreadId) : MT ProcStateResult :=
  u <-! get ;;
  assert (thread_exists u) !;;
  assert (N.eqb (thread_id u) me) !;;
  assert (negb (kIdle ==s state_ u)) !;;
  modify (fun u => set_cycle_count_ (int64_wrap (cycle_count_ u + 1)) u) !;;
  if kExiting ==s state_ u then
    ConsiderPause_locked ~;;
    retT kExit
  else
    r <~ ProcState_skip ;;
    match r with
    | Some res => retT res
    | None =>
        modify (set_is_between_cycles_ true) !;;
        r <~ ProcState_cycle_wait ;;
        match r with
        | Some res => retT res
        | None => ProcState_apply
        end
    end.

(** [UThread::SetSelfExiting]. *)
Definition SetSelfExiting (fuel : nat) (me : ThreadId) : MT Result :=
  u <-! get ;;
  if negb (is_current_thread me u) then
    retT (Prepend
      "UThread::SetSelfExiting() can be invoked only by the UThread process on itself"
      THREAD_RESTRICTION)
  else
    res <-! RequestState_b fuel me kExiting kOff ;;
    if negb (Result_eqb SUCCESS res) then retT (Prepend "SetSelfExiting" res)
    else
      ProcState me ~;;
      retT SUCCESS.

(** [UThread::_mainThreadFunc] after the user function has returned
    [thread_result]. *)
Definition mainThreadFunc_exit (thread_result : Result) : M unit :=
  u <- get ;;
  (if 0 <? state_ready_wait_count_ u then
     emit (NotifyAll state_ready_cond_) ;;;
     emit (NotifyAll idle_ready_cond_) ;;;
     emit (NotifyAll go_ready_cond_)
   else assert (0 =? state_ready_wait_count_ u)) ;;;
  modify (set_thread_func_result_ thread_result) ;;;
  call_listeners ;;;
  SetStateInternal kExited ;;;
  modify (set_thread_ None).

(** [UThread::_mainThreadFunc] around the user function. *)
Definition _mainThreadFunc (user_thread_func_ : MT Result) : MT unit :=
  thread_result <~ user_thread_func_ ;;
  mainThreadFunc_exit thread_result !;;
  retT tt.

(** * The vocabulary of the properties *)

(** ** Steps that leave the state machine alone

    [quiet w w']: going from [w] to [w'] neither applied a transition nor
    called a listener, kept the thread object and did not end a
    multi-transition. *)

Definition quiet_obs (o : Obs) : Prop :=
  match o with
  | SetState _ _ | Listener _ _ _ => False
  | _ => True
  end.

Record quiet (w w' : World) : Prop := mkQuiet {
  q_thread : thread_ (ut w') = thread_ (ut w);
  q_state : state_ (ut w') = state_ (ut w);
  q_prev : prev_state_ (ut w') = prev_state_ (ut w);
  q_progress :
    in_progress (set_state_multiple_info_ (ut w)) = true ->
    in_progress (set_state_multiple_info_ (ut w')) = true;
  q_clock : clock w' = clock w;
  q_log : exists new, log w' = (new ++ log w)%list /\ Forall quiet_obs new
}.

(** [pres R m]: however [m] ends, the world it leaves is [R]-related to
    the one it started in. *)
Definition pres (R : World -> World -> Prop) {A} (m : M A) : Prop :=
  forall w, R w (world_of (m w)).

Definition presT (R : World -> World -> Prop) {A} (m : MT A) (env : list Wake) : Prop :=
  forall w, R w (world_of (m env w)).

(** Other threads only get at a live thread object through the calls
    above, so a wait of the managed thread is [calm]: quiet as long as the
    thread object exists. *)
Definition calm (w w' : World) : Prop :=
  thread_exists (ut w) = true -> quiet w w'.

(** ** The moves of [state_] *)

Definition is_set (o : Obs) : bool :=
  match o with SetState _ _ => true | _ => false end.

Definition is_listener (o : Obs) : bool :=
  match o with Listener _ _ _ => true | _ => false end.

Definition sets_idle (o : Obs) : bool :=
  match o with SetState _ kIdle => true | _ => false end.

(** The edges the code moves [state_] along with [SetStateInternal]:
    those of the diagram, a request applied straight from [kInit], and
    [kExited] from wherever the thread function returns. *)
Definition edge (prev new : State) : bool :=
  match prev, new with
  | kInit, (kIdle | kGo | kExiting | kExited) => true
  | kIdle, (kGo | kExiting | kExited) => true
  | kGo, (kIdle | kExiting | kExited) => true
  | kExiting, kExited => true
  | _, _ => false
  end.

(** The edges of the diagram in the specification. *)
Definition diagram_edge (prev new : State) : bool :=
  match prev, new with
  | kInvalid, kInit => true
  | kInit, kIdle => true
  | kIdle, kGo => true
  | kGo, kIdle => true
  | (kGo | kIdle), kExiting => true
  | kExiting, kExited => true
  | _, _ => false
  end.

(** [moves s new s']: the log entries [new] (newest first) take [state_]
    from [s] to [s'], every [SetStateInternal] among them starting from
    the state reached so far and either re-applying it or following an
    edge. *)
Inductive moves : State -> list Obs -> State -> Prop :=
| moves_nil s : moves s [] s
| moves_other s l s' o :
    moves s l s' -> is_set o = false -> moves s (o :: l) s'
| moves_set s l p n :
    moves s l p -> p = n \/ edge p n = true -> moves s (SetState p n :: l) n.

(** The states of a thread whose function is running. *)
Definition running (s : State) : bool :=
  match s with kInit | kIdle | kGo => true | _ => false end.

Definition live (s : State) : bool :=
  match s with kInit | kIdle | kGo | kExiting => true | _ => false end.

(** What the loop over [requested_state_] (or anything that ends by
    running it) leaves behind when started in [w]. *)
Definition loop_post (w : World) (o : Outcome (Locals * list Wake)) : Prop :=
  thread_ (ut (world_of o)) = thread_ (ut w) /\
  live (state_ (ut (world_of o))) = true /\
  exists new,
    log (world_of o) = (new ++ log w)%list /\
    moves (state_ (ut w)) new (state_ (ut (world_of o))) /\
    Forall (fun o => is_listener o = false) new /\
    (in_progress (set_state_multiple_info_ (ut w)) = true ->
     Forall (fun o => sets_idle o = false) new) /\
    (forall l env' w', o = Ret (l, env') w' ->
       handle_state_changed l = true -> Exists (fun o => is_set o = true) new).

(** What a whole pass through [ProcState] leaves behind. *)
Definition pass_post (w w' : World) : Prop :=
  thread_ (ut w') = thread_ (ut w) /\
  live (state_ (ut w')) = true /\
  exists new,
    log w' = (new ++ log w)%list /\
    moves (state_ (ut w)) new (state_ (ut w')) /\
    (in_progress (set_state_multiple_info_ (ut w)) = true ->
     Forall (fun o => sets_idle o = false) new) /\
    (Exists (fun o => is_listener o = true) new ->
     Exists (fun o => is_set o = true) new).

(** [tame hsc w w']: no transition was applied between [w] and [w'], and
    no listener called unless [hsc] (the local [handle_state_changed]) was
    set. *)
Definition tame (hsc : bool) (w w' : World) : Prop :=
  thread_exists (ut w) = true ->
  thread_ (ut w') = thread_ (ut w) /\
  state_ (ut w') = state_ (ut w) /\
  exists new,
    log w' = (new ++ log w)%list /\
    Forall (fun o => is_set o = false /\ (hsc = false -> is_listener o = false)) new.

(** ** Runs *)

(** What can happen to a started object: a call from any thread, a
    pass of the managed thread through [ProcState], [Sleep] or
    [SetSelfExiting] (each with the wake-ups it gets), and the return of
    the thread function. *)
Inductive Op : Type :=
| OpCall (c : ExtCall)
| OpProcState (env : list Wake)
| OpSleep (max_duration : Duration) (env : list Wake)
| OpSetSelfExiting (env : list Wake)
| OpReturn (thread_result : Result).

Definition exec (op : Op) (w : World) : World :=
  match op with
  | OpCall c => ext_apply c w
  | OpProcState env => world_of (ProcState (thread_id (ut w)) env w)
  | OpSleep d env => world_of (Sleep (thread_id (ut w)) d env w)
  | OpSetSelfExiting env =>
      world_of (SetSelfExiting ext_fuel (thread_id (ut w)) env w)
  | OpReturn r =>
      if thread_exists (ut w) then world_of (mainThreadFunc_exit r w) else w
  end.

Definition run_ops (ops : list Op) (w : World) : World :=
  fold_left (fun w op => exec op w) ops w.

(** [Start] called again. *)
Definition restarts (op : Op) : bool :=
  match op with
  | OpCall (CallStart _ _ _) => true
  | _ => false
  end.

(** A started object: its thread function runs, or has returned. *)
Definition started (w : World) : Prop :=
  match thread_ (ut w) with
  | Some _ => live (state_ (ut w)) = true
  | None => state_ (ut w) = kExited
  end.

(** No [Start] is called on an object whose thread function has
    returned. *)
Fixpoint no_restart (ops : list Op) (w : World) : bool :=
  match ops with
  | [] => true
  | op :: ops' =>
      negb (restarts op && negb (thread_exists (ut w)))
      && no_restart ops' (exec op w)
  end.

(** [follows w w']: [w'] is a started object, and the log entries added
    since [w] take [state_] from what it was in [w] to what it is in
    [w']. *)
Definition follows (w w' : World) : Prop :=
  started w' /\
  exists new,
    log w' = (new ++ log w)%list /\
    moves (state_ (ut w)) new (state_ (ut w')).

Definition keeps_track (w w' : World) : Prop := started w -> follows w w'.

(** The [assert]s on the way through [RequestState] hold. *)
Definition asserts_hold (u : UThread) : Prop :=
  is_joined_with_thread_ u = false /\
  (is_paused_ u = true -> is_pause_pending_ u = false).

(** A request that [RequestState] would record: valid, not barred by the
    thread exiting, and not for the state the thread is in. *)
Definition would_record (newstate : State) (u : UThread) : bool :=
  negb (kInit ==s newstate) && negb (kExited ==s newstate)
  && negb (kExited ==s state_ u) && negb (kExiting ==s state_ u)
  && negb (((kExiting ==s requested_state_ u) || (kExited ==s requested_state_ u))
           && negb (kExiting ==s newstate))
  && negb (newstate ==s state_ u).

(** [same_pause w w']: [is_paused_] reads the same in [w'] as in [w]. *)
Definition same_pause (w w' : World) : Prop :=
  is_paused_ (ut w') = is_paused_ (ut w).


(** ** Example worlds *)

Definition clock0 (n : nat) : TimePoint := 1000 * Z.of_nat n.

(** A new object, started without blocking by thread 1; its own thread
    is 7. *)
Definition w_fresh : World := mkWorld (Init 0) 0 clock0 0 [].
Definition w_init : World := world_of (Start 1 1%N 7%N kOff w_fresh).

(** Its first pass through [ProcState], left parked in [kIdle]. *)
Definition w_idle : World := world_of (ProcState 7%N [] w_init).

(** The same pass, woken from [kIdle] by a request for [kGo]. *)
Definition w_go : World :=
  world_of (ProcState 7%N [mkWake [CallRequestState 1%N kGo 0] false] w_init).

(** [kExiting] requested and applied, and the thread function returned. *)
Definition w_exiting : World :=
  world_of (ProcState 7%N [] (world_of (RequestState 1 1%N kExiting 0 w_go))).
Definition w_exited : World := world_of (mainThreadFunc_exit SUCCESS w_exiting).

(** Paused: [Pause] called on [w_go], and the next pass parked on
    [unpause_cond_]. *)
Definition w_paused : World := world_of (ProcState 7%N [] (world_of (Pause w_go))).

(** A period of 5 us (resp. 1.5 us) set on [w_go]. *)
Definition w_period : World := world_of (set_cycle_wait_period 5000 w_go).
Definition w_short_period : World := world_of (set_cycle_wait_period 1500 w_go).


(** A started thread that has not reached its first pass through
    [ProcState] is in [kInit], with [kIdle] pending. *)
Definition w_init_pending : World :=
  world_of (RequestState 1 1%N kIdle 0 w_init).

(** [kExiting] requested and applied, the thread function returning, and
    a request for [kGo] after that. *)
Definition ops_exit : list Op :=
  [OpCall (CallRequestState 1%N kExiting 0); OpProcState [];
   OpReturn SUCCESS; OpCall (CallRequestState 1%N kGo 0)].


(** ** The calls of listeners *)

(** The registry of listeners is in order: no handle is in it twice (it
    is a map keyed by handle), and every handle in it was given out
    before [next_state_change_listener_handle_]. *)
Definition registry_ok (u : UThread) : Prop :=
  NoDup (state_change_listeners_ u) /\
  Forall (fun h => (h < next_state_change_listener_handle_ u)%N)
         (state_change_listeners_ u).

(** [orderly w w']: the registry is still in order in [w'] if it was in
    [w]. *)
Definition orderly (w w' : World) : Prop :=
  registry_ok (ut w) -> registry_ok (ut w').

(** [still w w']: quiet, and the registry stays in order. *)
Definition still (w w' : World) : Prop := quiet w w' /\ orderly w w'.

(** The calls of listeners among log entries, and those of the listener
    [h]. *)
Definition heard (new : list Obs) : list Obs := filter is_listener new.

Definition calls_to (h : ListenerHandle) (new : list Obs) : nat :=
  List.length
    (filter (fun o => match o with
                      | Listener h' _ _ => N.eqb h h'
                      | _ => false
                      end) new).

(** One call of each of the listeners [hs] with the states [s] and [p],
    as the loop over [state_change_listeners_] logs them. *)
Definition told (hs : list ListenerHandle) (s p : State) : list Obs :=
  rev (map (fun h => Listener h s p) hs).

(** What the loop over [requested_state_] leaves behind for the
    listeners when started in [w]: the registry still in order and, if
    it ends with [handle_state_changed] set, [kGo] or [kExiting] applied
    last, as the newest entry of the log, in place of a different state
    unless the thread was in [kGo] already. *)
Definition loop_told (w : World) (o : Outcome (Locals * list Wake)) : Prop :=
  orderly w (world_of o) /\
  forall l env' w', o = Ret (l, env') w' -> handle_state_changed l = true ->
    (state_ (ut w') = kGo \/ state_ (ut w') = kExiting) /\
    (exists older,
        log w' = SetState (prev_state_ (ut w')) (state_ (ut w')) :: older) /\
    (prev_state_ (ut w') <> state_ (ut w') \/
     (state_ (ut w) = kGo /\ state_ (ut w') = kGo)).

(** What the listeners hear in the entries [new] that a pass from [w] to
    [w'] adds to the log: each of them at most once, and then the state
    applied last in the pass, [kGo] or [kExiting], with the state it
    replaced, which is a different one unless the pass began in [kGo]
    and applied [kGo]. *)
Definition pass_told (w w' : World) (new : list Obs) : Prop :=
  (forall h, (calls_to h new <= 1)%nat) /\
  (forall h s p, In (Listener h s p) new ->
     s = state_ (ut w') /\ p = prev_state_ (ut w') /\
     (s = kGo \/ s = kExiting) /\
     (exists newer older,
         new = (newer ++ SetState p s :: older)%list /\
         Forall (fun o => is_set o = false) newer) /\
     (p <> s \/ (state_ (ut w) = kGo /\ s = kGo))).

(** [hush w w']: on a started object, a step that is quiet but for what
    [quiet] says of a multi-transition in progress, and keeps the
    registry in order. *)
Definition hush (w w' : World) : Prop :=
  thread_exists (ut w) = true ->
  thread_ (ut w') = thread_ (ut w) /\
  state_ (ut w') = state_ (ut w) /\
  prev_state_ (ut w') = prev_state_ (ut w) /\
  orderly w w' /\
  exists new, log w' = (new ++ log w)%list /\ Forall quiet_obs new.

(** ** More example worlds *)

(** An object built at time 0 and started ten seconds later with [kGo]
    requested at once: its first pass through [ProcState] applies [kGo].
    Then a period of 5 s is set. *)
Definition clock_late (n : nat) : TimePoint := Z.of_nat n * 1000 + 10000000000.

Definition w_late_start : World :=
  world_of (RequestState 1 1%N kGo 0
              (world_of (Start 1 1%N 7%N kOff (mkWorld (Init 0) 0 clock_late 0 [])))).
Definition w_late_go : World := world_of (ProcState 7%N [] w_late_start).
Definition w_late : World := world_of (set_cycle_wait_period 5000000000 w_late_go).

(** A thread with one listener registered before [Start], taken from
    [kInit] through [kIdle] to [kGo] by its first pass. *)
Definition w_heard : World :=
  world_of
    (ProcState 7%N [mkWake [CallRequestState 1%N kGo 0] false]
       (world_of (Start 1 1%N 7%N kOff
                    (world_of (RegisterStateChangeListener w_fresh))))).

(** [w_heard] taken into a multi-transition of one thread, with a
    request for [kIdle] slipped in. *)
Definition w_heard_multi : World :=
  run_calls [CallPrepare; CallSetPendingCount 1; CallRequestState 1%N kIdle 0]
    w_heard.

(** * More of the code *)

(** ** common/result.cpp: the rest of [Result] *)

(** [Result ()]. *)
Definition Result_default : Result := mkResult DEFAULT_ERROR_CODE None.

(** [Result::operator!=]. *)
Definition Result_neqb (a arg : Result) : bool := negb (Result_eqb a arg).

(** [Result::Append (const string&) const]. *)
Definition Append (msg : string) (r : Result) : Result :=
  match message_ r with
  | Some m =>
      if has_message r then mkResult (code_ r) (Some (m ++ ": " ++ msg))
      else mkResult (code_ r) (Some msg)
  | None => mkResult (code_ r) (Some msg)
  end.

(** [Result::Clear]: the string, when there is one, is emptied, not
    released. *)
Definition Clear (r : Result) : Result :=
  mkResult DEFAULT_ERROR_CODE
    match message_ r with
    | Some _ => Some EmptyString
    | None => None
    end.

(** ** common/time_measures.cpp *)

(** [TimePoint::AverageTimePoints]: [/=] on [int64_t] rounds towards
    zero. *)
Definition AverageTimePoints (first second : TimePoint) : TimePoint :=
  int64_wrap (Z.quot first 2 + Z.quot second 2).

(** ** Vocabulary of the further properties *)

(** Every handle in [state_change_listeners_] was given out before
    [next_state_change_listener_handle_]. *)
Definition handles_fresh (u : UThread) : Prop :=
  Forall (fun h => (h < next_state_change_listener_handle_ u)%N)
         (state_change_listeners_ u).



(** [steady w w']: from [w] to [w'] the cycle counter has not moved and
    the skipping of cycle waits has not been armed. *)
Definition steady (w w' : World) : Prop :=
  cycle_count_ (ut w') = cycle_count_ (ut w) /\
  (cycle_wait_skip_orig_state_ (ut w) = kInvalid ->
   cycle_wait_skip_orig_state_ (ut w') = kInvalid).
(** * Properties *)

(** ** Quiet steps *)

Lemma quiet_refl w : quiet w w.
Proof.
  constructor; auto. exists []. split; auto.
Qed.

Lemma quiet_trans w1 w2 w3 : quiet w1 w2 -> quiet w2 w3 -> quiet w1 w3.
Proof.
  intros [t1 s1 p1 i1 c1 [n1 [l1 f1]]] [t2 s2 p2 i2 c2 [n2 [l2 f2]]].
  constructor; try congruence; auto.
  exists (n2 ++ n1)%list. split.
  - rewrite l2, l1. now rewrite app_assoc.
  - apply Forall_app; auto.
Qed.

Section Pres.
Variable R : World -> World -> Prop.
Hypothesis R_refl : forall w, R w w.
Hypothesis R_trans : forall w1 w2 w3, R w1 w2 -> R w2 w3 -> R w1 w3.

Lemma pres_ret {A} (a : A) : pres R (ret a).
Proof. intros w. apply R_refl. Qed.

Lemma pres_get : pres R get.
Proof. intros w. apply R_refl. Qed.

Lemma pres_assert b : pres R (assert b).
Proof. intros w. unfold assert. destruct b; apply R_refl. Qed.

Lemma pres_park {A} c : pres R (@park A c).
Proof. intros w. apply R_refl. Qed.

Lemma pres_out_of_fuel {A} : pres R (@out_of_fuel A).
Proof. intros w. apply R_refl. Qed.

Lemma pres_bind {A B} (m : M A) (k : A -> M B) :
  pres R m -> (forall a, pres R (k a)) -> pres R (bind m k).
Proof.
  intros Hm Hk w. unfold bind. specialize (Hm w).
  destruct (m w) as [a w'| | |]; auto.
  eapply R_trans; [exact Hm | apply Hk].
Qed.

Lemma pres_when b (m : M unit) : pres R m -> pres R (when b m).
Proof. intros H. destruct b; [exact H | apply pres_ret]. Qed.

Lemma presT_ret {A} (a : A) env : presT R (retT a) env.
Proof. intros w. apply R_refl. Qed.

Lemma presT_out_of_fuel {A} env : presT R (@out_of_fuelT A) env.
Proof. intros w. apply R_refl. Qed.

Lemma presT_bindM {A B} (m : M A) (k : A -> MT B) env :
  pres R m -> (forall a, presT R (k a) env) -> presT R (bindM m k) env.
Proof.
  intros Hm Hk w. unfold bindM. specialize (Hm w).
  destruct (m w) as [a w'| | |]; auto.
  eapply R_trans; [exact Hm | apply Hk].
Qed.

Lemma presT_bindT {A B} (m : MT A) (k : A -> MT B) env :
  presT R m env -> (forall a env', presT R (k a) env') -> presT R (bindT m k) env.
Proof.
  intros Hm Hk w. unfold bindT. specialize (Hm w).
  destruct (m env w) as [[a env'] w'| | |]; auto.
  eapply R_trans; [exact Hm | apply Hk].
Qed.

Lemma presT_lift {A} (m : M A) env : pres R m -> presT R (lift m) env.
Proof.
  intros Hm w. unfold lift. specialize (Hm w).
  destruct (m w); auto.
Qed.
End Pres.

(** *** Every call other threads can make is quiet *)

Lemma quiet_emit o : quiet_obs o -> pres quiet (emit o).
Proof.
  intros H w. constructor; auto. exists [o]. split; auto.
Qed.

Lemma quiet_modify (f : UThread -> UThread) :
  (forall u,
      thread_ (f u) = thread_ u /\ state_ (f u) = state_ u
      /\ prev_state_ (f u) = prev_state_ u
      /\ (in_progress (set_state_multiple_info_ u) = true ->
          in_progress (set_state_multiple_info_ (f u)) = true)) ->
  pres quiet (modify f).
Proof.
  intros H w. destruct (H (ut w)) as (a & b & c & d).
  constructor; auto. exists []. split; auto.
Qed.

Lemma quiet_Now : pres quiet Now.
Proof.
  intros w. constructor; auto. exists []. split; auto.
Qed.

Create HintDb quiet.

#[local] Hint Resolve quiet_Now : quiet.

Ltac quiet_modify_tac :=
  apply quiet_modify; intros; repeat split; auto.

(** Goes through a program built from the operations above. *)
Ltac quiet_tac :=
  repeat
    (intros;
     first
       [ apply (pres_ret quiet quiet_refl)
       | apply (pres_get quiet quiet_refl)
       | apply (pres_assert quiet quiet_refl)
       | apply (pres_park quiet quiet_refl)
       | apply (pres_out_of_fuel quiet quiet_refl)
       | apply quiet_emit; exact I
       | quiet_modify_tac
       | solve [ auto with quiet ]
       | apply (pres_when quiet quiet_refl)
       | apply (pres_bind quiet quiet_trans)
       | match goal with
         | |- pres quiet (if ?b then _ else _) => destruct b
         | |- pres quiet (match ?x with _ => _ end) => destruct x
         end ]).

Lemma quiet_JoinInternal : pres quiet JoinInternal.
Proof. unfold JoinInternal. quiet_tac. Qed.
#[local] Hint Resolve quiet_JoinInternal : quiet.

Lemma quiet_Prepare : pres quiet RequestStateMultiple_Prepare.
Proof. unfold RequestStateMultiple_Prepare. quiet_tac. Qed.

Lemma quiet_set_cycle_wait_type t : pres quiet (set_cycle_wait_type t).
Proof. unfold set_cycle_wait_type. quiet_tac. Qed.

Lemma quiet_set_cycle_wait_period p : pres quiet (set_cycle_wait_period p).
Proof. unfold set_cycle_wait_period. quiet_tac. Qed.

Lemma quiet_StateCondWaitUntil_enter c t : pres quiet (StateCondWaitUntil_enter c t).
Proof. unfold StateCondWaitUntil_enter. quiet_tac. Qed.
#[local] Hint Resolve quiet_StateCondWaitUntil_enter : quiet.

Lemma quiet_StateCondWaitUntil_leave b : pres quiet (StateCondWaitUntil_leave b).
Proof. unfold StateCondWaitUntil_leave. quiet_tac. Qed.
#[local] Hint Resolve quiet_StateCondWaitUntil_leave : quiet.

Lemma quiet_StateCondWaitFor_enter c d : pres quiet (StateCondWaitFor_enter c d).
Proof. unfold StateCondWaitFor_enter. quiet_tac. Qed.
#[local] Hint Resolve quiet_StateCondWaitFor_enter : quiet.

Lemma quiet_StateCondWait_enter c : pres quiet (StateCondWait_enter c).
Proof. unfold StateCondWait_enter. quiet_tac. Qed.
#[local] Hint Resolve quiet_StateCondWait_enter : quiet.

Lemma quiet_StateWaitFor_done : pres quiet StateWaitFor_done.
Proof. unfold StateWaitFor_done. quiet_tac. Qed.
#[local] Hint Resolve quiet_StateWaitFor_done : quiet.

Lemma quiet_StateWaitFor_loop fuel s t : pres quiet (StateWaitFor_loop fuel s t).
Proof.
  induction fuel as [|fuel IH]; cbn [StateWaitFor_loop]; quiet_tac.
Qed.
#[local] Hint Resolve quiet_StateWaitFor_loop : quiet.

Lemma quiet_StateWaitFor fuel me s t : pres quiet (StateWaitFor fuel me s t).
Proof. unfold StateWaitFor. quiet_tac. Qed.
#[local] Hint Resolve quiet_StateWaitFor : quiet.

Lemma quiet_StateWait fuel me s : pres quiet (StateWait fuel me s).
Proof. unfold StateWait. quiet_tac. Qed.
#[local] Hint Resolve quiet_StateWait : quiet.

Lemma quiet_Unpause : pres quiet Unpause.
Proof. unfold Unpause. quiet_tac. Qed.
#[local] Hint Resolve quiet_Unpause : quiet.

Lemma quiet_Pause : pres quiet Pause.
Proof. unfold Pause. quiet_tac. Qed.

Lemma quiet_RequestState_loop fuel me s t r :
  pres quiet (RequestState_loop fuel me s t r).
Proof.
  revert r. induction fuel as [|fuel IH]; intros r; cbn [RequestState_loop]; quiet_tac.
Qed.
#[local] Hint Resolve quiet_RequestState_loop : quiet.

Lemma quiet_RequestState_submit fuel me s t :
  pres quiet (RequestState_submit fuel me s t).
Proof. unfold RequestState_submit. quiet_tac. Qed.
#[local] Hint Resolve quiet_RequestState_submit : quiet.

Lemma quiet_RequestState_locked fuel me s t :
  pres quiet (RequestState_locked fuel me s t).
Proof. unfold RequestState_locked. quiet_tac. Qed.
#[local] Hint Resolve quiet_RequestState_locked : quiet.

Lemma quiet_RequestState fuel me s t : pres quiet (RequestState fuel me s t).
Proof. unfold RequestState. quiet_tac. Qed.
#[local] Hint Resolve quiet_RequestState : quiet.

Lemma quiet_RequestState_b fuel me s b : pres quiet (RequestState_b fuel me s b).
Proof. unfold RequestState_b. quiet_tac. Qed.
#[local] Hint Resolve quiet_RequestState_b : quiet.

Lemma quiet_Exit fuel me b : pres quiet (Exit fuel me b).
Proof. unfold Exit. quiet_tac. Qed.

Lemma quiet_Register : pres quiet RegisterStateChangeListener.
Proof. unfold RegisterStateChangeListener. quiet_tac. Qed.

Lemma quiet_Unregister h : pres quiet (UnregisterStateChangeListener h).
Proof. unfold UnregisterStateChangeListener. quiet_tac. Qed.

Lemma quiet_RunNCycles n b : pres quiet (RunNCycles n b).
Proof. unfold RunNCycles. quiet_tac. Qed.

(** [Start] does nothing once the thread object exists. *)
Lemma Start_started fuel me t b w :
  thread_exists (ut w) = true ->
  Start fuel me t b w
  = Ret (Prepend "UThread has already been started" STATE_ALREADY_EFFECTIVE) w.
Proof.
  intros H. unfold Start, bind, get. now rewrite H.
Qed.

Lemma quiet_ext_apply c w :
  thread_exists (ut w) = true -> quiet w (ext_apply c w).
Proof.
  intros H. destruct c; cbn [ext_apply].
  - apply quiet_RequestState.
  - apply quiet_RequestState_loop.
  - apply quiet_StateWaitFor.
  - apply quiet_StateCondWaitUntil_leave.
  - apply quiet_Exit.
  - rewrite Start_started by exact H. apply quiet_refl.
  - apply quiet_Pause.
  - apply quiet_Unpause.
  - apply quiet_set_cycle_wait_type.
  - apply quiet_set_cycle_wait_period.
  - apply quiet_Register.
  - apply quiet_Unregister.
  - apply quiet_RunNCycles.
  - destruct (is_available (ut w)); [apply quiet_Prepare | apply quiet_refl].
  - constructor; auto. exists []. split; auto.
  - constructor; auto. exists []. split; auto.
Qed.

Lemma quiet_thread_exists w w' :
  quiet w w' -> thread_exists (ut w) = true -> thread_exists (ut w') = true.
Proof.
  intros Q H. unfold thread_exists in *. now rewrite (q_thread _ _ Q).
Qed.

Lemma quiet_run_calls cs w :
  thread_exists (ut w) = true -> quiet w (run_calls cs w).
Proof.
  revert w. induction cs as [|c cs IH]; intros w H; cbn [run_calls fold_left].
  - apply quiet_refl.
  - eapply quiet_trans.
    + apply quiet_ext_apply, H.
    + apply IH. eapply quiet_thread_exists; [apply quiet_ext_apply, H | exact H].
Qed.

(** *** The waits of the managed thread are calm *)

Lemma calm_refl w : calm w w.
Proof. intros _. apply quiet_refl. Qed.

Lemma calm_trans w1 w2 w3 : calm w1 w2 -> calm w2 w3 -> calm w1 w3.
Proof.
  intros H12 H23 H. eapply quiet_trans; [apply H12, H|].
  apply H23. eapply quiet_thread_exists; [apply H12, H | exact H].
Qed.

Lemma calm_of_quiet {A} (m : M A) : pres quiet m -> pres calm m.
Proof. intros H w _. apply H. Qed.

Lemma calm_StateCondWaitUntil {A} c t (k_now k_woken : Result -> MT A) env :
  (forall r, presT calm (k_now r) env) ->
  (forall e env' r, env = e :: env' -> presT calm (k_woken r) env') ->
  presT calm (StateCondWaitUntil c t k_now k_woken) env.
Proof.
  intros Hnow Hwoken w. unfold StateCondWaitUntil.
  pose proof (calm_of_quiet _ (quiet_StateCondWaitUntil_enter c t) w) as He.
  destruct (StateCondWaitUntil_enter c t w) as [r w1|c1 w1|w1|w1]; cbn in He; auto.
  - eapply calm_trans; [exact He | apply Hnow].
  - destruct env as [|e env']; cbv beta iota zeta; auto.
    assert (Hc : calm w1 (run_calls (during e) w1))
      by (intros H; now apply quiet_run_calls).
    match goal with
    | |- calm _ (world_of (match StateCondWaitUntil_leave ?b ?w2 with _ => _ end)) =>
        pose proof (calm_of_quiet _ (quiet_StateCondWaitUntil_leave b) w2) as Hl;
        destruct (StateCondWaitUntil_leave b w2) as [r w3|c3 w3|w3|w3];
        cbn in Hl |- *
    end.
    + eapply calm_trans; [exact He|]. eapply calm_trans; [exact Hc|].
      eapply calm_trans; [exact Hl|]. now apply (Hwoken e env' r).
    + eapply calm_trans; [exact He|]. eapply calm_trans; [exact Hc|]. exact Hl.
    + eapply calm_trans; [exact He|]. eapply calm_trans; [exact Hc|]. exact Hl.
    + eapply calm_trans; [exact He|]. eapply calm_trans; [exact Hc|]. exact Hl.
Qed.

Lemma calm_StateCondWait {A} c (k_now k_woken : MT A) env :
  presT calm k_now env ->
  (forall e env', env = e :: env' -> presT calm k_woken env') ->
  presT calm (StateCondWait c k_now k_woken) env.
Proof.
  intros. unfold StateCondWait. apply calm_StateCondWaitUntil; eauto.
Qed.

Lemma calm_StateCondWaitFor {A} c d (k_now k_woken : Result -> MT A) env :
  (forall r, presT calm (k_now r) env) ->
  (forall e env' r, env = e :: env' -> presT calm (k_woken r) env') ->
  presT calm (StateCondWaitFor c d k_now k_woken) env.
Proof.
  intros Hnow Hwoken. unfold StateCondWaitFor.
  destruct (0 =? d); [apply Hnow|].
  destruct (Duration_Min =? d); [now apply calm_StateCondWaitUntil|].
  apply (presT_bindM calm calm_trans).
  - apply calm_of_quiet, quiet_Now.
  - intros now. now apply calm_StateCondWaitUntil.
Qed.

(** Goes through a program of the managed thread. *)
Ltac calm_tac :=
  repeat
    (intros;
     first
       [ apply (presT_ret calm calm_refl)
       | apply (presT_out_of_fuel calm calm_refl)
       | solve [ eauto ]
       | apply (presT_lift calm); apply calm_of_quiet; solve [ quiet_tac ]
       | apply (presT_bindM calm calm_trans);
         [ apply calm_of_quiet; solve [ quiet_tac ] | ]
       | apply calm_StateCondWait
       | apply calm_StateCondWaitFor
       | solve [ auto with calm ]
       | apply (presT_bindT calm calm_trans)
       | match goal with
         | |- presT calm (if ?b then _ else _) _ => destruct b
         | |- presT calm (match ?x with _ => _ end) _ => destruct x
         | |- presT calm (whenT ?b _) _ => destruct b; cbn [whenT]
         end ]).

Create HintDb calm.

Lemma calm_ConsiderPause_locked env : presT calm ConsiderPause_locked env.
Proof. unfold ConsiderPause_locked. calm_tac. Qed.
#[local] Hint Resolve calm_ConsiderPause_locked : calm.

Lemma calm_Sleep me d env : presT calm (Sleep me d) env.
Proof. unfold Sleep. calm_tac. Qed.

Lemma calm_ProcState_skip env : presT calm ProcState_skip env.
Proof. unfold ProcState_skip. calm_tac. Qed.
#[local] Hint Resolve calm_ProcState_skip : calm.

Lemma quiet_cycle_sleep_period sp : pres quiet (cycle_sleep_period sp).
Proof. unfold cycle_sleep_period. quiet_tac. Qed.
#[local] Hint Resolve quiet_cycle_sleep_period : quiet.

Lemma quiet_cycle_wait_signalled : pres quiet cycle_wait_signalled.
Proof. unfold cycle_wait_signalled. quiet_tac. Qed.
#[local] Hint Resolve quiet_cycle_wait_signalled : quiet.

Lemma calm_cycle_wait_expired env : presT calm cycle_wait_expired env.
Proof. unfold cycle_wait_expired. calm_tac. Qed.
#[local] Hint Resolve calm_cycle_wait_expired : calm.

Lemma calm_cycle_wait_round again sp env :
  (forall e env' sp', env = e :: env' -> presT calm (again sp') env') ->
  presT calm (cycle_wait_round again sp) env.
Proof. intros Hagain. unfold cycle_wait_round. calm_tac. Qed.

Lemma calm_cycle_wait_loop env : forall sp,
  presT calm (fun env w => cycle_wait_loop env sp w) env.
Proof.
  induction env as [|e env IH]; intros sp w;
    cbn [cycle_wait_loop]; apply calm_cycle_wait_round;
    intros e' env' sp' Heq; inversion Heq; subst; apply IH.
Qed.
#[local] Hint Resolve calm_cycle_wait_loop : calm.

Lemma calm_ProcState_cycle_wait env : presT calm ProcState_cycle_wait env.
Proof. unfold ProcState_cycle_wait. calm_tac. Qed.
#[local] Hint Resolve calm_ProcState_cycle_wait : calm.

(** ** The moves of [state_] *)

Lemma quiet_obs_not_set o : quiet_obs o -> is_set o = false.
Proof. destruct o; cbn; tauto. Qed.

Lemma quiet_obs_not_listener o : quiet_obs o -> is_listener o = false.
Proof. destruct o; cbn; tauto. Qed.

Lemma quiet_obs_not_idle o : quiet_obs o -> sets_idle o = false.
Proof. destruct o; cbn; tauto. Qed.

Lemma moves_quiet s new : Forall quiet_obs new -> moves s new s.
Proof.
  induction 1 as [|o l Ho Hl IH]; [constructor|].
  apply moves_other; [exact IH | now apply quiet_obs_not_set].
Qed.

Lemma moves_app s l1 s1 l2 s2 :
  moves s l1 s1 -> moves s1 l2 s2 -> moves s (l2 ++ l1) s2.
Proof.
  intros H1 H2. induction H2; cbn [app]; auto.
  - now apply moves_other; auto.
  - now apply moves_set; auto.
Qed.

(** Once [kExiting], only [kExited] can follow; [kExited] is final. *)
Lemma moves_from_exiting s new s' :
  moves s new s' -> s = kExiting -> s' = kExiting \/ s' = kExited.
Proof.
  induction 1 as [s|s l s' o H IH Ho|s l p n H IH He]; intros E; auto.
  destruct He as [He|He]; [subst p; auto|].
  destruct (IH E) as [Hp|Hp]; subst p; destruct n; cbn in He; auto; discriminate.
Qed.

Lemma moves_from_exited s new s' : moves s new s' -> s = kExited -> s' = kExited.
Proof.
  induction 1 as [s|s l s' o H IH Ho|s l p n H IH He]; intros E; auto.
  destruct He as [He|He]; [subst p; auto|].
  rewrite (IH E) in He. destruct n; discriminate.
Qed.

(** *** A wait of the managed thread, case by case *)

Lemma StateCondWaitUntil_enter_started c t w :
  thread_exists (ut w) = true ->
  exists w1, StateCondWaitUntil_enter c t w = Parked c w1 /\ quiet w w1.
Proof.
  intros H. pose proof (quiet_StateCondWaitUntil_enter c t w) as Q.
  unfold StateCondWaitUntil_enter, bind, get in *. rewrite H in *.
  cbn in *. eexists. split; [reflexivity | exact Q].
Qed.

Lemma StateCondWaitUntil_leave_ret b w :
  exists r w', StateCondWaitUntil_leave b w = Ret r w' /\ quiet w w'.
Proof.
  pose proof (quiet_StateCondWaitUntil_leave b w) as Q.
  unfold StateCondWaitUntil_leave, bind, get, modify, when, emit, ret in *.
  cbn in *.
  destruct ((kExited ==s _) && _); destruct b; cbn in *;
    eexists; eexists; (split; [reflexivity | exact Q]).
Qed.

Lemma StateCondWaitUntil_started {A} c t (k_now k_woken : Result -> MT A) env w :
  thread_exists (ut w) = true ->
  (env = [] /\
   exists w1, quiet w w1 /\ StateCondWaitUntil c t k_now k_woken env w = Parked c w1)
  \/ (exists e env' r w2,
        env = e :: env' /\ quiet w w2 /\
        StateCondWaitUntil c t k_now k_woken env w = k_woken r env' w2).
Proof.
  intros H. unfold StateCondWaitUntil.
  destruct (StateCondWaitUntil_enter_started c t w H) as (w1 & -> & Q1).
  destruct env as [|e env'].
  - left. split; [reflexivity|]. now exists w1.
  - right. cbv zeta.
    match goal with
    | |- context [StateCondWaitUntil_leave ?b ?w2] =>
        destruct (StateCondWaitUntil_leave_ret b w2) as (r & w3 & -> & Q3)
    end.
    exists e, env', r, w3. split; [reflexivity|]. split; [|reflexivity].
    eapply quiet_trans; [exact Q1|]. eapply quiet_trans; [|exact Q3].
    apply quiet_run_calls. eapply quiet_thread_exists; eauto.
Qed.

(** A step that does not wait, followed by the rest. *)
Lemma bindM_cases {A B} (m : M A) (k : A -> MT B) env w :
  pres quiet m ->
  (exists a w1, quiet w w1 /\ bindM m k env w = k a env w1)
  \/ (quiet w (world_of (bindM m k env w)) /\
      forall x w', bindM m k env w <> Ret x w').
Proof.
  intros Hm. specialize (Hm w). unfold bindM.
  destruct (m w) as [a w1|c w1|w1|w1]; cbn in Hm.
  - left. now exists a, w1.
  - right. split; [exact Hm | discriminate].
  - right. split; [exact Hm | discriminate].
  - right. split; [exact Hm | discriminate].
Qed.

(** *** The loop over [requested_state_] *)

Lemma quiet_idle_woken : pres quiet idle_woken.
Proof. unfold idle_woken. quiet_tac. Qed.

(** Opens a world up into the values of its fields. *)
Ltac open_world w :=
  let u := fresh "u" in
  destruct w as [u pend clk reads lg];
  destruct u as [thr ccount st req prv sorig ctype cperiod cchanged scount
                 ptime wcount tpoints between joined ppend paused nexth lsn
                 info tres dcount];
  cbn in * |-.

Ltac known_thread :=
  match goal with
  | H : thread_exists _ = true |- _ =>
      unfold thread_exists in H; cbn in H;
      match type of H with
      | match ?t with _ => _ end = true => destruct t; [clear H | discriminate H]
      end
  end.

Lemma Forall_quiet_not_listener new :
  Forall quiet_obs new -> Forall (fun o => is_listener o = false) new.
Proof. apply Forall_impl, quiet_obs_not_listener. Qed.

Lemma Forall_quiet_not_idle new :
  Forall quiet_obs new -> Forall (fun o => sets_idle o = false) new.
Proof. apply Forall_impl, quiet_obs_not_idle. Qed.

(** A round that parked in [kIdle] and ended there. *)
Lemma loop_post_stop w w1 new1 (o : Outcome (Locals * list Wake)) :
  in_progress (set_state_multiple_info_ (ut w)) = false ->
  thread_ (ut w1) = thread_ (ut w) ->
  log w1 = (new1 ++ log w)%list ->
  moves (state_ (ut w)) new1 (state_ (ut w1)) ->
  Forall (fun o => is_listener o = false) new1 ->
  live (state_ (ut w1)) = true ->
  quiet w1 (world_of o) ->
  (forall l env' w', o = Ret (l, env') w' -> handle_state_changed l = false) ->
  loop_post w o.
Proof.
  intros Hip Ht Hl Hm Hn Hlive Q Hret.
  destruct Q as [qt qs qp qi qc (newq & ql & qf)].
  split; [congruence|]. split; [congruence|].
  exists (newq ++ new1)%list. split; [now rewrite ql, Hl, app_assoc|].
  split.
  { rewrite qs. eapply moves_app; [exact Hm | now apply moves_quiet]. }
  split.
  { apply Forall_app. split; [now apply Forall_quiet_not_listener | exact Hn]. }
  split; [congruence|].
  intros l env' w' E Hh. rewrite (Hret _ _ _ E) in Hh. discriminate.
Qed.

(** A round that parked in [kIdle], was woken and went round again. *)
Lemma loop_post_park w w1 w3 new1 (o : Outcome (Locals * list Wake)) :
  in_progress (set_state_multiple_info_ (ut w)) = false ->
  thread_ (ut w1) = thread_ (ut w) ->
  log w1 = (new1 ++ log w)%list ->
  moves (state_ (ut w)) new1 (state_ (ut w1)) ->
  Forall (fun o => is_listener o = false) new1 ->
  quiet w1 w3 ->
  loop_post w3 o ->
  loop_post w o.
Proof.
  intros Hip Ht Hl Hm Hn Q (Pt & Plive & new3 & Pl & Pm & Pn & _ & Ph).
  destruct Q as [qt qs qp qi qc (newq & ql & qf)].
  split; [congruence|]. split; [exact Plive|].
  exists (new3 ++ newq ++ new1)%list.
  split; [now rewrite Pl, ql, Hl, !app_assoc|].
  split.
  { eapply moves_app; [|exact Pm]. rewrite qs.
    eapply moves_app; [exact Hm | now apply moves_quiet]. }
  split.
  { repeat (apply Forall_app; split); auto using Forall_quiet_not_listener. }
  split; [congruence|].
  intros l env' w' E Hh. apply Exists_app. left. eapply Ph; eauto.
Qed.

(** Closes the goals about explicit log entries. *)
Ltac moves_tac st :=
  repeat first
    [ apply moves_nil
    | apply moves_other; [| reflexivity]
    | apply moves_set; [| destruct st; cbn in *; try discriminate; solve [auto] ] ].

Ltac post_tac st new :=
  split; [reflexivity|];
  split; [cbn; destruct st; try discriminate; reflexivity |];
  exists new; cbn;
  split; [reflexivity|];
  split; [moves_tac st|];
  split; [repeat constructor|];
  split; [intros; try discriminate; repeat constructor|];
  intros ? ? ? E Hh; inversion E; subst; cbn in Hh;
  first [discriminate | apply Exists_cons_hd; reflexivity].

Lemma state_change_round_post again l env w :
  thread_exists (ut w) = true ->
  running (state_ (ut w)) = true ->
  handle_state_changed l = false ->
  (forall e env' l' w',
      env = e :: env' -> thread_exists (ut w') = true ->
      running (state_ (ut w')) = true -> handle_state_changed l' = false ->
      loop_post w' (again l' env' w')) ->
  loop_post w (state_change_round again l env w).
Proof.
  intros Hex Hrun Hh Hagain. destruct l as [res hsc]. cbn in Hh. subst hsc.
  open_world w. known_thread.
  destruct info as [ip].
  destruct req.
  - cbn. post_tac st (@nil Obs).
  - cbn. post_tac st (@nil Obs).
  - cbn. post_tac st [SetState st kGo; NotifyAll go_ready_cond_].
  - destruct ip.
    + cbn. post_tac st [SetState st kGo; NotifyAll go_ready_cond_].
    + cbn -[StateCondWait]. unfold StateCondWait.
      match goal with
      | |- loop_post _ (StateCondWaitUntil ?c ?t ?k1 ?k2 env ?w) =>
          set (w1 := w);
          assert (Hex1 : thread_exists (ut w1) = true) by reflexivity;
          destruct (StateCondWaitUntil_started c t k1 k2 env w1 Hex1)
            as [(Henv & w2 & Q & ->) | (e & env' & r & w2 & Henv & Q & ->)];
          clear Hex1
      end.
      * eapply (loop_post_stop _ w1
                  [NotifyAll idle_ready_cond_; NotifyAll state_ready_cond_;
                   SetState st kIdle]);
          [reflexivity | reflexivity | reflexivity | moves_tac st
          | repeat constructor | reflexivity | exact Q | discriminate].
      * match goal with
        | |- loop_post _ (bindM idle_woken ?k env' w2) =>
            destruct (bindM_cases idle_woken k env' w2 quiet_idle_woken)
              as [(s & w3 & Q3 & ->) | (Q3 & Hnr)]
        end.
        -- pose proof (quiet_trans _ _ _ Q Q3) as Q13.
           destruct (negb (kInvalid ==s s)).
           ++ eapply (loop_post_park _ w1 w3
                  [NotifyAll idle_ready_cond_; NotifyAll state_ready_cond_;
                   SetState st kIdle]);
                [reflexivity | reflexivity | reflexivity | moves_tac st
                | repeat constructor | exact Q13 |].
              apply (Hagain e env'); auto.
              ** eapply quiet_thread_exists; [exact Q13 | reflexivity].
              ** now rewrite (q_state _ _ Q13).
           ++ eapply (loop_post_stop _ w1
                  [NotifyAll idle_ready_cond_; NotifyAll state_ready_cond_;
                   SetState st kIdle]);
                [reflexivity | reflexivity | reflexivity | moves_tac st
                | repeat constructor | reflexivity | exact Q13 |].
              intros l env'' w' E. inversion E. reflexivity.
        -- eapply (loop_post_stop _ w1
                  [NotifyAll idle_ready_cond_; NotifyAll state_ready_cond_;
                   SetState st kIdle]);
             [reflexivity | reflexivity | reflexivity | moves_tac st
             | repeat constructor | reflexivity
             | eapply quiet_trans; [exact Q | exact Q3] |].
           intros l env'' w' E. now apply Hnr in E.
  - cbn. post_tac st [SetState st kExiting].
  - cbn. post_tac st (@nil Obs).
Qed.

Lemma state_change_loop_post env : forall l w,
  thread_exists (ut w) = true ->
  running (state_ (ut w)) = true ->
  handle_state_changed l = false ->
  loop_post w (state_change_loop env l w).
Proof.
  induction env as [|e env IH]; intros l w Hex Hrun Hh;
    cbn [state_change_loop]; apply state_change_round_post; auto.
  - intros e env' l' w' E. discriminate E.
  - intros e' env' l' w' E. inversion E; subst. apply IH.
Qed.

(** *** The last part of a pass *)

Lemma tame_refl h w : tame h w w.
Proof. intros _. repeat split. exists []. split; auto. Qed.

Lemma tame_trans h w1 w2 w3 : tame h w1 w2 -> tame h w2 w3 -> tame h w1 w3.
Proof.
  intros H12 H23 H. destruct (H12 H) as (t1 & s1 & n1 & l1 & f1).
  assert (H2 : thread_exists (ut w2) = true) by (unfold thread_exists in *; now rewrite t1).
  destruct (H23 H2) as (t2 & s2 & n2 & l2 & f2).
  repeat split; try congruence.
  exists (n2 ++ n1)%list. split; [now rewrite l2, l1, app_assoc|].
  apply Forall_app; auto.
Qed.

Lemma tame_of_quiet h w w' : quiet w w' -> tame h w w'.
Proof.
  intros [qt qs qp qi qc (new & ql & qf)] _. repeat split; auto.
  exists new. split; auto. eapply Forall_impl; [|exact qf].
  intros o Ho. split; [now apply quiet_obs_not_set|].
  intros _. now apply quiet_obs_not_listener.
Qed.

Lemma tame_of_calm h w w' : calm w w' -> tame h w w'.
Proof. intros C H. now apply tame_of_quiet; [apply C|]. Qed.

Lemma tame_pres_quiet h {A} (m : M A) : pres quiet m -> pres (tame h) m.
Proof. intros H w. apply tame_of_quiet, H. Qed.

Lemma tame_presT_calm h {A} (m : MT A) env : presT calm m env -> presT (tame h) m env.
Proof. intros H w. apply tame_of_calm, H. Qed.

Lemma call_listeners_log s p hs : forall w0,
  let w' := fold_left (fun w h => set_log (Listener h s p :: log w) w) hs w0 in
  ut w' = ut w0 /\
  exists new, log w' = (new ++ log w0)%list /\
              Forall (fun o => is_set o = false /\ (true = false -> is_listener o = false)) new.
Proof.
  induction hs as [|h hs IH]; intros w0; cbn [fold_left].
  - split; [reflexivity|]. exists []. split; auto.
  - destruct (IH (set_log (Listener h s p :: log w0) w0)) as (a & new & c & d).
    split; [exact a|]. exists (new ++ [Listener h s p])%list.
    split; [rewrite c; cbn; now rewrite <- app_assoc|].
    apply Forall_app. split; [exact d|].
    constructor; [split; [reflexivity | discriminate] | constructor].
Qed.

Lemma tame_call_listeners : pres (tame true) call_listeners.
Proof.
  intros w _. unfold call_listeners. cbn [world_of].
  destruct (call_listeners_log (state_ (ut w)) (prev_state_ (ut w))
              (state_change_listeners_ (ut w)) w) as (a & new & c & d).
  rewrite a. repeat split. now exists new.
Qed.

Lemma tame_barrier_wait h env : presT (tame h) barrier_wait env.
Proof.
  intros w H. unfold barrier_wait. destruct env as [|e env']; cbn [world_of].
  - repeat split. exists [Sleeps go_state_ready_cond None]. split; [reflexivity|].
    constructor; [split; [reflexivity | reflexivity] | constructor].
  - match goal with |- context [run_calls ?cs ?w1] =>
      assert (Q : quiet w1 (run_calls cs w1)) by (now apply quiet_run_calls);
      destruct Q as [qt qs qp qi qc (new & ql & qf)]
    end.
    repeat split; auto.
    exists (new ++ [Sleeps go_state_ready_cond None])%list.
    split; [rewrite ql; cbn; now rewrite <- app_assoc|].
    apply Forall_app. split.
    + eapply Forall_impl; [|exact qf]. intros o Ho.
      split; [now apply quiet_obs_not_set | intros _; now apply quiet_obs_not_listener].
    + constructor; [split; [reflexivity | reflexivity] | constructor].
Qed.

Lemma tame_ProcState_barrier h env : presT (tame h) ProcState_barrier env.
Proof.
  unfold ProcState_barrier.
  apply (presT_bindM _ (tame_trans h)); [apply tame_pres_quiet, (pres_get _ quiet_refl)|].
  intros u. destruct (in_progress _); [|apply (presT_ret _ (tame_refl h))].
  apply (presT_bindM _ (tame_trans h)).
  { intros w _. cbn. repeat split. exists []. split; auto. }
  intros _. apply (presT_bindM _ (tame_trans h)).
  { intros w. apply tame_refl. }
  intros n. apply (presT_bindT _ (tame_trans h)).
  - destruct (negb (n =? 0)).
    + apply (presT_bindM _ (tame_trans h)); [apply (pres_assert _ (tame_refl h))|].
      intros _. apply tame_barrier_wait.
    + apply (presT_bindM _ (tame_trans h)).
      * apply tame_pres_quiet, quiet_emit. exact I.
      * intros _. apply (presT_ret _ (tame_refl h)).
  - intros _ env'. apply (presT_bindM _ (tame_trans h)).
    + intros w _. cbn. repeat split. exists []. split; auto.
    + intros _. apply (presT_ret _ (tame_refl h)).
Qed.

Lemma tame_ProcState_finish l env :
  presT (tame (handle_state_changed l)) (ProcState_finish l) env.
Proof.
  unfold ProcState_finish. set (h := handle_state_changed l).
  apply (presT_bindT _ (tame_trans h)); [apply tame_ProcState_barrier|].
  intros _ env1. apply (presT_bindM _ (tame_trans h)).
  { subst h. destruct (handle_state_changed l); cbn [when].
    - apply (pres_bind _ (tame_trans true)); [apply tame_call_listeners|].
      intros _. apply tame_pres_quiet. quiet_tac.
    - apply (pres_ret _ (tame_refl false)). }
  intros _. apply (presT_bindM _ (tame_trans h)).
  { apply tame_pres_quiet. quiet_tac. }
  intros _. apply (presT_bindT _ (tame_trans h)).
  - apply tame_presT_calm, calm_ConsiderPause_locked.
  - intros. apply (presT_ret _ (tame_refl h)).
Qed.

(** *** A whole pass *)

Lemma moves_no_set s new : Forall (fun o => is_set o = false) new -> moves s new s.
Proof.
  induction 1 as [|o l Ho Hl IH]; [constructor|]. now apply moves_other.
Qed.

Lemma sets_idle_is_set o : is_set o = false -> sets_idle o = false.
Proof. destruct o as [| | | p n | | | |]; cbn; auto; discriminate. Qed.

(** The loop, then the last part. *)
Lemma pass_post_loop_then_tame w (o : Outcome (Locals * list Wake)) l env1 w1 w' :
  thread_exists (ut w) = true ->
  loop_post w o -> o = Ret (l, env1) w1 ->
  tame (handle_state_changed l) w1 w' ->
  pass_post w w'.
Proof.
  intros Hex (Pt & Plive & newL & Pl & Pm & Pn & Pi & Ph) -> T. cbn [world_of] in *.
  assert (H1 : thread_exists (ut w1) = true) by (unfold thread_exists in *; now rewrite Pt).
  destruct (T H1) as (Tt & Ts & newT & Tl & Tf).
  split; [congruence|]. split; [congruence|].
  exists (newT ++ newL)%list. split; [now rewrite Tl, Pl, app_assoc|].
  split.
  { rewrite Ts. eapply moves_app; [exact Pm|]. apply moves_no_set.
    eapply Forall_impl; [|exact Tf]. now intros o [Ho _]. }
  split.
  { intros Hip. apply Forall_app. split; [|now apply Pi].
    eapply Forall_impl; [|exact Tf]. intros o [Ho _]. now apply sets_idle_is_set. }
  intros HE. apply Exists_app in HE. destruct HE as [HE|HE].
  - apply Exists_app. right. apply (Ph l env1 w1 eq_refl).
    destruct (handle_state_changed l); [reflexivity|].
    apply Exists_exists in HE. destruct HE as (o & Hin & Ho).
    rewrite Forall_forall in Tf. destruct (Tf o Hin) as [_ Hl].
    rewrite (Hl eq_refl) in Ho. discriminate.
  - apply Exists_exists in HE. destruct HE as (o & Hin & Ho).
    rewrite Forall_forall in Pn. rewrite (Pn o Hin) in Ho. discriminate.
Qed.

(** The loop did not return. *)
Lemma pass_post_loop_stopped w (o : Outcome (Locals * list Wake)) :
  loop_post w o -> pass_post w (world_of o).
Proof.
  intros (Pt & Plive & newL & Pl & Pm & Pn & Pi & Ph).
  split; [exact Pt|]. split; [exact Plive|].
  exists newL. repeat split; auto.
  intros HE. apply Exists_exists in HE. destruct HE as (o' & Hin & Ho).
  rewrite Forall_forall in Pn. rewrite (Pn o' Hin) in Ho. discriminate.
Qed.

Lemma pass_post_quiet w w' :
  live (state_ (ut w)) = true -> quiet w w' -> pass_post w w'.
Proof.
  intros Hlive [qt qs qp qi qc (new & ql & qf)].
  split; [exact qt|]. split; [congruence|].
  exists new. split; [exact ql|]. split; [rewrite qs; now apply moves_quiet|].
  split; [intros _; now apply Forall_quiet_not_idle|].
  intros HE. apply Exists_exists in HE. destruct HE as (o' & Hin & Ho).
  rewrite Forall_forall in qf. rewrite (quiet_obs_not_listener _ (qf o' Hin)) in Ho.
  discriminate.
Qed.

Lemma pass_post_after_quiet w w1 w' :
  quiet w w1 -> pass_post w1 w' -> pass_post w w'.
Proof.
  intros [qt qs qp qi qc (newq & ql & qf)] (Pt & Plive & new & Pl & Pm & Pi & Ph).
  split; [congruence|]. split; [exact Plive|].
  exists (new ++ newq)%list. split; [now rewrite Pl, ql, app_assoc|].
  split.
  { eapply moves_app; [|exact Pm]. rewrite qs. now apply moves_quiet. }
  split.
  { intros Hip. apply Forall_app. split; [now apply Pi, qi|].
    now apply Forall_quiet_not_idle. }
  intros HE. apply Exists_app in HE. apply Exists_app. destruct HE as [HE|HE]; auto.
  apply Exists_exists in HE. destruct HE as (o' & Hin & Ho).
  rewrite Forall_forall in qf. rewrite (quiet_obs_not_listener _ (qf o' Hin)) in Ho.
  discriminate.
Qed.

Lemma ProcState_apply_post env w :
  thread_exists (ut w) = true ->
  running (state_ (ut w)) = true ->
  pass_post w (world_of (ProcState_apply env w)).
Proof.
  intros Hex Hrun. unfold ProcState_apply, bindM at 1, get.
  set (first := if requested_state_ (ut w) ==s state_ (ut w) then _ else _).
  assert (HL : loop_post w (first env w)).
  { subst first. destruct (requested_state_ (ut w) ==s state_ (ut w)).
    - open_world w. known_thread. cbn. post_tac st (@nil Obs).
    - now apply state_change_loop_post. }
  unfold bindT. pose proof (pass_post_loop_stopped _ _ HL) as Hstop.
  destruct (first env w) as [[l env1] w1|c w1|w1|w1] eqn:E; cbn [world_of] in Hstop; auto.
  eapply pass_post_loop_then_tame; [exact Hex | exact HL | reflexivity |].
  apply tame_ProcState_finish.
Qed.

Lemma bindT_cases {A B} (m : MT A) (k : A -> MT B) env w :
  presT calm m env -> thread_exists (ut w) = true ->
  (exists a env1 w1, quiet w w1 /\ bindT m k env w = k a env1 w1)
  \/ (quiet w (world_of (bindT m k env w)) /\
      forall x w', bindT m k env w <> Ret x w').
Proof.
  intros Hm Hex. specialize (Hm w Hex). unfold bindT.
  destruct (m env w) as [[a env1] w1|c w1|w1|w1]; cbn in Hm.
  - left. now exists a, env1, w1.
  - right. split; [exact Hm | discriminate].
  - right. split; [exact Hm | discriminate].
  - right. split; [exact Hm | discriminate].
Qed.

(** A pass either stays quiet to its end, or reaches [ProcState_apply]
    through quiet steps. *)
Lemma ProcState_cases me env w :
  thread_exists (ut w) = true ->
  quiet w (world_of (ProcState me env w))
  \/ (exists env1 w1,
        quiet w w1 /\ state_ (ut w) <> kIdle /\ state_ (ut w) <> kExiting /\
        ProcState me env w = ProcState_apply env1 w1).
Proof.
  intros Hex. remember (ProcState me env w) as o eqn:Ho.
  unfold ProcState in Ho.
  unfold bindM at 1, get at 1 in Ho. cbv beta iota in Ho.
  rewrite Hex in Ho. unfold bindM at 1, assert at 1 in Ho. cbv beta iota in Ho.
  unfold bindM at 1, assert at 1 in Ho.
  destruct (N.eqb (thread_id (ut w)) me); [|left; subst o; apply quiet_refl].
  cbv beta iota in Ho.
  unfold bindM at 1, assert at 1 in Ho.
  destruct (kIdle ==s state_ (ut w)) eqn:Ei; [left; subst o; apply quiet_refl|].
  cbv beta iota in Ho. cbn [negb] in Ho.
  match type of Ho with
  | _ = bindM (modify ?f) ?k env w =>
      destruct (bindM_cases (modify f) k env w) as [(a & w1 & Q1 & E1)|(Q1 & _)];
        [quiet_tac | rewrite E1 in Ho; clear E1 | subst o; now left]
  end.
  assert (Hex1 := quiet_thread_exists _ _ Q1 Hex).
  destruct (kExiting ==s state_ (ut w)) eqn:Ee.
  { left. subst o. eapply quiet_trans; [exact Q1|].
    apply (presT_bindT calm calm_trans); [apply calm_ConsiderPause_locked| |exact Hex1].
    intros. apply (presT_ret calm calm_refl). }
  match type of Ho with
  | _ = bindT ProcState_skip ?k env w1 =>
      destruct (bindT_cases ProcState_skip k env w1 (calm_ProcState_skip env) Hex1)
        as [(r & env2 & w2 & Q2 & E2)|(Q2 & _)];
        [rewrite E2 in Ho; clear E2 | left; subst o; eapply quiet_trans; eauto]
  end.
  destruct r as [res|]; [left; subst o; cbn; eapply quiet_trans; eauto|].
  assert (Hex2 := quiet_thread_exists _ _ Q2 Hex1).
  match type of Ho with
  | _ = bindM (modify ?f) ?k env2 w2 =>
      destruct (bindM_cases (modify f) k env2 w2) as [(a3 & w3 & Q3 & E3)|(Q3 & _)];
        [quiet_tac | rewrite E3 in Ho; clear E3
        | left; subst o; eapply quiet_trans; [exact Q1|]; eapply quiet_trans; eauto]
  end.
  assert (Hex3 := quiet_thread_exists _ _ Q3 Hex2).
  match type of Ho with
  | _ = bindT ProcState_cycle_wait ?k env2 w3 =>
      destruct (bindT_cases ProcState_cycle_wait k env2 w3
                  (calm_ProcState_cycle_wait env2) Hex3)
        as [(r & env4 & w4 & Q4 & E4)|(Q4 & _)];
        [rewrite E4 in Ho; clear E4|]
  end.
  - assert (Q : quiet w w4).
    { eapply quiet_trans; [exact Q1|]. eapply quiet_trans; [exact Q2|].
      eapply quiet_trans; eauto. }
    destruct r as [res|]; [left; subst o; exact Q|].
    right. exists env4, w4. split; [exact Q|].
    split; [intros E; rewrite E in Ei; discriminate|].
    split; [intros E; rewrite E in Ee; discriminate | exact Ho].
  - left. subst o. eapply quiet_trans; [exact Q1|]. eapply quiet_trans; [exact Q2|].
    eapply quiet_trans; eauto.
Qed.

(** What one pass through [ProcState] does to [state_] and to the log. *)
Lemma ProcState_pass me env w :
  thread_exists (ut w) = true ->
  live (state_ (ut w)) = true ->
  pass_post w (world_of (ProcState me env w)).
Proof.
  intros Hex Hlive.
  destruct (ProcState_cases me env w Hex) as [Q|(env1 & w1 & Q & Hi & He & ->)].
  - now apply pass_post_quiet.
  - eapply pass_post_after_quiet; [exact Q|].
    apply ProcState_apply_post.
    + eapply quiet_thread_exists; eauto.
    + rewrite (q_state _ _ Q). revert Hlive Hi He.
      destruct (state_ (ut w)); cbn; congruence.
Qed.


(** ** The registry of listeners stays in order *)

Lemma orderly_refl w : orderly w w.
Proof. intros H. exact H. Qed.

Lemma orderly_trans w1 w2 w3 : orderly w1 w2 -> orderly w2 w3 -> orderly w1 w3.
Proof. intros H12 H23 H. auto. Qed.

Lemma orderly_of_ut w w' : ut w' = ut w -> orderly w w'.
Proof. intros H. unfold orderly. now rewrite H. Qed.

Lemma orderly_emit o : pres orderly (emit o).
Proof. intros w. now apply orderly_of_ut. Qed.

Lemma orderly_Now : pres orderly Now.
Proof. intros w. now apply orderly_of_ut. Qed.

Lemma orderly_modify (f : UThread -> UThread) :
  (forall u, registry_ok u -> registry_ok (f u)) ->
  pres orderly (modify f).
Proof. intros H w. exact (H (ut w)). Qed.

Create HintDb orderly.

#[local] Hint Resolve orderly_Now : orderly.

(** Goes through a program built from the operations above. *)
Ltac orderly_tac :=
  repeat
    (intros;
     first
       [ apply (pres_ret orderly orderly_refl)
       | apply (pres_get orderly orderly_refl)
       | apply (pres_assert orderly orderly_refl)
       | apply (pres_park orderly orderly_refl)
       | apply (pres_out_of_fuel orderly orderly_refl)
       | apply orderly_emit
       | apply orderly_modify; intros ? ?; assumption
       | solve [ auto with orderly ]
       | apply (pres_when orderly orderly_refl)
       | apply (pres_bind orderly orderly_trans)
       | match goal with
         | |- pres orderly (if ?b then _ else _) => destruct b
         | |- pres orderly (match ?x with _ => _ end) => destruct x
         end ]).

Lemma orderly_SetStateInternal s : pres orderly (SetStateInternal s).
Proof. unfold SetStateInternal. orderly_tac. Qed.
#[local] Hint Resolve orderly_SetStateInternal : orderly.

Lemma orderly_JoinInternal : pres orderly JoinInternal.
Proof. unfold JoinInternal. orderly_tac. Qed.
#[local] Hint Resolve orderly_JoinInternal : orderly.

Lemma orderly_Prepare : pres orderly RequestStateMultiple_Prepare.
Proof. unfold RequestStateMultiple_Prepare. orderly_tac. Qed.

Lemma orderly_set_cycle_wait_type t : pres orderly (set_cycle_wait_type t).
Proof. unfold set_cycle_wait_type. orderly_tac. Qed.

Lemma orderly_set_cycle_wait_period p : pres orderly (set_cycle_wait_period p).
Proof. unfold set_cycle_wait_period. orderly_tac. Qed.

Lemma orderly_StateCondWaitUntil_enter c t : pres orderly (StateCondWaitUntil_enter c t).
Proof. unfold StateCondWaitUntil_enter. orderly_tac. Qed.
#[local] Hint Resolve orderly_StateCondWaitUntil_enter : orderly.

Lemma orderly_StateCondWaitUntil_leave b : pres orderly (StateCondWaitUntil_leave b).
Proof. unfold StateCondWaitUntil_leave. orderly_tac. Qed.
#[local] Hint Resolve orderly_StateCondWaitUntil_leave : orderly.

Lemma orderly_StateCondWaitFor_enter c d : pres orderly (StateCondWaitFor_enter c d).
Proof. unfold StateCondWaitFor_enter. orderly_tac. Qed.
#[local] Hint Resolve orderly_StateCondWaitFor_enter : orderly.

Lemma orderly_StateCondWait_enter c : pres orderly (StateCondWait_enter c).
Proof. unfold StateCondWait_enter. orderly_tac. Qed.
#[local] Hint Resolve orderly_StateCondWait_enter : orderly.

Lemma orderly_StateWaitFor_done : pres orderly StateWaitFor_done.
Proof. unfold StateWaitFor_done. orderly_tac. Qed.
#[local] Hint Resolve orderly_StateWaitFor_done : orderly.

Lemma orderly_StateWaitFor_loop fuel s t : pres orderly (StateWaitFor_loop fuel s t).
Proof.
  induction fuel as [|fuel IH]; cbn [StateWaitFor_loop]; orderly_tac.
Qed.
#[local] Hint Resolve orderly_StateWaitFor_loop : orderly.

Lemma orderly_StateWaitFor fuel me s t : pres orderly (StateWaitFor fuel me s t).
Proof. unfold StateWaitFor. orderly_tac. Qed.
#[local] Hint Resolve orderly_StateWaitFor : orderly.

Lemma orderly_StateWait fuel me s : pres orderly (StateWait fuel me s).
Proof. unfold StateWait. orderly_tac. Qed.
#[local] Hint Resolve orderly_StateWait : orderly.

Lemma orderly_Unpause : pres orderly Unpause.
Proof. unfold Unpause. orderly_tac. Qed.

Lemma orderly_Pause : pres orderly Pause.
Proof. unfold Pause. orderly_tac. Qed.

Lemma orderly_RequestState_loop fuel me s t r :
  pres orderly (RequestState_loop fuel me s t r).
Proof.
  revert r. induction fuel as [|fuel IH]; intros r; cbn [RequestState_loop];
    orderly_tac.
Qed.
#[local] Hint Resolve orderly_RequestState_loop : orderly.

Lemma orderly_RequestState_submit fuel me s t :
  pres orderly (RequestState_submit fuel me s t).
Proof. unfold RequestState_submit. orderly_tac. Qed.
#[local] Hint Resolve orderly_RequestState_submit : orderly.

Lemma orderly_RequestState_locked fuel me s t :
  pres orderly (RequestState_locked fuel me s t).
Proof. unfold RequestState_locked. orderly_tac. Qed.
#[local] Hint Resolve orderly_RequestState_locked : orderly.

Lemma orderly_RequestState fuel me s t : pres orderly (RequestState fuel me s t).
Proof. unfold RequestState. orderly_tac. Qed.
#[local] Hint Resolve orderly_RequestState : orderly.

Lemma orderly_RequestState_b fuel me s b : pres orderly (RequestState_b fuel me s b).
Proof. unfold RequestState_b. orderly_tac. Qed.
#[local] Hint Resolve orderly_RequestState_b : orderly.

Lemma orderly_Exit fuel me b : pres orderly (Exit fuel me b).
Proof. unfold Exit. orderly_tac. Qed.

Lemma orderly_InitThread fuel me t b : pres orderly (InitThread fuel me t b).
Proof. unfold InitThread. orderly_tac. Qed.
#[local] Hint Resolve orderly_InitThread : orderly.

Lemma orderly_Start fuel me t b : pres orderly (Start fuel me t b).
Proof. unfold Start. orderly_tac. Qed.

Lemma orderly_Register : pres orderly RegisterStateChangeListener.
Proof.
  intros w [Hn Hf]. unfold RegisterStateChangeListener, bind, get, modify, ret.
  cbn. split.
  - constructor; [|exact Hn]. intros Hin. rewrite Forall_forall in Hf.
    apply Hf in Hin. now apply N.lt_irrefl in Hin.
  - constructor; [apply N.lt_succ_diag_r|].
    eapply Forall_impl; [|exact Hf]. intros h Hh. cbn in Hh |- *.
    now apply N.lt_lt_succ_r.
Qed.

Lemma orderly_Unregister h : pres orderly (UnregisterStateChangeListener h).
Proof.
  intros w [Hn Hf]. unfold UnregisterStateChangeListener, bind, get, modify, ret.
  destruct (existsb (N.eqb h) (state_change_listeners_ (ut w))); [|now split].
  cbn. split.
  - now apply NoDup_filter.
  - rewrite Forall_forall in *. intros x Hx. apply filter_In in Hx. now apply Hf.
Qed.

Lemma orderly_RunNCycles n b : pres orderly (RunNCycles n b).
Proof. unfold RunNCycles. orderly_tac. Qed.

Lemma orderly_ext_apply c w : orderly w (ext_apply c w).
Proof.
  destruct c; cbn [ext_apply].
  - apply orderly_RequestState.
  - apply orderly_RequestState_loop.
  - apply orderly_StateWaitFor.
  - apply orderly_StateCondWaitUntil_leave.
  - apply orderly_Exit.
  - apply orderly_Start.
  - apply orderly_Pause.
  - apply orderly_Unpause.
  - apply orderly_set_cycle_wait_type.
  - apply orderly_set_cycle_wait_period.
  - apply orderly_Register.
  - apply orderly_Unregister.
  - apply orderly_RunNCycles.
  - destruct (is_available (ut w)); [apply orderly_Prepare | apply orderly_refl].
  - now apply orderly_of_ut.
  - now apply orderly_of_ut.
Qed.

Lemma orderly_run_calls cs : forall w, orderly w (run_calls cs w).
Proof.
  induction cs as [|c cs IH]; intros w; cbn [run_calls fold_left].
  - apply orderly_refl.
  - eapply orderly_trans; [apply orderly_ext_apply | apply IH].
Qed.

(** *** The programs of the managed thread *)

Lemma orderly_StateCondWaitUntil {A} c t (k_now k_woken : Result -> MT A) env :
  (forall r, presT orderly (k_now r) env) ->
  (forall e env' r, env = e :: env' -> presT orderly (k_woken r) env') ->
  presT orderly (StateCondWaitUntil c t k_now k_woken) env.
Proof.
  intros Hnow Hwoken w. unfold StateCondWaitUntil.
  pose proof (orderly_StateCondWaitUntil_enter c t w) as He.
  destruct (StateCondWaitUntil_enter c t w) as [r w1|c1 w1|w1|w1]; cbn in He; auto.
  - eapply orderly_trans; [exact He | apply Hnow].
  - destruct env as [|e env']; cbv beta iota zeta; auto.
    pose proof (orderly_run_calls (during e) w1) as Hc.
    match goal with
    | |- orderly _ (world_of (match StateCondWaitUntil_leave ?b ?w2 with _ => _ end)) =>
        pose proof (orderly_StateCondWaitUntil_leave b w2) as Hl;
        destruct (StateCondWaitUntil_leave b w2) as [r w3|c3 w3|w3|w3];
        cbn in Hl |- *
    end.
    + eapply orderly_trans; [exact He|]. eapply orderly_trans; [exact Hc|].
      eapply orderly_trans; [exact Hl|]. now apply (Hwoken e env' r).
    + eapply orderly_trans; [exact He|]. eapply orderly_trans; [exact Hc|]. exact Hl.
    + eapply orderly_trans; [exact He|]. eapply orderly_trans; [exact Hc|]. exact Hl.
    + eapply orderly_trans; [exact He|]. eapply orderly_trans; [exact Hc|]. exact Hl.
Qed.

Lemma orderly_StateCondWait {A} c (k_now k_woken : MT A) env :
  presT orderly k_now env ->
  (forall e env', env = e :: env' -> presT orderly k_woken env') ->
  presT orderly (StateCondWait c k_now k_woken) env.
Proof.
  intros. unfold StateCondWait. apply orderly_StateCondWaitUntil; eauto.
Qed.

Lemma orderly_StateCondWaitFor {A} c d (k_now k_woken : Result -> MT A) env :
  (forall r, presT orderly (k_now r) env) ->
  (forall e env' r, env = e :: env' -> presT orderly (k_woken r) env') ->
  presT orderly (StateCondWaitFor c d k_now k_woken) env.
Proof.
  intros Hnow Hwoken. unfold StateCondWaitFor.
  destruct (0 =? d); [apply Hnow|].
  destruct (Duration_Min =? d); [now apply orderly_StateCondWaitUntil|].
  apply (presT_bindM orderly orderly_trans).
  - apply orderly_Now.
  - intros now. now apply orderly_StateCondWaitUntil.
Qed.

(** Goes through a program of the managed thread. *)
Ltac orderlyT_tac :=
  repeat
    (intros;
     first
       [ apply (presT_ret orderly orderly_refl)
       | apply (presT_out_of_fuel orderly orderly_refl)
       | solve [ eauto ]
       | apply (presT_lift orderly); solve [ orderly_tac ]
       | apply (presT_bindM orderly orderly_trans); [ solve [ orderly_tac ] | ]
       | apply orderly_StateCondWait
       | apply orderly_StateCondWaitFor
       | solve [ auto with orderlyT ]
       | apply (presT_bindT orderly orderly_trans)
       | match goal with
         | |- presT orderly (if ?b then _ else _) _ => destruct b
         | |- presT orderly (match ?x with _ => _ end) _ => destruct x
         | |- presT orderly (whenT ?b _) _ => destruct b; cbn [whenT]
         end ]).

Create HintDb orderlyT.

Lemma orderly_ConsiderPause_locked env : presT orderly ConsiderPause_locked env.
Proof. unfold ConsiderPause_locked. orderlyT_tac. Qed.
#[local] Hint Resolve orderly_ConsiderPause_locked : orderlyT.

Lemma orderly_Sleep me d env : presT orderly (Sleep me d) env.
Proof. unfold Sleep. orderlyT_tac. Qed.

Lemma orderly_ProcState_skip env : presT orderly ProcState_skip env.
Proof. unfold ProcState_skip. orderlyT_tac. Qed.
#[local] Hint Resolve orderly_ProcState_skip : orderlyT.

Lemma orderly_cycle_sleep_period sp : pres orderly (cycle_sleep_period sp).
Proof. unfold cycle_sleep_period. orderly_tac. Qed.
#[local] Hint Resolve orderly_cycle_sleep_period : orderly.

Lemma orderly_cycle_wait_signalled : pres orderly cycle_wait_signalled.
Proof. unfold cycle_wait_signalled. orderly_tac. Qed.
#[local] Hint Resolve orderly_cycle_wait_signalled : orderly.

Lemma orderly_cycle_wait_expired env : presT orderly cycle_wait_expired env.
Proof. unfold cycle_wait_expired. orderlyT_tac. Qed.
#[local] Hint Resolve orderly_cycle_wait_expired : orderlyT.

Lemma orderly_cycle_wait_round again sp env :
  (forall e env' sp', env = e :: env' -> presT orderly (again sp') env') ->
  presT orderly (cycle_wait_round again sp) env.
Proof. intros Hagain. unfold cycle_wait_round. orderlyT_tac. Qed.

Lemma orderly_cycle_wait_loop env : forall sp,
  presT orderly (fun env w => cycle_wait_loop env sp w) env.
Proof.
  induction env as [|e env IH]; intros sp w;
    cbn [cycle_wait_loop]; apply orderly_cycle_wait_round;
    intros e' env' sp' Heq; inversion Heq; subst; apply IH.
Qed.
#[local] Hint Resolve orderly_cycle_wait_loop : orderlyT.

Lemma orderly_ProcState_cycle_wait env : presT orderly ProcState_cycle_wait env.
Proof. unfold ProcState_cycle_wait. orderlyT_tac. Qed.
#[local] Hint Resolve orderly_ProcState_cycle_wait : orderlyT.

Lemma orderly_apply_go l : pres orderly (apply_go l).
Proof. unfold apply_go. orderly_tac. Qed.
#[local] Hint Resolve orderly_apply_go : orderly.

Lemma orderly_apply_exiting l : pres orderly (apply_exiting l).
Proof. unfold apply_exiting. orderly_tac. Qed.
#[local] Hint Resolve orderly_apply_exiting : orderly.

Lemma orderly_idle_woken : pres orderly idle_woken.
Proof. unfold idle_woken. orderly_tac. Qed.
#[local] Hint Resolve orderly_idle_woken : orderly.

Lemma orderly_state_change_round again l env :
  (forall e env' l', env = e :: env' -> presT orderly (again l') env') ->
  presT orderly (state_change_round again l) env.
Proof. intros Hagain. unfold state_change_round. orderlyT_tac. Qed.

Lemma orderly_state_change_loop env : forall l,
  presT orderly (fun env w => state_change_loop env l w) env.
Proof.
  induction env as [|e env IH]; intros l w;
    cbn [state_change_loop]; apply orderly_state_change_round;
    intros e' env' l' Heq; inversion Heq; subst; apply IH.
Qed.
#[local] Hint Resolve orderly_state_change_loop : orderlyT.

Lemma orderly_barrier_wait env : presT orderly barrier_wait env.
Proof.
  intros w. unfold barrier_wait. destruct env as [|e env]; cbn [world_of].
  - now apply orderly_of_ut.
  - eapply orderly_trans; [|apply orderly_run_calls]. now apply orderly_of_ut.
Qed.
#[local] Hint Resolve orderly_barrier_wait : orderlyT.

Lemma orderly_set_pending n :
  pres orderly (fun w => Ret tt (set_go_state_pending_count n w)).
Proof. intros w. now apply orderly_of_ut. Qed.

Lemma orderly_get_pending_count : pres orderly get_pending_count.
Proof. intros w. apply orderly_refl. Qed.
#[local] Hint Resolve orderly_get_pending_count : orderly.

Lemma orderly_ProcState_barrier env : presT orderly ProcState_barrier env.
Proof.
  unfold ProcState_barrier.
  apply (presT_bindM orderly orderly_trans); [orderly_tac|]. intros u.
  destruct (in_progress (set_state_multiple_info_ u)); [|orderlyT_tac].
  apply (presT_bindM orderly orderly_trans).
  { intros w. now apply orderly_of_ut. }
  orderlyT_tac.
Qed.
#[local] Hint Resolve orderly_ProcState_barrier : orderlyT.

Lemma orderly_call_listeners : pres orderly call_listeners.
Proof.
  intros w. unfold call_listeners. cbn [world_of]. apply orderly_of_ut.
  apply (call_listeners_log (state_ (ut w)) (prev_state_ (ut w))
           (state_change_listeners_ (ut w)) w).
Qed.
#[local] Hint Resolve orderly_call_listeners : orderly.

Lemma orderly_ProcState_finish l env : presT orderly (ProcState_finish l) env.
Proof. unfold ProcState_finish. orderlyT_tac. Qed.
#[local] Hint Resolve orderly_ProcState_finish : orderlyT.

Lemma orderly_ProcState_apply env : presT orderly ProcState_apply env.
Proof. unfold ProcState_apply. orderlyT_tac. Qed.
#[local] Hint Resolve orderly_ProcState_apply : orderlyT.

Lemma orderly_mainThreadFunc_exit r : pres orderly (mainThreadFunc_exit r).
Proof. unfold mainThreadFunc_exit. orderly_tac. Qed.
(** * The properties checked *)

(** ** Requests on a thread that is exiting or has exited *)

(** On a started thread in [kExiting], [RequestState] returns success
    for [kExiting], invalid-argument for [kInit] and [kExited] (they are
    refused before the state is looked at), and shutting-down for every
    other target, and changes nothing. *)
Lemma RequestState_when_exiting fuel me newstate timeout w :
  thread_exists (ut w) = true -> state_ (ut w) = kExiting ->
  exists r, RequestState fuel me newstate timeout w = Ret r w /\
    code_ r = match newstate with
              | kExiting => SUCCESS_CODE
              | kInit | kExited => INVALID_ARGUMENT_CODE
              | _ => SHUTTING_DOWN_CODE
              end.
Proof.
  intros He Hs. unfold RequestState, RequestState_unlocked, RequestState_locked,
    bind, get, ret.
  rewrite He. destruct newstate; cbn; rewrite ?Hs; cbn; eexists; split; reflexivity.
Qed.

(** The return of the thread function leaves the object in [kExited]
    without its thread. *)
Lemma mainThreadFunc_exit_returns thread_result w :
  0 <= state_ready_wait_count_ (ut w) ->
  exists w',
    mainThreadFunc_exit thread_result w = Ret tt w' /\
    state_ (ut w') = kExited /\
    thread_ (ut w') = None.
Proof.
  intros Hw. unfold mainThreadFunc_exit, call_listeners, SetStateInternal.
  assert (E : (0 <? state_ready_wait_count_ (ut w)) = false ->
              (0 =? state_ready_wait_count_ (ut w)) = true).
  { intros H. apply Z.ltb_ge in H. apply Z.eqb_eq. lia. }
  unfold bind at 1. unfold get at 1.
  destruct (0 <? state_ready_wait_count_ (ut w)) eqn:Hpos;
    [|rewrite (E eq_refl)];
    cbn -[fold_left];
    eexists; (split; [reflexivity|]); cbn -[fold_left]; split; reflexivity.
Qed.

(** C2 fails on the code.  Once the thread function has returned, the
    thread is in [kExited] and the thread object is gone, and
    [RequestState] refuses every target with not-initialised, "UThread
    has not been started", at its first test; the branch for [kExited]
    that it has behind the state lock, and that returns
    resource-unavailable, is never reached. *)
Theorem RequestState_after_exit_is_not_init thread_result fuel me newstate timeout w :
  0 <= state_ready_wait_count_ (ut w) ->
  exists w',
    mainThreadFunc_exit thread_result w = Ret tt w' /\
    state_ (ut w') = kExited /\
    RequestState fuel me newstate timeout w'
    = Ret (Prepend "UThread has not been started" NOT_INIT) w' /\
    Result_eqb RESOURCE_UNAVAILABLE
      (Prepend "UThread has not been started" NOT_INIT) = false /\
    exists r,
      RequestState_locked fuel me newstate timeout w' = Ret r w' /\
      code_ r = RESOURCE_UNAVAILABLE_CODE.
Proof.
  intros Hw.
  destruct (mainThreadFunc_exit_returns thread_result w Hw) as (w' & E & Hs & Ht).
  exists w'. split; [exact E|]. split; [exact Hs|]. split; [|split].
  - unfold RequestState, RequestState_unlocked, thread_exists, bind, get, ret.
    now rewrite Ht.
  - reflexivity.
  - unfold RequestState_locked, bind, get, ret. rewrite Hs. cbn.
    eexists. split; reflexivity.
Qed.

Lemma RequestState_after_exit_is_not_init_witness :
  exists w',
    mainThreadFunc_exit SUCCESS w_exiting = Ret tt w' /\
    state_ (ut w') = kExited /\
    RequestState 1 1%N kGo 0 w'
    = Ret (Prepend "UThread has not been started" NOT_INIT) w'.
Proof.
  destruct (RequestState_after_exit_is_not_init SUCCESS 1 1%N kGo 0 w_exiting)
    as (w' & H1 & H2 & H3 & _).
  - vm_compute. discriminate.
  - exists w'. split; [exact H1 | split; [exact H2 | exact H3]].
Defined.

(** ** Single stepping *)

(** C3, as stated, fails: on a started thread parked in [kIdle],
    [RunOneCycle] with blocking enabled does not return success. *)
Lemma RunOneCycle_idle_no_success :
  thread_exists (ut w_idle) = true /\
  state_ (ut w_idle) = kIdle /\
  RunOneCycle kOn w_idle
  = Ret (Prepend "UThread::RunNCycles()" NOT_IMPLEMENTED) w_idle /\
  is_success (Prepend "UThread::RunNCycles()" NOT_IMPLEMENTED) = false.
Proof. repeat split; vm_compute; reflexivity. Qed.

(** C3 (as amended): for every thread and either blocking option,
    [RunOneCycle] returns the not-implemented failure and leaves the
    object as it was: no request is recorded, no pass through
    [ProcState] is asked for, and a thread in [kIdle] is still in
    [kIdle]. *)
Theorem RunOneCycle_not_implemented block w :
  exists r,
    RunOneCycle block w = Ret r w /\
    code_ r = NOT_IMPLEMENTED_CODE /\ is_success r = false /\ is_error r = true.
Proof. eexists. repeat split. Qed.

(** ** Sleep *)

(** C5 fails on the code: a [Sleep] of finite length, begun with no
    request pending and cut short by a request, returns a result whose
    code is [SUCCESS_CODE] (it compares equal to [SUCCESS]), not
    [INTERRUPTED_OPERATION]. *)
Theorem Sleep_finite_interrupted_is_success :
  is_state_changing (ut w_go) = false /\
  exists w',
    Sleep 7%N 1000 [mkWake [CallRequestState 1%N kIdle 0] false] w_go
    = Ret (mkResult SUCCESS_CODE (Some "Thread sleep was interrupted"), []) w' /\
    requested_state_ (ut w') = kIdle /\
    Result_eqb SUCCESS (mkResult SUCCESS_CODE (Some "Thread sleep was interrupted"))
    = true /\
    Result_eqb INTERRUPTED_OPERATION
      (mkResult SUCCESS_CODE (Some "Thread sleep was interrupted"))
    = false.
Proof.
  split; [reflexivity|]. eexists. split; [vm_compute; reflexivity|].
  repeat split.
Qed.

(** The two cases in which [Sleep] does return
    [INTERRUPTED_OPERATION]: a state change pending when it is called,
    and the wake-up from a sleep without deadline. *)
Lemma Sleep_pending_is_interrupted me max_duration env w :
  thread_ (ut w) = Some me ->
  is_state_changing (ut w) = true ->
  exists r,
    Sleep me max_duration env w = Ret (r, env) w /\
    code_ r = INTERRUPTED_OPERATION_CODE.
Proof.
  intros Hme Hch. unfold Sleep, bindM, get, thread_exists, thread_id.
  rewrite Hme, N.eqb_refl, Hch. cbn [negb]. eexists. split; reflexivity.
Qed.

Lemma Sleep_indefinite_is_interrupted me e env w :
  thread_ (ut w) = Some me ->
  is_state_changing (ut w) = false ->
  exists w',
    Sleep me Duration_Min (e :: env) w = Ret (INTERRUPTED_OPERATION, env) w'.
Proof.
  intros Hme Hch. unfold Sleep, bindM, get, thread_exists, thread_id.
  rewrite Hme, N.eqb_refl, Hch. cbn [negb]. rewrite Z.eqb_refl.
  unfold StateCondWait.
  destruct (StateCondWaitUntil_started go_cond_ None
              (fun _ => retT INTERRUPTED_OPERATION)
              (fun _ => retT INTERRUPTED_OPERATION) (e :: env) w)
    as [[Hnil _] | (e' & env' & r & w2 & Henv & _ & ->)].
  - unfold thread_exists. now rewrite Hme.
  - discriminate.
  - injection Henv as <- <-. now exists w2.
Qed.

(** ** A blocking request from the managed thread itself *)

(** Follows the tests of a call on an opened world, splitting on every
    comparison of states and every flag it meets; [Hme] and [Ht] are
    rewritten with on the way. *)
Ltac branches Hme Ht :=
  repeat
    (cbn -[N.eqb Z.eqb State_eqb Prepend append StateToString];
     rewrite ?Hme, ?Ht;
     try match goal with
         | |- context [?a ==s ?b] => destruct (a ==s b)
         end).

(** C4, as stated, fails: the managed thread (7), in [kGo], asks for
    [kGo] with blocking enabled and gets success. *)
Lemma self_blocking_same_state_succeeds :
  is_current_thread 7%N (ut w_go) = true /\
  exists w', RequestState_b 1 7%N kGo kOn w_go = Ret SUCCESS w' /\
             Result_eqb DEADLOCK_AVERTED SUCCESS = false.
Proof.
  split; [reflexivity|]. eexists. split; [vm_compute; reflexivity | reflexivity].
Qed.

(** C4 (as amended): a [RequestState] with blocking enabled (a timeout
    other than zero) made by the managed thread itself never waits.  It
    fails with the deadlock-avoidance error, recording nothing, exactly
    when the request is one that would be recorded; otherwise it does
    what the call without blocking does (invalid argument, shutting down,
    resource unavailable, or success for the state the thread is in). *)
Theorem self_blocking_request_never_waits fuel me newstate timeout w :
  is_current_thread me (ut w) = true -> timeout <> 0 ->
  (forall c w', RequestState fuel me newstate timeout w <> Parked c w')
  /\ (forall w', RequestState fuel me newstate timeout w <> OutOfFuel w')
  /\ (would_record newstate (ut w) = false ->
      RequestState fuel me newstate timeout w = RequestState fuel me newstate 0 w)
  /\ (would_record newstate (ut w) = true -> asserts_hold (ut w) ->
      exists r w',
        RequestState fuel me newstate timeout w = Ret r w' /\
        code_ r = DEADLOCK_AVERTED_CODE /\ ut w' = ut w)
  /\ (forall r w',
        RequestState fuel me newstate 0 w = Ret r w' ->
        code_ r <> DEADLOCK_AVERTED_CODE).
Proof.
  intros Hme Ht. unfold asserts_hold. open_world w.
  apply Z.eqb_neq in Ht. rewrite Z.eqb_sym in Ht.
  unfold is_current_thread in Hme. cbn in Hme.
  destruct thr as [t|]; [|discriminate].
  unfold RequestState, RequestState_unlocked, RequestState_locked,
    RequestState_submit, Unpause, would_record, is_current_thread.
  destruct joined, paused, ppend.
  all: split; [|split; [|split; [|split]]].
  all: try (intros c w'; branches Hme Ht; discriminate).
  all: try (intros w'; branches Hme Ht; discriminate).
  all: try (branches Hme Ht; intros; try reflexivity; discriminate).
  all: try (branches Hme Ht; intros Hw [Hj Hp]; try discriminate;
      try (specialize (Hp eq_refl); discriminate);
      eexists; eexists; (split; [reflexivity | split; reflexivity])).
  all: try (intros r w'; branches Hme Ht; intros E; inversion E; subst; cbn;
            discriminate).
Qed.

Lemma self_blocking_request_never_waits_witness :
  is_current_thread 7%N (ut w_go) = true /\ (-1) <> 0 /\
  exists r w',
    RequestState 1 7%N kIdle (-1) w_go = Ret r w' /\
    code_ r = DEADLOCK_AVERTED_CODE /\ ut w' = ut w_go.
Proof.
  assert (Hme : is_current_thread 7%N (ut w_go) = true) by reflexivity.
  assert (Ht : (-1) <> 0) by lia.
  split; [exact Hme | split; [exact Ht |]].
  destruct (self_blocking_request_never_waits 1 7%N kIdle (-1) w_go Hme Ht)
    as (_ & _ & _ & H & _).
  apply H; [reflexivity | split; [reflexivity | intros; reflexivity]].
Defined.

(** ** Listeners: who is called, and how often *)

Lemma still_refl w : still w w.
Proof. split; [apply quiet_refl | apply orderly_refl]. Qed.

Lemma still_trans w1 w2 w3 : still w1 w2 -> still w2 w3 -> still w1 w3.
Proof.
  intros [Q1 O1] [Q2 O2].
  split; [eapply quiet_trans | eapply orderly_trans]; eauto.
Qed.

Lemma still_thread_exists w w' :
  still w w' -> thread_exists (ut w) = true -> thread_exists (ut w') = true.
Proof. intros [Q _]. now apply quiet_thread_exists. Qed.

(** A wait of the managed thread on a started object. *)
Lemma StateCondWaitUntil_still {A} c t (k_now k_woken : Result -> MT A) env w :
  thread_exists (ut w) = true ->
  (env = [] /\
   exists w1, still w w1 /\ StateCondWaitUntil c t k_now k_woken env w = Parked c w1)
  \/ (exists e env' r w2,
        env = e :: env' /\ still w w2 /\
        StateCondWaitUntil c t k_now k_woken env w = k_woken r env' w2).
Proof.
  intros H. unfold StateCondWaitUntil.
  pose proof (orderly_StateCondWaitUntil_enter c t w) as O1.
  destruct (StateCondWaitUntil_enter_started c t w H) as (w1 & E1 & Q1).
  rewrite E1 in O1 |- *. cbn [world_of] in O1.
  destruct env as [|e env'].
  - left. split; [reflexivity|]. exists w1. split; [now split | reflexivity].
  - right. cbv zeta.
    match goal with
    | |- context [StateCondWaitUntil_leave ?b ?w2] =>
        pose proof (orderly_StateCondWaitUntil_leave b w2) as O3;
        destruct (StateCondWaitUntil_leave_ret b w2) as (r & w3 & E3 & Q3);
        rewrite E3 in O3 |- *; cbn [world_of] in O3
    end.
    exists e, env', r, w3. split; [reflexivity|]. split; [|reflexivity].
    split.
    + eapply quiet_trans; [exact Q1|]. eapply quiet_trans; [|exact Q3].
      apply quiet_run_calls. eapply quiet_thread_exists; eauto.
    + eapply orderly_trans; [exact O1|].
      eapply orderly_trans; [apply orderly_run_calls | exact O3].
Qed.

(** A step that does not wait, followed by the rest. *)
Lemma bindM_still {A B} (m : M A) (k : A -> MT B) env w :
  pres quiet m -> pres orderly m ->
  (exists a w1, still w w1 /\ bindM m k env w = k a env w1)
  \/ (still w (world_of (bindM m k env w)) /\
      forall x w', bindM m k env w <> Ret x w').
Proof.
  intros Hq Ho. specialize (Hq w). specialize (Ho w). unfold bindM.
  destruct (m w) as [a w1|c w1|w1|w1]; cbn in Hq, Ho.
  - left. exists a, w1. split; [now split | reflexivity].
  - right. split; [now split | discriminate].
  - right. split; [now split | discriminate].
  - right. split; [now split | discriminate].
Qed.

Lemma bindT_still {A B} (m : MT A) (k : A -> MT B) env w :
  presT calm m env -> presT orderly m env -> thread_exists (ut w) = true ->
  (exists a env1 w1, still w w1 /\ bindT m k env w = k a env1 w1)
  \/ (still w (world_of (bindT m k env w)) /\
      forall x w', bindT m k env w <> Ret x w').
Proof.
  intros Hq Ho Hex. specialize (Hq w Hex). specialize (Ho w). unfold bindT.
  destruct (m env w) as [[a env1] w1|c w1|w1|w1]; cbn in Hq, Ho.
  - left. exists a, env1, w1. split; [now split | reflexivity].
  - right. split; [now split | discriminate].
  - right. split; [now split | discriminate].
  - right. split; [now split | discriminate].
Qed.

(** *** Counting the calls *)

Lemma heard_app l1 l2 : heard (l1 ++ l2) = (heard l1 ++ heard l2)%list.
Proof. apply filter_app. Qed.

Lemma heard_none new :
  Forall (fun o => is_listener o = false) new -> heard new = [].
Proof.
  induction 1 as [|o l Ho Hl IH]; [reflexivity|].
  unfold heard in *. cbn. now rewrite Ho.
Qed.

Lemma heard_quiet new : Forall quiet_obs new -> heard new = [].
Proof. intros H. now apply heard_none, Forall_quiet_not_listener. Qed.

Lemma heard_told hs s p : heard (told hs s p) = told hs s p.
Proof.
  unfold heard, told. apply forallb_filter_id.
  apply forallb_forall. intros o Ho. apply in_rev, in_map_iff in Ho.
  destruct Ho as (h & <- & _). reflexivity.
Qed.

Lemma heard_In o new : In o new -> is_listener o = true -> In o (heard new).
Proof. intros H1 H2. apply filter_In. now split. Qed.

Lemma calls_to_heard h new : calls_to h new = calls_to h (heard new).
Proof.
  unfold calls_to, heard. induction new as [|o l IH]; [reflexivity|].
  cbn. destruct o; cbn; auto.
  destruct (N.eqb h h0); cbn; now rewrite IH.
Qed.

Lemma calls_to_told h hs s p : NoDup hs -> (calls_to h (told hs s p) <= 1)%nat.
Proof.
  intros Hn. unfold calls_to, told.
  rewrite <- map_rev.
  assert (Hr : NoDup (rev hs)) by (now apply NoDup_rev).
  induction Hr as [|x l Hx Hl IH]; cbn; [lia|].
  destruct (N.eqb h x) eqn:E; cbn; [|exact IH].
  apply N.eqb_eq in E. subst x.
  assert (Z0 : filter (fun o => match o with
                                | Listener h' _ _ => N.eqb h h'
                                | _ => false
                                end) (map (fun h0 => Listener h0 s p) l) = []).
  { clear IH Hl. induction l as [|y l IH]; [reflexivity|]. cbn.
    destruct (N.eqb h y) eqn:E.
    - apply N.eqb_eq in E. subst y. exfalso. apply Hx. now left.
    - apply IH. intros Hin. apply Hx. now right. }
  rewrite Z0. cbn. lia.
Qed.

Lemma In_told h s p hs s0 p0 :
  In (Listener h s p) (told hs s0 p0) -> s = s0 /\ p = p0.
Proof.
  unfold told. intros H. apply in_rev, in_map_iff in H.
  destruct H as (h' & E & _). inversion E. now split.
Qed.

(** *** The loop over [requested_state_], for the listeners *)

Lemma loop_told_stop w (o : Outcome (Locals * list Wake)) :
  orderly w (world_of o) ->
  (forall l env' w', o = Ret (l, env') w' -> handle_state_changed l = false) ->
  loop_told w o.
Proof.
  intros O H. split; [exact O|].
  intros l env' w' E Hh. rewrite (H _ _ _ E) in Hh. discriminate.
Qed.

Lemma loop_told_park w w3 (o : Outcome (Locals * list Wake)) :
  orderly w w3 -> state_ (ut w3) = kIdle -> loop_told w3 o -> loop_told w o.
Proof.
  intros O Hs [O3 H3]. split; [eapply orderly_trans; eauto|].
  intros l env' w' E Hh. destruct (H3 l env' w' E Hh) as (a & b & c).
  split; [exact a|]. split; [exact b|]. left.
  destruct c as [c|[c _]]; [exact c|]. rewrite Hs in c. discriminate.
Qed.

(** Closes the goals about a round that applies a state and returns. *)
Ltac told_tac st :=
  split; [intros Hreg; exact Hreg
         | intros ? ? ? E Hh; inversion E; subst; cbn in *;
           first [ discriminate
                 | split; [auto|];
                   split; [eexists; reflexivity|];
                   destruct st; try discriminate; intuition congruence ] ].

Lemma state_change_round_told again l env w :
  thread_exists (ut w) = true ->
  running (state_ (ut w)) = true ->
  handle_state_changed l = false ->
  requested_state_ (ut w) <> state_ (ut w) \/ state_ (ut w) = kIdle ->
  (forall e env' l' w',
      env = e :: env' -> thread_exists (ut w') = true ->
      state_ (ut w') = kIdle -> handle_state_changed l' = false ->
      loop_told w' (again l' env' w')) ->
  loop_told w (state_change_round again l env w).
Proof.
  intros Hex Hrun Hh Hne Hagain. destruct l as [res hsc]. cbn in Hh. subst hsc.
  open_world w. known_thread.
  destruct info as [ip].
  destruct req.
  - cbn. apply loop_told_stop; [apply orderly_refl|].
    intros l env' w' E. inversion E. reflexivity.
  - cbn. apply loop_told_stop; [apply orderly_refl | discriminate].
  - cbn. told_tac st.
  - destruct ip.
    + cbn. told_tac st.
    + cbn -[StateCondWait]. unfold StateCondWait.
      match goal with
      | |- loop_told ?w0 (StateCondWaitUntil ?c ?t ?k1 ?k2 env ?w) =>
          set (w1 := w);
          assert (Hex1 : thread_exists (ut w1) = true) by reflexivity;
          assert (O01 : orderly w0 w1) by (intros Hreg; exact Hreg);
          destruct (StateCondWaitUntil_still c t k1 k2 env w1 Hex1)
            as [(Henv & w2 & Q & ->) | (e & env' & r & w2 & Henv & Q & ->)];
          clear Hex1
      end.
      * apply loop_told_stop; [|discriminate].
        eapply orderly_trans; [exact O01 | apply Q].
      * match goal with
        | |- loop_told _ (bindM idle_woken ?k env' w2) =>
            destruct (bindM_still idle_woken k env' w2 quiet_idle_woken
                        orderly_idle_woken)
              as [(s & w3 & Q3 & ->) | (Q3 & Hnr)]
        end.
        -- pose proof (still_trans _ _ _ Q Q3) as Q13.
           destruct (negb (kInvalid ==s s)).
           ++ eapply (loop_told_park _ w3).
              ** eapply orderly_trans; [exact O01 | apply Q13].
              ** now rewrite (q_state _ _ (proj1 Q13)).
              ** apply (Hagain e env'); auto.
                 --- eapply still_thread_exists; [exact Q13 | reflexivity].
                 --- now rewrite (q_state _ _ (proj1 Q13)).
           ++ apply loop_told_stop.
              ** eapply orderly_trans; [exact O01 | apply Q13].
              ** intros l env'' w' E. inversion E. reflexivity.
        -- apply loop_told_stop.
           ++ eapply orderly_trans; [exact O01|].
              eapply orderly_trans; [apply Q | apply Q3].
           ++ intros l env'' w' E. now apply Hnr in E.
  - cbn. told_tac st.
  - cbn. apply loop_told_stop; [apply orderly_refl | discriminate].
Qed.

Lemma state_change_loop_told env : forall l w,
  thread_exists (ut w) = true ->
  running (state_ (ut w)) = true ->
  handle_state_changed l = false ->
  requested_state_ (ut w) <> state_ (ut w) \/ state_ (ut w) = kIdle ->
  loop_told w (state_change_loop env l w).
Proof.
  induction env as [|e env IH]; intros l w Hex Hrun Hh Hne;
    cbn [state_change_loop]; apply state_change_round_told; auto.
  - intros e env' l' w' E. discriminate E.
  - intros e' env' l' w' E Hex' Hs Hh'. inversion E; subst.
    apply IH; auto. now rewrite Hs.
Qed.

(** *** The last part of a pass, for the listeners *)

(** Splits a goal [hush] into its five parts. *)
Ltac hush_split := split; [|split; [|split; [|split]]].

Lemma hush_refl w : hush w w.
Proof.
  intros _. hush_split; auto using orderly_refl. exists []. split; auto.
Qed.

Lemma hush_trans w1 w2 w3 : hush w1 w2 -> hush w2 w3 -> hush w1 w3.
Proof.
  intros H12 H23 H. destruct (H12 H) as (t1 & s1 & p1 & o1 & n1 & l1 & f1).
  assert (H2 : thread_exists (ut w2) = true)
    by (unfold thread_exists in *; now rewrite t1).
  destruct (H23 H2) as (t2 & s2 & p2 & o2 & n2 & l2 & f2).
  hush_split; try congruence; [eapply orderly_trans; eauto|].
  exists (n2 ++ n1)%list. split; [now rewrite l2, l1, app_assoc|].
  apply Forall_app; auto.
Qed.

Lemma hush_of_still w w' : still w w' -> hush w w'.
Proof.
  intros [[qt qs qp qi qc ql] O] _. hush_split; auto.
Qed.

Lemma hush_pres {A} (m : M A) : pres quiet m -> pres orderly m -> pres hush m.
Proof. intros Hq Ho w. apply hush_of_still. split; [apply Hq | apply Ho]. Qed.

Lemma hush_presT {A} (m : MT A) env :
  presT calm m env -> presT orderly m env -> presT hush m env.
Proof.
  intros Hq Ho w H.
  apply (hush_of_still w _); [split; [now apply Hq | apply Ho] | exact H].
Qed.

Lemma hush_of_ut w w' new :
  ut w' = ut w -> log w' = (new ++ log w)%list -> Forall quiet_obs new ->
  hush w w'.
Proof.
  intros Hu Hl Hf _. rewrite Hu. hush_split; auto using orderly_of_ut.
  now exists new.
Qed.

Lemma hush_barrier_wait env : presT hush barrier_wait env.
Proof.
  intros w H. unfold barrier_wait. destruct env as [|e env']; cbn [world_of].
  - apply (hush_of_ut _ _ [Sleeps go_state_ready_cond None]); auto.
    repeat constructor.
  - match goal with |- context [run_calls ?cs ?w1] =>
      assert (S1 : still w1 (run_calls cs w1))
        by (split; [now apply quiet_run_calls | apply orderly_run_calls]);
      assert (H0 : hush w w1)
        by (apply (hush_of_ut _ _ [Sleeps go_state_ready_cond None]); auto;
            repeat constructor)
    end.
    eapply hush_trans; [exact H0 | apply hush_of_still, S1 | exact H].
Qed.

Lemma hush_ProcState_barrier env : presT hush ProcState_barrier env.
Proof.
  unfold ProcState_barrier.
  apply (presT_bindM _ hush_trans); [apply hush_pres; [quiet_tac | orderly_tac]|].
  intros u. destruct (in_progress _); [|apply (presT_ret _ hush_refl)].
  apply (presT_bindM _ hush_trans).
  { intros w. cbn. apply (hush_of_ut _ _ []); auto. }
  intros _. apply (presT_bindM _ hush_trans).
  { intros w. apply hush_refl. }
  intros n. apply (presT_bindT _ hush_trans).
  - destruct (negb (n =? 0)).
    + apply (presT_bindM _ hush_trans); [apply (pres_assert _ hush_refl)|].
      intros _. apply hush_barrier_wait.
    + apply (presT_bindM _ hush_trans).
      * apply hush_pres; [apply quiet_emit; exact I | apply orderly_emit].
      * intros _. apply (presT_ret _ hush_refl).
  - intros _ env'. apply (presT_bindM _ hush_trans).
    + intros w H. cbn. hush_split; auto; [intros Hr; exact Hr|].
      exists []. split; auto.
    + intros _. apply (presT_ret _ hush_refl).
Qed.

(** What [ProcState] does after the listeners. *)
Lemma hush_after_listeners (res : ProcStateResult) env :
  presT hush
    (modify (set_is_between_cycles_ false) !;;
     ConsiderPause_locked ~;;
     retT res) env.
Proof.
  apply (presT_bindM _ hush_trans); [apply hush_pres; [quiet_tac | orderly_tac]|].
  intros _. apply (presT_bindT _ hush_trans).
  - apply hush_presT; [apply calm_ConsiderPause_locked
                      | apply orderly_ConsiderPause_locked].
  - intros. apply (presT_ret _ hush_refl).
Qed.

Lemma call_listeners_told s p hs : forall w0,
  let w' := fold_left (fun w h => set_log (Listener h s p :: log w) w) hs w0 in
  log w' = (told hs s p ++ log w0)%list.
Proof.
  unfold told.
  induction hs as [|h hs IH]; intros w0; cbn [fold_left map rev]; [reflexivity|].
  cbv zeta in IH. rewrite IH. cbn [log set_log]. now rewrite <- app_assoc.
Qed.

(** The listeners are called, the waiters woken and the time recorded. *)
Lemma listeners_called w :
  exists w2,
    (call_listeners ;;;
     emit (NotifyAll state_ready_cond_) ;;;
     now <- Now ;;
     modify (fun u =>
       set_state_ready_time_points_
         (set_time_point (state_ u) now (state_ready_time_points_ u)) u)) w
    = Ret tt w2 /\
    thread_ (ut w2) = thread_ (ut w) /\
    state_ (ut w2) = state_ (ut w) /\
    prev_state_ (ut w2) = prev_state_ (ut w) /\
    orderly w w2 /\
    log w2 = (NotifyAll state_ready_cond_
                :: told (state_change_listeners_ (ut w)) (state_ (ut w))
                     (prev_state_ (ut w)) ++ log w)%list.
Proof.
  unfold call_listeners, bind, emit, Now, modify.
  pose proof (call_listeners_log (state_ (ut w)) (prev_state_ (ut w))
                (state_change_listeners_ (ut w)) w) as [Hu _].
  pose proof (call_listeners_told (state_ (ut w)) (prev_state_ (ut w))
                (state_change_listeners_ (ut w)) w) as Hl.
  cbv zeta in Hu, Hl.
  revert Hu Hl.
  generalize (fold_left
                (fun w0 h =>
                   set_log (Listener h (state_ (ut w)) (prev_state_ (ut w)) :: log w0) w0)
                (state_change_listeners_ (ut w)) w).
  intros wf Hu Hl. eexists. split; [reflexivity|].
  cbn -[set_time_point]. rewrite Hu, Hl.
  split; [reflexivity|]. split; [reflexivity|]. split; [reflexivity|].
  split; [intros Hr; exact Hr | reflexivity].
Qed.

Lemma ProcState_finish_heard l env w :
  thread_exists (ut w) = true ->
  let w' := world_of (ProcState_finish l env w) in
  state_ (ut w') = state_ (ut w) /\
  prev_state_ (ut w') = prev_state_ (ut w) /\
  exists new,
    log w' = (new ++ log w)%list /\
    Forall (fun o => is_set o = false) new /\
    (heard new = [] \/
     (handle_state_changed l = true /\
      exists hs, (registry_ok (ut w) -> NoDup hs) /\
                 heard new = told hs (state_ (ut w)) (prev_state_ (ut w)))).
Proof.
  intros Hex. cbv zeta.
  remember (ProcState_finish l env w) as o eqn:Ho.
  unfold ProcState_finish in Ho.
  destruct (hush_ProcState_barrier env w Hex) as (t1 & s1 & p1 & o1 & n1 & l1 & f1).
  unfold bindT at 1 in Ho.
  destruct (ProcState_barrier env w) as [[[] env1] w1|c w1|w1|w1];
    cbn [world_of] in *;
    try (subst o; cbn [world_of];
         split; [exact s1|]; split; [exact p1|]; exists n1;
         split; [exact l1|];
         split; [eapply Forall_impl; [|exact f1]; apply quiet_obs_not_set
                | left; now apply heard_quiet]).
  assert (Hex1 : thread_exists (ut w1) = true)
    by (unfold thread_exists in *; now rewrite t1).
  unfold bindM at 1 in Ho.
  destruct (handle_state_changed l); cbn [when] in Ho.
  - destruct (listeners_called w1) as (w2 & E2 & t2 & s2 & p2 & o2 & l2).
    rewrite E2 in Ho.
    assert (Hex2 : thread_exists (ut w2) = true)
      by (unfold thread_exists in *; now rewrite t2).
    destruct (hush_after_listeners (procstate_res l) env1 w2 Hex2)
      as (t3 & s3 & p3 & o3 & n3 & l3 & f3).
    rewrite <- Ho in t3, s3, p3, o3, l3.
    split; [congruence|]. split; [congruence|].
    exists (n3 ++ NotifyAll state_ready_cond_
               :: told (state_change_listeners_ (ut w1)) (state_ (ut w1))
                    (prev_state_ (ut w1)) ++ n1)%list.
    split.
    { rewrite l3, l2, l1. rewrite <- !app_assoc. cbn. now rewrite <- app_assoc. }
    split.
    { apply Forall_app. split.
      - eapply Forall_impl; [|exact f3]. apply quiet_obs_not_set.
      - constructor; [reflexivity|]. apply Forall_app. split.
        + unfold told. apply Forall_forall. intros x Hx.
          apply in_rev, in_map_iff in Hx. destruct Hx as (h & <- & _). reflexivity.
        + eapply Forall_impl; [|exact f1]. apply quiet_obs_not_set. }
    right. split; [reflexivity|].
    exists (state_change_listeners_ (ut w1)). split.
    { intros Hr. apply (o1 Hr). }
    rewrite heard_app. cbn. rewrite heard_app, heard_told.
    rewrite (heard_quiet n3 f3), (heard_quiet n1 f1), app_nil_r. cbn.
    now rewrite s1, p1.
  - cbn [ret] in Ho.
    destruct (hush_after_listeners (procstate_res l) env1 w1 Hex1)
      as (t3 & s3 & p3 & o3 & n3 & l3 & f3).
    rewrite <- Ho in t3, s3, p3, o3, l3.
    split; [congruence|]. split; [congruence|].
    exists (n3 ++ n1)%list.
    split; [now rewrite l3, l1, app_assoc|].
    split.
    { apply Forall_app. split; (eapply Forall_impl; [|eassumption]);
        apply quiet_obs_not_set. }
    left. rewrite heard_app, (heard_quiet n3 f3), (heard_quiet n1 f1). reflexivity.
Qed.

(** *** A whole pass, for the listeners *)

Lemma State_eqb_false a b : (a ==s b) = false -> a <> b.
Proof. intros H E. subst b. destruct a; discriminate H. Qed.

Lemma calls_to_app h l1 l2 :
  calls_to h (l1 ++ l2) = (calls_to h l1 + calls_to h l2)%nat.
Proof. unfold calls_to. now rewrite filter_app, length_app. Qed.

Lemma calls_to_none h new :
  Forall (fun o => is_listener o = false) new -> calls_to h new = 0%nat.
Proof. intros H. now rewrite calls_to_heard, heard_none. Qed.

Lemma not_heard o new :
  Forall (fun o => is_listener o = false) new -> In o new ->
  is_listener o = true -> False.
Proof.
  intros H Hin Ho. rewrite Forall_forall in H. rewrite (H o Hin) in Ho. discriminate.
Qed.

(** Nothing is heard in entries without a call. *)
Lemma pass_told_none w w' new :
  Forall (fun o => is_listener o = false) new -> pass_told w w' new.
Proof.
  intros H. split.
  - intros h. rewrite calls_to_none by exact H. lia.
  - intros h s p Hin. exfalso. eapply not_heard; eauto.
Qed.

(** Quiet steps before a pass change nothing to what is heard. *)
Lemma pass_told_after_quiet w w1 w' newq new :
  state_ (ut w1) = state_ (ut w) -> Forall quiet_obs newq ->
  pass_told w1 w' new -> pass_told w w' (new ++ newq).
Proof.
  intros Hs Hq [H1 H2]. pose proof (Forall_quiet_not_listener _ Hq) as Hn. split.
  - intros h. rewrite calls_to_app, (calls_to_none h newq Hn). specialize (H1 h). lia.
  - intros h s p Hin. apply in_app_or in Hin. destruct Hin as [Hin|Hin].
    + destruct (H2 h s p Hin) as (a & b & c & (newer & older & d & e) & f).
      split; [exact a|]. split; [exact b|]. split; [exact c|]. split.
      * exists newer, (older ++ newq)%list. split; [|exact e].
        rewrite d. rewrite <- app_assoc. reflexivity.
      * now rewrite <- Hs.
    + exfalso. eapply not_heard; eauto.
Qed.

Lemma ProcState_apply_told env w new :
  thread_exists (ut w) = true ->
  running (state_ (ut w)) = true ->
  registry_ok (ut w) ->
  log (world_of (ProcState_apply env w)) = (new ++ log w)%list ->
  pass_told w (world_of (ProcState_apply env w)) new.
Proof.
  intros Hex Hrun Hreg.
  remember (ProcState_apply env w) as o eqn:Ho.
  unfold ProcState_apply, bindM at 1, get in Ho.
  set (first := if requested_state_ (ut w) ==s state_ (ut w) then _ else _) in Ho.
  assert (HL : loop_post w (first env w)).
  { subst first. destruct (requested_state_ (ut w) ==s state_ (ut w)).
    - open_world w. known_thread. cbn. post_tac st (@nil Obs).
    - now apply state_change_loop_post. }
  assert (HT : loop_told w (first env w)).
  { subst first. destruct (requested_state_ (ut w) ==s state_ (ut w)) eqn:E.
    - apply loop_told_stop; [intros Hr; exact Hr|].
      intros l env' w' E'. inversion E'. reflexivity.
    - apply state_change_loop_told; auto. left. now apply State_eqb_false. }
  unfold bindT in Ho. destruct HL as (Pt & Plive & newL & Pl & Pm & Pn & Pi & Ph).
  destruct HT as (Po & Pa).
  destruct (first env w) as [[l env1] w1|c w1|w1|w1] eqn:E; cbn [world_of] in *;
    try (subst o; cbn [world_of];
         intros Hlog; rewrite Pl in Hlog; apply app_inv_tail in Hlog; subst new;
         now apply pass_told_none).
  subst o.
  assert (Hex1 : thread_exists (ut w1) = true)
    by (unfold thread_exists in *; now rewrite Pt).
  destruct (ProcState_finish_heard l env1 w1 Hex1) as (Fs & Fp & newF & Fl & Fn & Fh).
  cbv zeta in Fs, Fp, Fl.
  intros Hlog. rewrite Fl, Pl, app_assoc in Hlog. apply app_inv_tail in Hlog.
  subst new.
  destruct Fh as [Fh | (Hh & hs & Hnd & Fh)].
  { apply pass_told_none. apply Forall_app. split; [|exact Pn].
    apply Forall_forall. intros o Hin. destruct (is_listener o) eqn:Ho; [|reflexivity].
    pose proof (heard_In o newF Hin Ho) as Hc. rewrite Fh in Hc. destruct Hc. }
  destruct (Pa l env1 w1 eq_refl Hh) as (Hs & (older & Hold) & Hd).
  split.
  - intros h. rewrite calls_to_app, (calls_to_none h newL Pn).
    rewrite calls_to_heard, Fh, Nat.add_0_r. apply calls_to_told. auto.
  - intros h s p Hin. apply in_app_or in Hin. destruct Hin as [Hin|Hin];
      [|exfalso; eapply not_heard; eauto].
    pose proof (heard_In _ newF Hin eq_refl) as Hc. rewrite Fh in Hc.
    apply In_told in Hc. destruct Hc as [-> ->].
    rewrite Fs, Fp. split; [reflexivity|]. split; [reflexivity|].
    split; [exact Hs|]. split; [|exact Hd].
    pose proof (Ph l env1 w1 eq_refl Hh) as Hex'.
    destruct newL as [|o newL']; [inversion Hex'|].
    rewrite Pl in Hold. cbn in Hold. inversion Hold; subst o.
    exists newF, newL'. split; [reflexivity | exact Fn].
Qed.

(** A pass either stays still to its end, or reaches [ProcState_apply]
    through still steps. *)
Lemma ProcState_cases_still me env w :
  thread_exists (ut w) = true ->
  still w (world_of (ProcState me env w))
  \/ (exists env1 w1,
        still w w1 /\ state_ (ut w) <> kIdle /\ state_ (ut w) <> kExiting /\
        ProcState me env w = ProcState_apply env1 w1).
Proof.
  intros Hex. remember (ProcState me env w) as o eqn:Ho.
  unfold ProcState in Ho.
  unfold bindM at 1, get at 1 in Ho. cbv beta iota in Ho.
  rewrite Hex in Ho. unfold bindM at 1, assert at 1 in Ho. cbv beta iota in Ho.
  unfold bindM at 1, assert at 1 in Ho.
  destruct (N.eqb (thread_id (ut w)) me); [|left; subst o; apply still_refl].
  cbv beta iota in Ho.
  unfold bindM at 1, assert at 1 in Ho.
  destruct (kIdle ==s state_ (ut w)) eqn:Ei; [left; subst o; apply still_refl|].
  cbv beta iota in Ho. cbn [negb] in Ho.
  match type of Ho with
  | _ = bindM (modify ?f) ?k env w =>
      destruct (bindM_still (modify f) k env w) as [(a & w1 & Q1 & E1)|(Q1 & _)];
        [quiet_tac | orderly_tac | rewrite E1 in Ho; clear E1 | subst o; now left]
  end.
  assert (Hex1 := still_thread_exists _ _ Q1 Hex).
  destruct (kExiting ==s state_ (ut w)) eqn:Ee.
  { left. subst o. eapply still_trans; [exact Q1|]. split.
    - apply (presT_bindT calm calm_trans); [apply calm_ConsiderPause_locked| |exact Hex1].
      intros. apply (presT_ret calm calm_refl).
    - apply (presT_bindT orderly orderly_trans);
        [apply orderly_ConsiderPause_locked|].
      intros. apply (presT_ret orderly orderly_refl). }
  match type of Ho with
  | _ = bindT ProcState_skip ?k env w1 =>
      destruct (bindT_still ProcState_skip k env w1 (calm_ProcState_skip env)
                  (orderly_ProcState_skip env) Hex1)
        as [(r & env2 & w2 & Q2 & E2)|(Q2 & _)];
        [rewrite E2 in Ho; clear E2 | left; subst o; eapply still_trans; eauto]
  end.
  destruct r as [res|]; [left; subst o; cbn; eapply still_trans; eauto|].
  assert (Hex2 := still_thread_exists _ _ Q2 Hex1).
  match type of Ho with
  | _ = bindM (modify ?f) ?k env2 w2 =>
      destruct (bindM_still (modify f) k env2 w2) as [(a3 & w3 & Q3 & E3)|(Q3 & _)];
        [quiet_tac | orderly_tac | rewrite E3 in Ho; clear E3
        | left; subst o; eapply still_trans; [exact Q1|]; eapply still_trans; eauto]
  end.
  assert (Hex3 := still_thread_exists _ _ Q3 Hex2).
  match type of Ho with
  | _ = bindT ProcState_cycle_wait ?k env2 w3 =>
      destruct (bindT_still ProcState_cycle_wait k env2 w3
                  (calm_ProcState_cycle_wait env2)
                  (orderly_ProcState_cycle_wait env2) Hex3)
        as [(r & env4 & w4 & Q4 & E4)|(Q4 & _)];
        [rewrite E4 in Ho; clear E4|]
  end.
  - assert (Q : still w w4).
    { eapply still_trans; [exact Q1|]. eapply still_trans; [exact Q2|].
      eapply still_trans; eauto. }
    destruct r as [res|]; [left; subst o; exact Q|].
    right. exists env4, w4. split; [exact Q|].
    split; [intros E; rewrite E in Ei; discriminate|].
    split; [intros E; rewrite E in Ee; discriminate | exact Ho].
  - left. subst o. eapply still_trans; [exact Q1|]. eapply still_trans; [exact Q2|].
    eapply still_trans; eauto.
Qed.

(** What the listeners hear in one pass through [ProcState]. *)
Lemma ProcState_told me env w new :
  thread_exists (ut w) = true ->
  live (state_ (ut w)) = true ->
  registry_ok (ut w) ->
  log (world_of (ProcState me env w)) = (new ++ log w)%list ->
  pass_told w (world_of (ProcState me env w)) new.
Proof.
  intros Hex Hlive Hreg Hlog.
  destruct (ProcState_cases_still me env w Hex)
    as [[Q _]|(env1 & w1 & [Q O] & Hi & He & E)].
  - destruct Q as [qt qs qp qi qc (newq & ql & qf)].
    rewrite ql in Hlog. apply app_inv_tail in Hlog. subst new.
    now apply pass_told_none, Forall_quiet_not_listener.
  - rewrite E in *.
    pose proof Q as [qt qs qp qi qc (newq & ql & qf)].
    assert (Hex1 : thread_exists (ut w1) = true)
      by (eapply quiet_thread_exists; eauto).
    assert (Hrun : running (state_ (ut w1)) = true).
    { rewrite qs. revert Hlive Hi He. destruct (state_ (ut w)); cbn; congruence. }
    destruct (ProcState_pass me env w Hex Hlive) as (_ & _ & newp & Hp & _).
    rewrite E in Hp.
    destruct (ProcState_apply_post env1 w1 Hex1 Hrun) as (_ & _ & new1 & H1 & _).
    assert (new = (new1 ++ newq)%list).
    { rewrite H1, ql, app_assoc in Hlog. now apply app_inv_tail in Hlog. }
    subst new.
    apply (pass_told_after_quiet w w1); auto.
    apply ProcState_apply_told; auto.
Qed.

(** *** The registry stays in order over any run *)

Lemma orderly_ProcState me env : presT orderly (ProcState me) env.
Proof. unfold ProcState. orderlyT_tac. Qed.

Lemma orderly_SetSelfExiting fuel me env : presT orderly (SetSelfExiting fuel me) env.
Proof.
  unfold SetSelfExiting.
  apply (presT_bindM orderly orderly_trans); [orderly_tac|]. intros u.
  destruct (negb (is_current_thread me u)); [apply (presT_ret orderly orderly_refl)|].
  apply (presT_bindM orderly orderly_trans); [orderly_tac|]. intros res.
  destruct (negb (Result_eqb SUCCESS res)); [apply (presT_ret orderly orderly_refl)|].
  apply (presT_bindT orderly orderly_trans); [apply orderly_ProcState|].
  intros. apply (presT_ret orderly orderly_refl).
Qed.

Lemma exec_orderly op w : orderly w (exec op w).
Proof.
  destruct op as [c|env|d env|env|r]; cbn [exec].
  - apply orderly_ext_apply.
  - apply orderly_ProcState.
  - apply orderly_Sleep.
  - apply orderly_SetSelfExiting.
  - destruct (thread_exists (ut w));
      [apply orderly_mainThreadFunc_exit | apply orderly_refl].
Qed.

Lemma run_ops_orderly ops : forall w, orderly w (run_ops ops w).
Proof.
  induction ops as [|op ops IH]; intros w.
  - apply orderly_refl.
  - change (run_ops (op :: ops) w) with (run_ops ops (exec op w)).
    eapply orderly_trans; [apply exec_orderly | apply IH].
Qed.

Lemma registry_ok_Init t0 : registry_ok (Init t0).
Proof. split; constructor. Qed.

(** ** A request for the state the thread is in *)

(** When the thread function returns, the waiters are woken, every
    registered listener is called once with the state the thread was in
    and the one before it, and then [kExited] is applied. *)
Lemma mainThreadFunc_exit_told thread_result w :
  0 <= state_ready_wait_count_ (ut w) ->
  exists w' waking,
    mainThreadFunc_exit thread_result w = Ret tt w' /\
    Forall quiet_obs waking /\
    log w' = (SetState (state_ (ut w)) kExited
                :: told (state_change_listeners_ (ut w)) (state_ (ut w))
                     (prev_state_ (ut w))
                ++ waking ++ log w)%list.
Proof.
  intros Hw. unfold mainThreadFunc_exit, call_listeners, SetStateInternal.
  assert (E : (0 <? state_ready_wait_count_ (ut w)) = false ->
              (0 =? state_ready_wait_count_ (ut w)) = true).
  { intros H. apply Z.ltb_ge in H. apply Z.eqb_eq. lia. }
  unfold bind at 1. unfold get at 1.
  destruct (0 <? state_ready_wait_count_ (ut w)) eqn:Hpos;
    [|rewrite (E eq_refl)];
    cbn -[fold_left];
    match goal with
    | |- context [fold_left ?f ?hs ?w0] =>
        pose proof (call_listeners_log (state_ (ut w)) (prev_state_ (ut w)) hs w0)
          as [Hu _];
        pose proof (call_listeners_told (state_ (ut w)) (prev_state_ (ut w)) hs w0)
          as Hl;
        cbv zeta in Hu, Hl; cbn -[fold_left] in Hu, Hl;
        revert Hu Hl; generalize (fold_left f hs w0); intros wf Hu Hl
    end.
  - eexists.
    exists [NotifyAll go_ready_cond_; NotifyAll idle_ready_cond_;
            NotifyAll state_ready_cond_].
    split; [reflexivity|]. split; [repeat constructor|].
    cbn. rewrite Hu, Hl. reflexivity.
  - eexists. exists []. split; [reflexivity|]. split; [constructor|].
    cbn. rewrite Hu, Hl. reflexivity.
Qed.

(** C6, as stated, fails.  On a thread still in [kInit] a request for
    [kInit] is an invalid argument, and what was pending stays.  A
    listener can hear of one transition twice: the listener registered
    on [w_heard] was called with [kGo] and [kIdle] when [kGo] was
    applied, and it is called with them again when the thread function
    returns, before [kExited] is applied.  And a listener can be called
    though the state has not changed: during a multi-transition a
    request for [kIdle] pending on a thread in [kGo] is turned into
    [kGo], which is applied again, and the listener is called with [kGo]
    and [kGo]. *)
Lemma same_state_request_init_rejected :
  (thread_exists (ut w_init_pending) = true /\
   state_ (ut w_init_pending) = kInit /\
   requested_state_ (ut w_init_pending) = kIdle /\
   exists r,
     RequestState 1 1%N kInit 0 w_init_pending = Ret r w_init_pending /\
     code_ r = INVALID_ARGUMENT_CODE /\
     Result_eqb SUCCESS r = false)
  /\ (heard (log w_heard) = [Listener 0 kGo kIdle] /\
      filter is_set (log w_heard) = [SetState kIdle kGo; SetState kInit kIdle] /\
      exists w',
        mainThreadFunc_exit SUCCESS w_heard = Ret tt w' /\
        heard (log w') = [Listener 0 kGo kIdle; Listener 0 kGo kIdle] /\
        filter is_set (log w')
        = [SetState kGo kExited; SetState kIdle kGo; SetState kInit kIdle])
  /\ (state_ (ut w_heard_multi) = kGo /\
      exists w',
        ProcState 7%N [] w_heard_multi = Ret (kContinue, []) w' /\
        state_ (ut w') = kGo /\
        exists new,
          log w' = (new ++ log w_heard_multi)%list /\
          heard new = [Listener 0 kGo kGo] /\
          filter is_set new = [SetState kGo kGo]).
Proof.
  split; [|split].
  - repeat split; try (vm_compute; reflexivity).
    eexists. split; [vm_compute; reflexivity | split; vm_compute; reflexivity].
  - split; [vm_compute; reflexivity|]. split; [vm_compute; reflexivity|].
    eexists. split; [vm_compute; reflexivity|].
    split; vm_compute; reflexivity.
  - split; [vm_compute; reflexivity|].
    eexists. split; [vm_compute; reflexivity|]. split; [vm_compute; reflexivity|].
    exists [NotifyAll state_ready_cond_; Listener 0%N kGo kGo;
            NotifyAll go_state_ready_cond; SetState kGo kGo;
            NotifyAll go_ready_cond_].
    split; [vm_compute; reflexivity|]. split; reflexivity.
Qed.

(** C6 (as amended): on a started thread in [kIdle] or [kGo] with no
    [kExiting] (or [kExited]) pending, a request for the state the thread
    is in returns success, leaves [requested_state_] at [kInvalid], wakes
    the waiters on [state_ready_cond_], and neither applies a transition
    nor calls a listener.  No call made by another thread calls a
    listener or applies a state.  A pass through [ProcState] calls each
    registered listener at most once, and then with the state it applied
    last, [kGo] or [kExiting], and the state that one replaced, which is
    a different one unless the pass began in [kGo] and applied [kGo].
    The return of the thread function calls each registered listener
    once, with the state the thread was in and the one before it, and
    then applies [kExited].  The registry of listeners is in order on a
    new object and stays so over every run. *)
Theorem same_state_request_is_noop fuel me newstate timeout w :
  thread_exists (ut w) = true ->
  newstate = state_ (ut w) ->
  newstate = kIdle \/ newstate = kGo ->
  requested_state_ (ut w) <> kExiting ->
  requested_state_ (ut w) <> kExited ->
  asserts_hold (ut w) ->
  (exists w',
     RequestState fuel me newstate timeout w = Ret SUCCESS w' /\
     requested_state_ (ut w') = kInvalid /\
     state_ (ut w') = state_ (ut w) /\
     log w' = NotifyAll state_ready_cond_
                :: (if is_paused_ (ut w) then [NotifyOne unpause_cond_] else [])
                ++ log w)
  /\ (forall c w0 new,
        thread_exists (ut w0) = true ->
        log (ext_apply c w0) = (new ++ log w0)%list ->
        Forall (fun o => is_listener o = false /\ is_set o = false) new)
  /\ (forall me' env w0 new,
        thread_exists (ut w0) = true ->
        live (state_ (ut w0)) = true ->
        registry_ok (ut w0) ->
        log (world_of (ProcState me' env w0)) = (new ++ log w0)%list ->
        pass_told w0 (world_of (ProcState me' env w0)) new)
  /\ (forall thread_result w0,
        0 <= state_ready_wait_count_ (ut w0) ->
        exists w' waking,
          mainThreadFunc_exit thread_result w0 = Ret tt w' /\
          Forall quiet_obs waking /\
          log w' = (SetState (state_ (ut w0)) kExited
                      :: told (state_change_listeners_ (ut w0)) (state_ (ut w0))
                           (prev_state_ (ut w0))
                      ++ waking ++ log w0)%list)
  /\ (forall t0, registry_ok (Init t0))
  /\ (forall ops w0, registry_ok (ut w0) -> registry_ok (ut (run_ops ops w0))).
Proof.
  intros Hex Hs Hn Hr1 Hr2 [Hj Hp].
  split; [|split; [|split; [|split; [|split]]]];
    [| | | | exact registry_ok_Init | exact run_ops_orderly].
  - open_world w. subst joined. subst newstate.
    destruct thr as [t|]; [|discriminate].
    assert (Hreq : ((kExiting ==s req) || (kExited ==s req)) = false)
      by (destruct req; try reflexivity; congruence).
    unfold RequestState, RequestState_unlocked, RequestState_locked,
      RequestState_submit, Unpause.
    destruct Hn as [-> | ->]; destruct paused;
      try (rewrite (Hp eq_refl)); cbn; rewrite Hreq; cbn;
      eexists; repeat split.
  - intros c w0 new Hex0 Hlog.
    destruct (quiet_ext_apply c w0 Hex0) as [_ _ _ _ _ (newq & ql & qf)].
    rewrite ql in Hlog. apply app_inv_tail in Hlog. subst newq.
    eapply Forall_impl; [|exact qf]. intros o Ho.
    split; [now apply quiet_obs_not_listener | now apply quiet_obs_not_set].
  - intros me' env w0 new. apply ProcState_told.
  - intros thread_result w0. apply mainThreadFunc_exit_told.
Qed.

Lemma same_state_request_is_noop_witness :
  exists w',
    RequestState 1 1%N kGo 0 (world_of (RequestState 1 1%N kIdle 0 w_go))
      = Ret SUCCESS w' /\
    requested_state_ (ut w') = kInvalid.
Proof.
  destruct (same_state_request_is_noop 1 1%N kGo 0
              (world_of (RequestState 1 1%N kIdle 0 w_go)))
    as [(w' & H1 & H2 & _) _].
  - vm_compute; reflexivity.
  - vm_compute; reflexivity.
  - right; reflexivity.
  - vm_compute; discriminate.
  - vm_compute; discriminate.
  - split; vm_compute; [reflexivity | discriminate].
  - exists w'. split; assumption.
Defined.
(** ** A request made while the thread is paused *)

Lemma same_pause_refl w : same_pause w w.
Proof. reflexivity. Qed.

Lemma same_pause_trans w1 w2 w3 :
  same_pause w1 w2 -> same_pause w2 w3 -> same_pause w1 w3.
Proof. unfold same_pause. congruence. Qed.

Lemma same_pause_emit o : pres same_pause (emit o).
Proof. intros w. reflexivity. Qed.

Lemma same_pause_modify (f : UThread -> UThread) :
  (forall u, is_paused_ (f u) = is_paused_ u) -> pres same_pause (modify f).
Proof. intros H w. apply H. Qed.

Lemma same_pause_Now : pres same_pause Now.
Proof. intros w. reflexivity. Qed.

Create HintDb pause.

#[local] Hint Resolve same_pause_Now same_pause_emit : pause.

Ltac pause_tac :=
  repeat
    (intros;
     first
       [ apply (pres_ret same_pause same_pause_refl)
       | apply (pres_get same_pause same_pause_refl)
       | apply (pres_assert same_pause same_pause_refl)
       | apply (pres_park same_pause same_pause_refl)
       | apply (pres_out_of_fuel same_pause same_pause_refl)
       | apply same_pause_modify; intros []; reflexivity
       | solve [ auto with pause ]
       | apply (pres_when same_pause same_pause_refl)
       | apply (pres_bind same_pause same_pause_trans)
       | match goal with
         | |- pres same_pause (if ?b then _ else _) => destruct b
         | |- pres same_pause (match ?x with _ => _ end) => destruct x
         end ]).

Lemma same_pause_JoinInternal : pres same_pause JoinInternal.
Proof. unfold JoinInternal. pause_tac. Qed.
#[local] Hint Resolve same_pause_JoinInternal : pause.

Lemma same_pause_StateCondWaitUntil_enter c t :
  pres same_pause (StateCondWaitUntil_enter c t).
Proof. unfold StateCondWaitUntil_enter. pause_tac. Qed.
#[local] Hint Resolve same_pause_StateCondWaitUntil_enter : pause.

Lemma same_pause_StateCondWaitFor_enter c d :
  pres same_pause (StateCondWaitFor_enter c d).
Proof. unfold StateCondWaitFor_enter. pause_tac. Qed.
#[local] Hint Resolve same_pause_StateCondWaitFor_enter : pause.

Lemma same_pause_StateCondWait_enter c : pres same_pause (StateCondWait_enter c).
Proof. unfold StateCondWait_enter. pause_tac. Qed.
#[local] Hint Resolve same_pause_StateCondWait_enter : pause.

Lemma same_pause_StateWaitFor_done : pres same_pause StateWaitFor_done.
Proof. unfold StateWaitFor_done. pause_tac. Qed.
#[local] Hint Resolve same_pause_StateWaitFor_done : pause.

Lemma same_pause_StateWaitFor_loop fuel s t :
  pres same_pause (StateWaitFor_loop fuel s t).
Proof.
  induction fuel as [|fuel IH]; cbn [StateWaitFor_loop]; pause_tac.
Qed.
#[local] Hint Resolve same_pause_StateWaitFor_loop : pause.

Lemma same_pause_StateWaitFor fuel me s t :
  pres same_pause (StateWaitFor fuel me s t).
Proof. unfold StateWaitFor. pause_tac. Qed.
#[local] Hint Resolve same_pause_StateWaitFor : pause.

Lemma same_pause_StateWait fuel me s : pres same_pause (StateWait fuel me s).
Proof. unfold StateWait. pause_tac. Qed.
#[local] Hint Resolve same_pause_StateWait : pause.

Lemma same_pause_RequestState_loop fuel me s t r :
  pres same_pause (RequestState_loop fuel me s t r).
Proof.
  revert r. induction fuel as [|fuel IH]; intros r; cbn [RequestState_loop];
    pause_tac.
Qed.
#[local] Hint Resolve same_pause_RequestState_loop : pause.

Lemma same_pause_RequestState_submit fuel me s t :
  pres same_pause (RequestState_submit fuel me s t).
Proof. unfold RequestState_submit. pause_tac. Qed.

(** C10, as stated, fails: a request made without blocking on a paused
    thread returns with the request recorded and [is_paused_] still set. *)
Lemma request_leaves_paused_flag :
  thread_exists (ut w_paused) = true /\
  is_paused_ (ut w_paused) = true /\
  state_ (ut w_paused) = kGo /\
  exists w',
    RequestState 1 1%N kIdle 0 w_paused = Ret SUCCESS w' /\
    requested_state_ (ut w') = kIdle /\
    is_paused_ (ut w') = true.
Proof.
  repeat split; try (vm_compute; reflexivity).
  eexists. split; [vm_compute; reflexivity | split; vm_compute; reflexivity].
Qed.

(** C10 (as amended): on a started, paused thread in [kInit], [kIdle] or
    [kGo], a [RequestState] for a valid target signals [unpause_cond_]
    before anything else, and the rest of the call (the test for a
    pending [kExiting], the recording of the request) runs after that;
    the call itself does not write [is_paused_].  The flag is cleared by
    the managed thread, when it comes back from its wait in
    [ConsiderPause_locked]. *)
Theorem request_signals_unpause_first fuel me newstate timeout w :
  thread_exists (ut w) = true ->
  is_paused_ (ut w) = true ->
  running (state_ (ut w)) = true ->
  newstate <> kInit -> newstate <> kExited ->
  asserts_hold (ut w) ->
  RequestState fuel me newstate timeout w
    = RequestState_submit fuel me newstate timeout
        (set_log (NotifyOne unpause_cond_ :: log w) w)
  /\ (exists new,
        log (world_of (RequestState fuel me newstate timeout w))
          = (new ++ NotifyOne unpause_cond_ :: log w)%list /\
        Forall quiet_obs new)
  /\ is_paused_ (ut (world_of (RequestState fuel me newstate timeout w))) = true
  /\ (forall w0,
        thread_exists (ut w0) = true -> is_pause_pending_ (ut w0) = true ->
        (exists w1, ConsiderPause_locked [] w0 = Parked unpause_cond_ w1 /\
                    is_paused_ (ut w1) = true)
        /\ (forall e env, exists w2,
              ConsiderPause_locked (e :: env) w0 = Ret (tt, env) w2 /\
              is_paused_ (ut w2) = false)).
Proof.
  intros Hex Hp Hrun Hn1 Hn2 [Hj Hpp].
  assert (E : RequestState fuel me newstate timeout w
              = RequestState_submit fuel me newstate timeout
                  (set_log (NotifyOne unpause_cond_ :: log w) w)).
  { open_world w. subst paused joined. rewrite (Hpp eq_refl).
    destruct thr as [t|]; [|discriminate].
    unfold RequestState, RequestState_unlocked, RequestState_locked, Unpause.
    destruct newstate; try congruence; destruct st; try discriminate;
      reflexivity. }
  split; [exact E|]. rewrite E. split; [|split].
  - destruct (quiet_RequestState_submit fuel me newstate timeout
                (set_log (NotifyOne unpause_cond_ :: log w) w))
      as [_ _ _ _ _ (new & Hl & Hf)].
    exists new. split; [exact Hl | exact Hf].
  - rewrite (same_pause_RequestState_submit fuel me newstate timeout
               (set_log (NotifyOne unpause_cond_ :: log w) w)).
    exact Hp.
  - intros w0 Hex0 Hpend. open_world w0. subst ppend.
    destruct thr as [t|]; [|discriminate].
    split.
    + eexists. cbn. split; reflexivity.
    + intros e env.
      unfold ConsiderPause_locked, StateCondWait, StateCondWaitUntil, bindM.
      cbn -[run_calls StateCondWaitUntil_leave].
      match goal with
      | |- context [StateCondWaitUntil_leave ?b ?w2] =>
          destruct (StateCondWaitUntil_leave_ret b w2) as (r & w3 & -> & _)
      end.
      eexists. split; [reflexivity|]. destruct w3 as [[]]; reflexivity.
Qed.

Lemma request_signals_unpause_first_witness :
  exists new,
    log (world_of (RequestState 1 1%N kIdle 0 w_paused))
      = (new ++ NotifyOne unpause_cond_ :: log w_paused)%list /\
    Forall quiet_obs new.
Proof.
  destruct (request_signals_unpause_first 1 1%N kIdle 0 w_paused)
    as (_ & H & _).
  - vm_compute; reflexivity.
  - vm_compute; reflexivity.
  - vm_compute; reflexivity.
  - discriminate.
  - discriminate.
  - split; vm_compute; [reflexivity | intros _; reflexivity].
  - exact H.
Defined.

(** ** A request for [kIdle] during a multi-transition *)



(** ** The barrier of a multi-transition *)

(** The wait on [*go_cond_p] is not made in a loop: when it returns, the
    thread goes on whatever the count is.  If no other participant has
    arrived meanwhile, the thread leaves the barrier, and forgets the
    multi-transition, with the count still above zero. *)
Lemma barrier_wait_not_retested e env w :
  in_progress (set_state_multiple_info_ (ut w)) = true ->
  0 < int32_wrap (go_state_pending_count w - 1) ->
  during e = [] ->
  exists w',
    ProcState_barrier (e :: env) w = Ret (tt, env) w' /\
    go_state_pending_count w' = int32_wrap (go_state_pending_count w - 1) /\
    in_progress (set_state_multiple_info_ (ut w')) = false /\
    state_ (ut w') = state_ (ut w) /\
    log w' = Sleeps go_state_ready_cond None :: log w.
Proof.
  intros Hin Hpos He.
  assert (Hn : (int32_wrap (go_state_pending_count w - 1) =? 0) = false)
    by (apply Z.eqb_neq; lia).
  assert (Hp : (0 <? int32_wrap (go_state_pending_count w - 1)) = true)
    by (apply Z.ltb_lt; exact Hpos).
  unfold ProcState_barrier, bindM, bindT, get, get_pending_count, barrier_wait,
    modify, retT.
  cbn -[int32_wrap Z.sub Z.eqb Z.ltb]. rewrite Hin.
  cbn -[int32_wrap Z.sub Z.eqb Z.ltb]. rewrite Hn.
  cbn -[int32_wrap Z.sub Z.eqb Z.ltb]. rewrite Hp, He.
  cbn -[int32_wrap Z.sub Z.eqb Z.ltb].
  eexists. split; [reflexivity|]. repeat split.
Qed.

(** C7 fails on the code.  A multi-transition to [kGo] over two threads
    is prepared while this one waits in [kIdle] (pending count 2) and
    [kGo] is requested by its helper.  The thread wakes up, applies
    [kGo], counts the barrier down to 1 and waits on the shared condition
    variable.  That wait returns although nobody has signalled it and the
    other participant has not arrived, and the thread returns from
    [ProcState] in [kGo] with the count at 1. *)
Lemma participant_leaves_barrier_early :
  exists w',
    ProcState 7%N
      [mkWake [CallPrepare; CallSetPendingCount 2;
               CallRequestState 1%N kGo Duration_Min] false;
       mkWake [] false] w_init
    = Ret (kContinue, []) w' /\
    state_ (ut w') = kGo /\
    go_state_pending_count w' = 1 /\
    in_progress (set_state_multiple_info_ (ut w')) = false /\
    firstn 3 (log w') = [NotifyAll state_ready_cond_;
                         Sleeps go_state_ready_cond None;
                         SetState kIdle kGo].
Proof.
  eexists. split; [vm_compute; reflexivity|].
  repeat split; vm_compute; reflexivity.
Qed.
(** ** The cycle wait of type [kAbsolute] *)

Lemma int64_wrap_id z : in_int64 z -> int64_wrap z = z.
Proof.
  unfold in_int64, int64_wrap, int64_min, int64_max. intros H.
  rewrite Z.mod_small; lia.
Qed.

(** The branch taken when the wait timed out records the time it reads
    as the new [prev_cycle_time_point_]. *)
Lemma cycle_wait_expired_time env w :
  is_pause_pending_ (ut w) = false ->
  exists w',
    cycle_wait_expired env w = Ret (Some kContinue, env) w' /\
    prev_cycle_time_point_ (ut w') = clock w (clock_reads w) /\
    log w' = log w.
Proof.
  intros H. open_world w. subst ppend.
  eexists. cbn. split; [reflexivity | split; reflexivity].
Qed.

(** A time point inside the range of [std::int64_t] and above its
    least value is a deadline. *)
Lemma deadline_of_in_range t :
  int64_min < t <= int64_max -> deadline_of (int64_wrap t) = Some t.
Proof.
  intros H. rewrite int64_wrap_id by (unfold in_int64; lia).
  unfold deadline_of, TimePoint_Min.
  destruct (int64_min =? t) eqn:E; [apply Z.eqb_eq in E; lia | reflexivity].
Qed.

(** C9 fails on the code.  The elapsed time is counted from
    [prev_cycle_time_point_], which a pass that applies a pending request
    does not write (a pass that wakes from [kIdle] does).  On an object
    built at time 0 and started at 10 s with [kGo] requested, the first
    pass applies [kGo], reading the clock at 10 s; with a period of 5 s,
    the next pass, 1 us later, counts 10 s as elapsed, computes a sleep
    period of 0 and returns without waiting, where 5 s minus 1 us have
    still to pass since the previous pass. *)
Lemma absolute_cycle_wait_stale_origin :
  w_late = world_of (set_cycle_wait_period 5000000000
                       (world_of (ProcState 7%N [] w_late_start))) /\
  clock w_late_start (clock_reads w_late_start) = 10000000000 /\
  cycle_wait_type_ (ut w_late) = kAbsolute /\
  cycle_wait_period_ (ut w_late) = 5000000000 /\
  requested_state_ (ut w_late) = kInvalid /\
  clock w_late (clock_reads w_late) = 10000001000 /\
  prev_cycle_time_point_ (ut w_late) = 0 /\
  (exists w', cycle_sleep_period 0 w_late = Ret 0 w') /\
  (exists w', ProcState 7%N [] w_late = Ret (kContinue, []) w' /\
              log w' = log w_late) /\
  5000000000 - (10000001000 - 10000000000) <> 0.
Proof.
  split; [reflexivity|].
  repeat split; try (vm_compute; reflexivity).
  - eexists. vm_compute. reflexivity.
  - eexists. split; vm_compute; reflexivity.
  - discriminate.
Qed.

Lemma told_ut s p hs w0 :
  ut (fold_left (fun w h => set_log (Listener h s p :: log w) w) hs w0) = ut w0.
Proof. apply (call_listeners_log s p hs w0). Qed.

(** The last part of [ProcState], without barrier and without pause,
    returns, and leaves [state_] and [prev_cycle_time_point_] alone. *)
Lemma ProcState_finish_returns l env w :
  in_progress (set_state_multiple_info_ (ut w)) = false ->
  is_pause_pending_ (ut w) = false ->
  exists w',
    ProcState_finish l env w = Ret (procstate_res l, env) w' /\
    state_ (ut w') = state_ (ut w) /\
    prev_cycle_time_point_ (ut w') = prev_cycle_time_point_ (ut w).
Proof.
  intros Hin Hpp.
  unfold ProcState_finish, ProcState_barrier, ConsiderPause_locked, call_listeners.
  destruct (handle_state_changed l);
    repeat
      (progress
         (cbn -[fold_left set_time_point];
          unfold bindM, bindT, retT;
          cbn -[fold_left set_time_point];
          rewrite ?told_ut, ?Hin, ?Hpp));
    eexists; (split; [reflexivity|]);
    cbn -[fold_left set_time_point]; rewrite ?told_ut; split; reflexivity.
Qed.

(** A pass that finds [kGo] or [kExiting] requested, with no
    multi-transition in progress and no pause pending, applies it and
    returns without writing [prev_cycle_time_point_]. *)
Lemma pending_request_keeps_time_point me env w :
  thread_ (ut w) = Some me ->
  state_ (ut w) = kInit \/ state_ (ut w) = kGo ->
  requested_state_ (ut w) = kGo \/ requested_state_ (ut w) = kExiting ->
  requested_state_ (ut w) <> state_ (ut w) ->
  cycle_wait_skip_orig_state_ (ut w) = kInvalid ->
  in_progress (set_state_multiple_info_ (ut w)) = false ->
  is_pause_pending_ (ut w) = false ->
  exists r w',
    ProcState me env w = Ret (r, env) w' /\
    state_ (ut w') = requested_state_ (ut w) /\
    prev_cycle_time_point_ (ut w') = prev_cycle_time_point_ (ut w).
Proof.
  intros Hme Hst Hreq Hne Hskip Hin Hpp.
  unfold ProcState, ProcState_skip, ProcState_cycle_wait, ProcState_apply.
  destruct Hst as [Hst | Hst]; destruct Hreq as [Hreq | Hreq];
    try (exfalso; apply Hne; congruence);
    destruct env;
    repeat
      (progress
         (cbn -[N.eqb Z.add int64_wrap ProcState_finish];
          unfold bindM, bindT, thread_exists, thread_id;
          cbn -[N.eqb Z.add int64_wrap ProcState_finish];
          rewrite ?Hme, ?Hst, ?Hreq, ?Hskip, ?Hin, ?N.eqb_refl));
    match goal with
    | |- context [ProcState_finish ?l ?e ?w0] =>
        destruct (ProcState_finish_returns l e w0) as (w' & -> & Hs & Hp);
          [cbn; assumption | cbn; assumption |];
        cbn in Hs, Hp
    end;
    eexists; exists w'; (split; [reflexivity|]); split; assumption.
Qed.

(** ** The moves of [state_] over any run *)

Lemma keeps_track_refl w : keeps_track w w.
Proof.
  intros H. split; [exact H|]. exists []. split; [reflexivity | constructor].
Qed.

Lemma keeps_track_trans w1 w2 w3 :
  keeps_track w1 w2 -> keeps_track w2 w3 -> keeps_track w1 w3.
Proof.
  intros H12 H23 H1. destruct (H12 H1) as (S2 & n1 & L1 & M1).
  destruct (H23 S2) as (S3 & n2 & L2 & M2).
  split; [exact S3|]. exists (n2 ++ n1)%list.
  split; [now rewrite L2, L1, app_assoc|]. eapply moves_app; eauto.
Qed.

Lemma keeps_track_of_quiet w w' : quiet w w' -> keeps_track w w'.
Proof.
  intros [qt qs _ _ _ (new & ql & qf)] H. split.
  - unfold started in *. now rewrite qt, qs.
  - exists new. split; [exact ql|]. rewrite qs. now apply moves_quiet.
Qed.

Lemma keeps_track_of_pass w w' :
  thread_exists (ut w) = true -> pass_post w w' -> keeps_track w w'.
Proof.
  intros Hex (Pt & Pl & new & Plog & Pm & _) _. split.
  - unfold started. rewrite Pt. unfold thread_exists in Hex.
    destruct (thread_ (ut w)); [exact Pl | discriminate].
  - now exists new.
Qed.

Lemma started_live w :
  started w -> thread_exists (ut w) = true -> live (state_ (ut w)) = true.
Proof.
  unfold started, thread_exists. destruct (thread_ (ut w)); [auto | discriminate].
Qed.

Lemma keeps_track_emit o : is_set o = false -> pres keeps_track (emit o).
Proof.
  intros Ho w H. split; [exact H|]. exists [o]. split; [reflexivity|].
  apply moves_other; [constructor | exact Ho].
Qed.

Lemma keeps_track_modify (f : UThread -> UThread) :
  (forall u, thread_ (f u) = thread_ u /\ state_ (f u) = state_ u) ->
  pres keeps_track (modify f).
Proof.
  intros Hf w H. destruct (Hf (ut w)) as [Ht Hs]. split.
  - unfold started in *. cbn. now rewrite Ht, Hs.
  - exists []. split; [reflexivity|]. cbn. rewrite Hs. constructor.
Qed.

Lemma keeps_track_call_listeners : pres keeps_track call_listeners.
Proof.
  intros w H. unfold call_listeners. cbn [world_of].
  destruct (call_listeners_log (state_ (ut w)) (prev_state_ (ut w))
              (state_change_listeners_ (ut w)) w) as (a & new & c & d).
  split.
  - unfold started in *. now rewrite a.
  - exists new. split; [exact c|]. rewrite a. apply moves_no_set.
    eapply Forall_impl; [|exact d]. now intros o [Ho _].
Qed.

(** The last two statements of [_mainThreadFunc]. *)
Lemma keeps_track_exited :
  pres keeps_track (SetStateInternal kExited ;;; modify (set_thread_ None)).
Proof.
  intros w H. open_world w. cbn. split; [reflexivity|].
  exists [SetState st kExited]. split; [reflexivity|].
  apply moves_set; [constructor|].
  unfold started in H. cbn in H.
  destruct thr; [right | left; exact H].
  destruct st; try discriminate; reflexivity.
Qed.

Lemma keeps_track_mainThreadFunc_exit r : pres keeps_track (mainThreadFunc_exit r).
Proof.
  unfold mainThreadFunc_exit.
  apply (pres_bind keeps_track keeps_track_trans);
    [apply (pres_get keeps_track keeps_track_refl)|]. intros u.
  apply (pres_bind keeps_track keeps_track_trans).
  { destruct (0 <? state_ready_wait_count_ u).
    - repeat (apply (pres_bind keeps_track keeps_track_trans); [|intros _]);
        now apply keeps_track_emit.
    - apply (pres_assert keeps_track keeps_track_refl). }
  intros _. apply (pres_bind keeps_track keeps_track_trans).
  { apply keeps_track_modify. now intros []. }
  intros _. apply (pres_bind keeps_track keeps_track_trans);
    [apply keeps_track_call_listeners|].
  intros _. apply keeps_track_exited.
Qed.

(** A call other than [Start] is quiet on any object. *)
Lemma quiet_ext_apply_other c w :
  restarts (OpCall c) = false -> quiet w (ext_apply c w).
Proof.
  intros H. destruct c; cbn [ext_apply]; try discriminate H.
  - apply quiet_RequestState.
  - apply quiet_RequestState_loop.
  - apply quiet_StateWaitFor.
  - apply quiet_StateCondWaitUntil_leave.
  - apply quiet_Exit.
  - apply quiet_Pause.
  - apply quiet_Unpause.
  - apply quiet_set_cycle_wait_type.
  - apply quiet_set_cycle_wait_period.
  - apply quiet_Register.
  - apply quiet_Unregister.
  - apply quiet_RunNCycles.
  - destruct (is_available (ut w)); [apply quiet_Prepare | apply quiet_refl].
  - constructor; auto. exists []. split; auto.
  - constructor; auto. exists []. split; auto.
Qed.

(** Without a thread object the managed thread's calls return at
    once. *)
Lemma ProcState_not_started me env w :
  thread_exists (ut w) = false -> world_of (ProcState me env w) = w.
Proof.
  intros H. unfold ProcState, bindM, get, assert. now rewrite H.
Qed.

Lemma Sleep_not_started me d env w :
  thread_exists (ut w) = false -> world_of (Sleep me d env w) = w.
Proof.
  intros H. unfold Sleep, bindM, get. now rewrite H.
Qed.

Lemma SetSelfExiting_not_started fuel me env w :
  thread_exists (ut w) = false -> world_of (SetSelfExiting fuel me env w) = w.
Proof.
  intros H. unfold SetSelfExiting, bindM, get, is_current_thread.
  unfold thread_exists in H. destruct (thread_ (ut w)); [discriminate | reflexivity].
Qed.

Lemma SetSelfExiting_pass fuel me env w :
  thread_exists (ut w) = true -> live (state_ (ut w)) = true ->
  pass_post w (world_of (SetSelfExiting fuel me env w)).
Proof.
  intros Hex Hl. unfold SetSelfExiting, bindM at 1. unfold get at 1.
  destruct (negb (is_current_thread me (ut w))).
  { apply pass_post_quiet; [exact Hl | apply quiet_refl]. }
  unfold bindM at 1.
  pose proof (quiet_RequestState_b fuel me kExiting kOff w) as Q.
  destruct (RequestState_b fuel me kExiting kOff w) as [res w1|c w1|w1|w1];
    cbn [world_of] in Q; try (now apply pass_post_quiet).
  destruct (negb (Result_eqb SUCCESS res)).
  { now apply pass_post_quiet. }
  eapply pass_post_after_quiet; [exact Q|].
  assert (P : pass_post w1 (world_of (ProcState me env w1))).
  { apply ProcState_pass.
    - eapply quiet_thread_exists; eauto.
    - now rewrite (q_state _ _ Q). }
  unfold bindT. destruct (ProcState me env w1) as [[a env'] w2|c w2|w2|w2]; exact P.
Qed.

(** One operation. *)
Lemma exec_keeps_track op w :
  restarts op && negb (thread_exists (ut w)) = false ->
  keeps_track w (exec op w).
Proof.
  intros Hr. destruct op as [c|env|d env|env|r]; cbn [exec].
  - destruct (thread_exists (ut w)) eqn:Hex.
    + apply keeps_track_of_quiet, quiet_ext_apply, Hex.
    + apply keeps_track_of_quiet, quiet_ext_apply_other.
      rewrite andb_true_r in Hr. exact Hr.
  - destruct (thread_exists (ut w)) eqn:Hex.
    + intros H. apply keeps_track_of_pass; [exact Hex | | exact H].
      apply ProcState_pass; [exact Hex | now apply started_live].
    + rewrite ProcState_not_started by exact Hex. apply keeps_track_refl.
  - destruct (thread_exists (ut w)) eqn:Hex.
    + apply keeps_track_of_quiet. now apply calm_Sleep.
    + rewrite Sleep_not_started by exact Hex. apply keeps_track_refl.
  - destruct (thread_exists (ut w)) eqn:Hex.
    + intros H. apply keeps_track_of_pass; [exact Hex | | exact H].
      apply SetSelfExiting_pass; [exact Hex | now apply started_live].
    + rewrite SetSelfExiting_not_started by exact Hex. apply keeps_track_refl.
  - destruct (thread_exists (ut w)).
    + apply keeps_track_mainThreadFunc_exit.
    + apply keeps_track_refl.
Qed.

Lemma run_ops_keeps_track ops : forall w,
  no_restart ops w = true -> keeps_track w (run_ops ops w).
Proof.
  induction ops as [|op ops IH]; intros w H.
  - apply keeps_track_refl.
  - cbn [no_restart] in H. apply andb_true_iff in H. destruct H as [H1 H2].
    apply negb_true_iff in H1.
    change (run_ops (op :: ops) w) with (run_ops ops (exec op w)).
    eapply keeps_track_trans; [apply exec_keeps_track, H1 | apply IH, H2].
Qed.

(** [Start] on an object without a thread leaves it in [kInit]. *)
Lemma Start_init fuel me t block w :
  thread_exists (ut w) = false ->
  started (world_of (Start fuel me t block w)) /\
  state_ (ut (world_of (Start fuel me t block w))) = kInit.
Proof.
  intros H. open_world w. destruct thr; [discriminate|]. clear H.
  unfold Start, InitThread. destruct block.
  - cbn. auto.
  - unfold bind, get, assert, modify, emit, ret. cbn -[StateWait].
    match goal with
    | |- context [StateWait ?f ?m ?s ?w1] =>
        pose proof (quiet_StateWait f m s w1) as Q;
        destruct (StateWait f m s w1) as [res w2|c w2|w2|w2]
    end;
      cbn [world_of] in *; destruct Q as [qt qs _ _ _ _];
      unfold started; rewrite qt, qs; cbn; auto.
Qed.

Lemma moves_to_init s new s' : moves s new s' -> s' = kInit -> s = kInit.
Proof.
  induction 1 as [s|s l s' o H IH Ho|s l p n H IH He]; intros E; auto.
  destruct He as [He|He]; [subst p; auto|].
  subst n. destruct p; discriminate.
Qed.

(** C1, as stated, fails: [state_] leaves [kInit] for [kGo] when [kGo]
    is requested before the first pass through [ProcState]; it goes from
    [kGo] to [kExited] when the thread function returns; and [Start] on
    an object whose thread function has returned puts it back in
    [kInit]. *)
Lemma state_leaves_the_diagram :
  (state_ (ut w_init) = kInit /\
   hd_error (filter is_set
     (log (run_ops [OpCall (CallRequestState 1%N kGo 0); OpProcState []] w_init)))
   = Some (SetState kInit kGo) /\
   diagram_edge kInit kGo = false)
  /\ (state_ (ut w_go) = kGo /\
      hd_error (log (run_ops [OpReturn SUCCESS] w_go)) = Some (SetState kGo kExited) /\
      diagram_edge kGo kExited = false)
  /\ (state_ (ut w_exited) = kExited /\
      state_ (ut (run_ops [OpCall (CallStart 1%N 8%N kOff)] w_exited)) = kInit).
Proof.
  repeat split; vm_compute; reflexivity.
Qed.

(** C1 (as amended): over any run of operations on a started object in
    which [Start] is not called again after the thread function has
    returned, every [SetStateInternal] starts from the state reached so
    far and either re-applies it or follows one of
    [kInit -> kIdle | kGo | kExiting | kExited],
    [kIdle -> kGo | kExiting | kExited],
    [kGo -> kIdle | kExiting | kExited], [kExiting -> kExited],
    and nothing else writes [state_].  So from [kExiting] the state only
    goes to [kExited], [kExited] is never left, and [kInit] is never
    entered again. *)
Theorem state_moves_along_edges ops w :
  started w ->
  no_restart ops w = true ->
  started (run_ops ops w)
  /\ (exists new,
        log (run_ops ops w) = (new ++ log w)%list /\
        moves (state_ (ut w)) new (state_ (ut (run_ops ops w))))
  /\ (state_ (ut w) = kExiting ->
      state_ (ut (run_ops ops w)) = kExiting \/
      state_ (ut (run_ops ops w)) = kExited)
  /\ (state_ (ut w) = kExited -> state_ (ut (run_ops ops w)) = kExited)
  /\ (state_ (ut (run_ops ops w)) = kInit -> state_ (ut w) = kInit).
Proof.
  intros Hs Hr.
  destruct (run_ops_keeps_track ops w Hr Hs) as (S' & new & Hl & Hm).
  split; [exact S'|]. split; [now exists new|]. split; [|split].
  - intros E. eapply moves_from_exiting; eauto.
  - intros E. eapply moves_from_exited; eauto.
  - intros E. eapply moves_to_init; eauto.
Qed.

Lemma state_moves_along_edges_witness :
  started w_go /\ no_restart ops_exit w_go = true /\
  exists new,
    log (run_ops ops_exit w_go) = (new ++ log w_go)%list /\
    moves (state_ (ut w_go)) new (state_ (ut (run_ops ops_exit w_go))).
Proof.
  assert (Hs : started w_go) by (vm_compute; reflexivity).
  assert (Hr : no_restart ops_exit w_go = true) by (vm_compute; reflexivity).
  split; [exact Hs | split; [exact Hr |]].
  exact (proj1 (proj2 (state_moves_along_edges ops_exit w_go Hs Hr))).
Defined.

(** * Further properties of the code *)


(** * More properties *)

(** ** [Result] *)

Lemma String_eqb_sym (a b : string) : String.eqb a b = String.eqb b a.
Proof.
  destruct (String.eqb_spec a b) as [->|H].
  - symmetry. apply String.eqb_refl.
  - symmetry. apply String.eqb_neq. congruence.
Qed.

(** X1: [operator==] of [Result] is an equivalence: reflexive,
    symmetric and transitive, the special treatment of two results with
    the default code included. *)
Theorem Result_eqb_equivalence (a b c : Result) :
  Result_eqb a a = true
  /\ Result_eqb a b = Result_eqb b a
  /\ (Result_eqb a b = true -> Result_eqb b c = true -> Result_eqb a c = true).
Proof.
  destruct a as [ca ma], b as [cb mb], c as [cc mc].
  unfold Result_eqb. cbn [code_ message_].
  generalize DEFAULT_ERROR_CODE. intros d. split; [|split].
  - destruct (d =? ca); cbn [andb].
    + destruct ma; [apply String.eqb_refl | reflexivity].
    + apply Z.eqb_refl.
  - rewrite (andb_comm (d =? cb)), (Z.eqb_sym cb ca).
    destruct ((d =? ca) && (d =? cb)); [|reflexivity].
    destruct ma, mb; try reflexivity. apply String_eqb_sym.
  - destruct (Z.eqb_spec d ca) as [Ha|Ha], (Z.eqb_spec d cb) as [Hb|Hb],
             (Z.eqb_spec d cc) as [Hc|Hc]; cbn [andb];
      rewrite ?Z.eqb_eq; try congruence.
    destruct ma, mb, mc; try congruence.
    rewrite !String.eqb_eq. congruence.
Qed.

(** X2: [Prepend] and [Append] keep the code, so a result stays a
    success (or an error) whatever is written into its message; and a
    result whose code is not the default one still compares equal to
    what it was. *)
Theorem Prepend_Append_keep_code (msg : string) (r : Result) :
  code_ (Prepend msg r) = code_ r
  /\ code_ (Append msg r) = code_ r
  /\ is_success (Prepend msg r) = is_success r
  /\ is_error (Prepend msg r) = is_error r
  /\ is_success (Append msg r) = is_success r
  /\ is_error (Append msg r) = is_error r
  /\ (code_ r <> DEFAULT_ERROR_CODE ->
      Result_eqb (Prepend msg r) r = true /\ Result_eqb r (Prepend msg r) = true
      /\ Result_eqb (Append msg r) r = true /\ Result_eqb r (Append msg r) = true).
Proof.
  assert (P : code_ (Prepend msg r) = code_ r)
    by (unfold Prepend; destruct (message_ r); [destruct (has_message r)|]; reflexivity).
  assert (A : code_ (Append msg r) = code_ r)
    by (unfold Append; destruct (message_ r); [destruct (has_message r)|]; reflexivity).
  unfold is_success, is_error, Result_eqb. rewrite P, A.
  repeat split; try reflexivity;
    apply Z.eqb_neq in H; rewrite Z.eqb_sym in H; rewrite H;
    rewrite ?andb_false_r; cbn [andb]; apply Z.eqb_refl.
Qed.

Lemma Prepend_Append_keep_code_witness :
  Result_eqb (Prepend "Thread sleep was interrupted" SUCCESS) SUCCESS = true.
Proof.
  apply (proj2 (proj2 (proj2 (proj2 (proj2 (proj2
           (Prepend_Append_keep_code "Thread sleep was interrupted" SUCCESS))))))).
  discriminate.
Defined.

(** X3: [Clear] gives a result that compares equal to a
    default-constructed one only if no message string had been stored:
    otherwise the emptied string is still there, and [operator==]
    tells it from none.  Either way the result has the default code, no
    message to show, and is neither a success nor an error. *)
Theorem Clear_vs_default (r : Result) :
  code_ (Clear r) = DEFAULT_ERROR_CODE
  /\ has_message (Clear r) = false
  /\ is_success (Clear r) = false
  /\ is_error (Clear r) = false
  /\ Result_eqb (Clear r) Result_default
     = match message_ r with None => true | Some _ => false end.
Proof.
  destruct r as [c [m|]]; repeat split.
Qed.


Lemma append_assoc (a b c : string) : ((a ++ b) ++ c = a ++ (b ++ c))%string.
Proof. induction a as [|x a IH]; cbn; [reflexivity | now rewrite IH]. Qed.

Lemma append_not_empty (a b : string) : a <> "" -> (a ++ b)%string <> "".
Proof. destruct a; [congruence | discriminate]. Qed.

Lemma has_message_Some c (m : string) :
  m <> "" -> has_message (mkResult c (Some m)) = true.
Proof.
  intros H. unfold has_message. cbn. apply negb_true_iff, String.eqb_neq, H.
Qed.

(** X4: [Prepend] and [Append] of non-empty strings commute: the
    message reads front, old message, back, whichever was written
    first.  With an empty front string and no message yet they do not:
    the order of the calls shows in the message. *)
Theorem Prepend_Append_commute (a b : string) (r : Result) :
  b <> "" ->
  (a <> "" -> Prepend a (Append b r) = Append b (Prepend a r))
  /\ (has_message r = false ->
      message_ (Prepend "" (Append b r)) = Some (": " ++ b)
      /\ message_ (Append b (Prepend "" r)) = Some b).
Proof.
  intros Hb. destruct r as [c m]. split.
  - intros Ha. unfold Prepend at 2, Append at 1. cbn [message_ code_].
    destruct m as [m|]; [destruct (has_message (mkResult c (Some m))) eqn:Hm|].
    + assert (Hm' : m <> "").
      { unfold has_message in Hm. cbn in Hm.
        now apply negb_true_iff, String.eqb_neq in Hm. }
      unfold Prepend, Append. cbn [message_ code_].
      rewrite !has_message_Some by (now apply append_not_empty).
      now rewrite !append_assoc.
    + unfold Prepend, Append. cbn [message_ code_].
      now rewrite !has_message_Some.
    + unfold Prepend, Append. cbn [message_ code_].
      now rewrite !has_message_Some.
  - intros Hm. unfold Prepend at 2, Append at 1. cbn [message_ code_].
    assert (E : forall x, (match m with
                 | Some m0 => if has_message (mkResult c m) then mkResult c (Some (x m0))
                              else mkResult c (Some b)
                 | None => mkResult c (Some b) end) = mkResult c (Some b)).
    { intros x. destruct m; [now rewrite Hm | reflexivity]. }
    split.
    + destruct m; [rewrite Hm|]; unfold Prepend; cbn [message_ code_];
        now rewrite has_message_Some.
    + destruct m; [rewrite Hm|]; unfold Append; cbn [message_ code_];
        reflexivity.
Qed.

Lemma Prepend_Append_commute_witness :
  Prepend "outer" (Append "detail" NOT_INIT)
  = Append "detail" (Prepend "outer" NOT_INIT).
Proof.
  apply (proj1 (Prepend_Append_commute "outer" "detail" NOT_INIT
                  ltac:(discriminate))).
  discriminate.
Defined.

(** ** [TimePoint] *)

(** X5: [AverageTimePoints] never overflows, and what it returns is
    within one nanosecond of the mean: twice the result differs from the
    sum by at most two, and by nothing when both time points are even.
    The average of a time point with itself is not always that time
    point. *)
Theorem AverageTimePoints_bounds (first second : TimePoint) :
  in_int64 first -> in_int64 second ->
  AverageTimePoints first second = Z.quot first 2 + Z.quot second 2
  /\ in_int64 (AverageTimePoints first second)
  /\ Z.abs (2 * AverageTimePoints first second - (first + second)) <= 2
  /\ Z.min first second - 1 <= AverageTimePoints first second
     <= Z.max first second + 1
  /\ (Z.even first = true -> Z.even second = true ->
      2 * AverageTimePoints first second = first + second)
  /\ AverageTimePoints 1 1 = 0.
Proof.
  intros Ha Hb. unfold in_int64, int64_min, int64_max in *.
  pose proof (Z.quot_rem' first 2) as Ea.
  pose proof (Z.quot_rem' second 2) as Eb.
  assert (Ra : -1 <= Z.rem first 2 <= 1
               /\ (0 <= first -> 0 <= Z.rem first 2)
               /\ (first <= 0 -> Z.rem first 2 <= 0)).
  { pose proof (Z.rem_bound_abs first 2).
    pose proof (Z.rem_nonneg first 2). pose proof (Z.rem_nonpos first 2). lia. }
  assert (Rb : -1 <= Z.rem second 2 <= 1
               /\ (0 <= second -> 0 <= Z.rem second 2)
               /\ (second <= 0 -> Z.rem second 2 <= 0)).
  { pose proof (Z.rem_bound_abs second 2).
    pose proof (Z.rem_nonneg second 2). pose proof (Z.rem_nonpos second 2). lia. }
  assert (E : AverageTimePoints first second = Z.quot first 2 + Z.quot second 2).
  { unfold AverageTimePoints. apply int64_wrap_id.
    unfold in_int64, int64_min, int64_max. lia. }
  rewrite E. split; [reflexivity|]. split; [lia|]. split; [lia|]. split; [lia|].
  split; [|reflexivity].
  intros Va Vb.
  apply Z.even_spec in Va, Vb. destruct Va as [x Hx], Vb as [y Hy].
  subst first second. rewrite !(Z.mul_comm 2), !Z.quot_mul by lia. lia.
Qed.

Lemma AverageTimePoints_bounds_witness :
  AverageTimePoints 7 10 = 8 /\
  Z.abs (2 * AverageTimePoints 7 10 - (7 + 10)) <= 2.
Proof.
  destruct (AverageTimePoints_bounds 7 10) as (_ & _ & H & _).
  - unfold in_int64, int64_min, int64_max. lia.
  - unfold in_int64, int64_min, int64_max. lia.
  - split; [reflexivity | exact H].
Defined.

(** ** Pause and unpause *)

(** X6: [Pause] on a started thread that is neither paused nor being
    shut down, and that is not sleeping between two cycles in [kGo],
    only marks the pause as pending and returns success; asked again
    it does the same; and [Unpause] before the thread has reached its
    next checkpoint takes the mark back: the object is exactly as it was
    before the two calls. *)
Theorem Pause_then_Unpause (w : World) :
  thread_exists (ut w) = true ->
  is_paused_ (ut w) = false ->
  is_pause_pending_ (ut w) = false ->
  is_available (ut w) = true ->
  (kGo ==s state_ (ut w)) && is_between_cycles_ (ut w) = false ->
  let w1 := set_ut (set_is_pause_pending_ true (ut w)) w in
  Pause w = Ret SUCCESS w1
  /\ Pause w1 = Ret SUCCESS w1
  /\ Unpause w1 = Ret SUCCESS w
  /\ exists r, Unpause w = Ret r w /\ code_ r = STATE_ALREADY_EFFECTIVE_CODE.
Proof.
  intros Hex Hp Hpp Hav Hbc. open_world w. known_thread. subst paused ppend.
  unfold is_available in *. cbn in Hav.
  unfold Pause, Unpause, bind, get, is_available, thread_exists. cbn.
  rewrite Hav, Hbc. cbn.
  repeat split. eexists. split; reflexivity.
Qed.

Lemma Pause_then_Unpause_witness :
  exists w1,
    Pause w_idle = Ret SUCCESS w1 /\ Unpause w1 = Ret SUCCESS w_idle.
Proof.
  destruct (Pause_then_Unpause w_idle) as (H1 & _ & H3 & _);
    try (vm_compute; reflexivity).
  eexists. split; [exact H1 | exact H3].
Defined.

(** X7: the failures of [Pause] and [Unpause], in the order the code
    tests for them: not started; already paused; exiting or exited (or
    about to be).  [Unpause] on a paused thread signals [unpause_cond_].
    No failure changes the object. *)
Theorem Pause_Unpause_failures (w : World) :
  (thread_exists (ut w) = false ->
   (exists r, Pause w = Ret r w /\ code_ r = NOT_INIT_CODE) /\
   (exists r, Unpause w = Ret r w /\ code_ r = NOT_INIT_CODE))
  /\ (thread_exists (ut w) = true -> is_paused_ (ut w) = true ->
      (exists r, Pause w = Ret r w /\ code_ r = STATE_ALREADY_EFFECTIVE_CODE) /\
      (is_pause_pending_ (ut w) = false ->
       Unpause w = Ret SUCCESS (set_log (NotifyOne unpause_cond_ :: log w) w)))
  /\ (thread_exists (ut w) = true -> is_paused_ (ut w) = false ->
      is_available (ut w) = false ->
      exists r, Pause w = Ret r w /\ code_ r = RESOURCE_UNAVAILABLE_CODE).
Proof.
  split; [|split].
  - intros Hex. open_world w. destruct thr; [discriminate|].
    split; eexists; split; reflexivity.
  - intros Hex Hp. open_world w. known_thread. subst paused. split.
    + eexists; split; reflexivity.
    + intros Hpp. cbn in Hpp. subst ppend. reflexivity.
  - intros Hex Hp Hav. open_world w. known_thread. subst paused.
    unfold is_available in Hav. cbn in Hav.
    unfold Pause, bind, get, is_available, thread_exists. cbn. rewrite Hav. cbn.
    eexists; split; reflexivity.
Qed.

(** ** Waiting for a state *)


(** X9: a zero timeout is not a poll.  From another thread, on a started
    thread in [kInit], [kIdle] or [kGo], [StateWaitFor] with timeout zero
    for [kGo] or [kIdle] returns success at once although the state is
    another one; for [kExiting] or [kExited] it goes round its loop
    without ever waiting or returning, the state lock held. *)
Theorem StateWaitFor_zero_timeout me desired_state w :
  thread_exists (ut w) = true ->
  is_current_thread me (ut w) = false ->
  running (state_ (ut w)) = true ->
  state_ (ut w) <> desired_state ->
  (desired_state = kGo \/ desired_state = kIdle ->
   forall fuel, StateWaitFor (S fuel) me desired_state 0 w = Ret SUCCESS w)
  /\ (desired_state = kExiting \/ desired_state = kExited ->
      forall fuel, StateWaitFor fuel me desired_state 0 w = OutOfFuel w).
Proof.
  intros Hex Hme Hrun Hne. open_world w. unfold is_current_thread in Hme.
  cbn in Hme. destruct thr as [t|]; [|discriminate].
  unfold StateWaitFor, bind, get, is_current_thread, thread_exists.
  cbn -[StateWaitFor_loop]. rewrite Hme.
  split.
  - intros [-> | ->] fuel; destruct st; try discriminate; try congruence;
      reflexivity.
  - intros Hd fuel.
    assert (Hk : (kInit ==s desired_state) = false)
      by (destruct Hd as [-> | ->]; reflexivity).
    rewrite Hk.
    induction fuel as [|fuel IH]; [reflexivity|].
    destruct Hd as [-> | ->]; destruct st; try discriminate;
      cbn -[StateWaitFor_loop]; cbn -[StateWaitFor_loop] in IH; exact IH.
Qed.

Lemma StateWaitFor_zero_timeout_witness :
  state_ (ut w_idle) = kIdle /\
  StateWaitFor 1 1%N kGo 0 w_idle = Ret SUCCESS w_idle /\
  StateWaitFor 5 1%N kExited 0 w_idle = OutOfFuel w_idle.
Proof.
  destruct (StateWaitFor_zero_timeout 1%N kGo w_idle) as [H1 _];
    try (vm_compute; reflexivity); try (vm_compute; discriminate).
  destruct (StateWaitFor_zero_timeout 1%N kExited w_idle) as [_ H2];
    try (vm_compute; reflexivity); try (vm_compute; discriminate).
  split; [vm_compute; reflexivity|]. split; [apply H1; auto | apply H2; auto].
Defined.

(** ** Shutting down *)



(** X11: a pending request for [kExiting] cannot be overridden.  While
    it is pending, [RequestState] for [kGo] or [kIdle], blocking or not
    and from any thread, fails with shutting-down and leaves the request
    in place; all it does is to signal [unpause_cond_] if the thread is
    paused. *)
Theorem pending_exit_wins fuel me newstate timeout w :
  thread_exists (ut w) = true ->
  running (state_ (ut w)) = true ->
  requested_state_ (ut w) = kExiting ->
  asserts_hold (ut w) ->
  newstate = kGo \/ newstate = kIdle ->
  let w' := if is_paused_ (ut w)
            then set_log (NotifyOne unpause_cond_ :: log w) w else w in
  exists r,
    RequestState fuel me newstate timeout w = Ret r w' /\
    code_ r = SHUTTING_DOWN_CODE /\
    requested_state_ (ut w') = kExiting.
Proof.
  intros Hex Hrun Hreq [Hj Hp] Hn. open_world w. known_thread. subst joined req.
  unfold RequestState, RequestState_unlocked, RequestState_locked,
    RequestState_submit, Unpause, bind, get, thread_exists.
  destruct paused.
  - rewrite (Hp eq_refl).
    destruct Hn as [-> | ->]; destruct st; try discriminate; cbn;
      eexists; repeat split.
  - destruct Hn as [-> | ->]; destruct st; try discriminate; cbn;
      eexists; repeat split.
Qed.

Lemma pending_exit_wins_witness :
  exists r w',
    RequestState 1 1%N kGo 0 (world_of (Exit 1 1%N kOff w_go)) = Ret r w' /\
    code_ r = SHUTTING_DOWN_CODE /\ requested_state_ (ut w') = kExiting.
Proof.
  destruct (pending_exit_wins 1 1%N kGo 0 (world_of (Exit 1 1%N kOff w_go)))
    as (r & H1 & H2 & H3).
  - vm_compute; reflexivity.
  - vm_compute; reflexivity.
  - vm_compute; reflexivity.
  - split; vm_compute; [reflexivity | discriminate].
  - left; reflexivity.
  - eexists. eexists. split; [exact H1 | split; [exact H2 | exact H3]].
Defined.

(** ** State-change listeners *)

Lemma filter_out_absent (h : ListenerHandle) l :
  ~ In h l -> filter (fun x => negb (N.eqb h x)) l = l.
Proof.
  induction l as [|x l IH]; intros H; cbn; [reflexivity|].
  destruct (N.eqb_spec h x) as [->|Hx]; cbn.
  - exfalso. apply H. now left.
  - rewrite IH; [reflexivity|]. intros Hin. apply H. now right.
Qed.

Lemma existsb_absent (h : ListenerHandle) l :
  ~ In h l -> existsb (N.eqb h) l = false.
Proof.
  intros H. destruct (existsb (N.eqb h) l) eqn:E; [|reflexivity].
  apply existsb_exists in E. destruct E as (x & Hin & Hx).
  apply N.eqb_eq in Hx. subst x. contradiction.
Qed.

(** X12: the handles of state-change listeners.  As long as every
    registered handle is below the counter (as it is on a new object,
    and as these two calls keep it) and the counter is not at the last
    value of its type, [RegisterStateChangeListener] returns a handle
    that is not registered, and keeps it that way;
    [UnregisterStateChangeListener] of that handle succeeds and gives
    back the listeners there were before, without reusing the handle; a
    second one, like that of any handle not registered, fails with
    not-registered and changes nothing. *)
Theorem listener_handles (w : World) :
  handles_fresh (ut w) ->
  (next_state_change_listener_handle_ (ut w) < 2 ^ 64 - 1)%N ->
  let h := next_state_change_listener_handle_ (ut w) in
  exists w1 w2,
    RegisterStateChangeListener w = Ret h w1 /\
    ~ In h (state_change_listeners_ (ut w)) /\
    state_change_listeners_ (ut w1) = h :: state_change_listeners_ (ut w) /\
    handles_fresh (ut w1) /\
    UnregisterStateChangeListener h w1 = Ret SUCCESS w2 /\
    state_change_listeners_ (ut w2) = state_change_listeners_ (ut w) /\
    next_state_change_listener_handle_ (ut w2) = N.succ h /\
    handles_fresh (ut w2) /\
    (forall h', ~ In h' (state_change_listeners_ (ut w2)) ->
       exists r, UnregisterStateChangeListener h' w2 = Ret r w2 /\
                 code_ r = NOT_REGISTERED_CODE) /\
    ~ In h (state_change_listeners_ (ut w2)).
Proof.
  intros Hf _ h. unfold handles_fresh in *. open_world w. subst h.
  assert (Hn : ~ In nexth lsn).
  { intros Hin. rewrite Forall_forall in Hf. specialize (Hf _ Hin). lia. }
  assert (Hf' : Forall (fun h => (h < N.succ nexth)%N) lsn).
  { eapply Forall_impl; [|exact Hf]. cbn. intros. lia. }
  eexists. eexists. unfold RegisterStateChangeListener, bind, get. cbn.
  split; [reflexivity|]. split; [exact Hn|]. split; [reflexivity|].
  split; [constructor; [apply N.lt_succ_diag_r | exact Hf']|].
  unfold UnregisterStateChangeListener, bind, get. cbn.
  rewrite N.eqb_refl. cbn. rewrite (filter_out_absent _ _ Hn).
  split; [reflexivity|]. split; [reflexivity|]. split; [reflexivity|].
  split; [exact Hf'|]. split; [|exact Hn].
  intros h' Hh'. rewrite (existsb_absent _ _ Hh').
  eexists. split; reflexivity.
Qed.

Lemma listener_handles_witness :
  exists w1 w2,
    RegisterStateChangeListener w_go = Ret 0%N w1 /\
    UnregisterStateChangeListener 0%N w1 = Ret SUCCESS w2 /\
    state_change_listeners_ (ut w2) = [].
Proof.
  destruct (listener_handles w_go) as (w1 & w2 & H1 & _ & _ & _ & H2 & H3 & _).
  - vm_compute. constructor.
  - vm_compute. reflexivity.
  - exists w1, w2. split; [exact H1|]. split; [exact H2 | exact H3].
Defined.

(** ** The end of the thread function *)

Lemma call_listeners_entries s p hs : forall w0,
  let w' := fold_left (fun w h => set_log (Listener h s p :: log w) w) hs w0 in
  ut w' = ut w0 /\ clock w' = clock w0 /\ clock_reads w' = clock_reads w0 /\
  go_state_pending_count w' = go_state_pending_count w0 /\
  log w' = (rev (map (fun h => Listener h s p) hs) ++ log w0)%list.
Proof.
  induction hs as [|h hs IH]; intros w0; cbn [fold_left map rev].
  - repeat split.
  - destruct (IH (set_log (Listener h s p :: log w0) w0)) as (a & b & c & d & e).
    repeat split; try assumption.
    rewrite e. cbn [log set_log]. now rewrite <- app_assoc.
Qed.

(** X13: when the thread function returns [thread_result] on a started
    object with nobody miscounted as waiting, [_mainThreadFunc] wakes
    the waiters if there are any, stores the result, calls every
    registered listener once (in some order), with the state the thread
    was in and the one before it (not with [kExited]), then applies
    [kExited] and lets go of the thread object. *)
Theorem thread_function_returns thread_result w :
  0 <= state_ready_wait_count_ (ut w) ->
  let waking :=
    if 0 <? state_ready_wait_count_ (ut w)
    then [NotifyAll go_ready_cond_; NotifyAll idle_ready_cond_;
          NotifyAll state_ready_cond_]
    else [] in
  exists w' told,
    mainThreadFunc_exit thread_result w = Ret tt w' /\
    thread_ (ut w') = None /\
    state_ (ut w') = kExited /\
    prev_state_ (ut w') = state_ (ut w) /\
    thread_func_result_ (ut w') = thread_result /\
    log w' = (SetState (state_ (ut w)) kExited :: told ++ waking ++ log w)%list /\
    (forall o, In o told <->
               exists h, In h (state_change_listeners_ (ut w)) /\
                         o = Listener h (state_ (ut w)) (prev_state_ (ut w))) /\
    List.length told = List.length (state_change_listeners_ (ut w)).
Proof.
  open_world w. cbn -[fold_left Z.ltb mainThreadFunc_exit]. intros Hw.
  assert (Hin : forall o, In o (rev (map (fun h => Listener h st prv) lsn)) <->
               exists h, In h lsn /\ o = Listener h st prv).
  { intros o. rewrite <- in_rev, in_map_iff.
    split; intros (h & A & B); exists h; auto. }
  unfold mainThreadFunc_exit, call_listeners, SetStateInternal, bind, get.
  assert (E : (0 <? wcount) = false -> (0 =? wcount) = true)
    by (intros H; apply Z.eqb_eq; apply Z.ltb_ge in H; lia).
  cbn -[fold_left Z.ltb Z.eqb].
  destruct (0 <? wcount) eqn:Hpos; [|rewrite (E eq_refl)]; cbn -[fold_left];
    match goal with
    | |- context [fold_left ?f lsn ?w0] =>
        destruct (call_listeners_entries st prv lsn w0) as (a & b & c & d & e);
        cbv zeta in a, b, c, d, e;
        destruct (fold_left f lsn w0) as [u1 pend1 clk1 reads1 lg1]
    end;
    cbn in a, e; subst u1 lg1; cbn;
    (eexists; exists (rev (map (fun h => Listener h st prv) lsn)); repeat split;
     first [reflexivity | exact (proj1 (Hin _)) | exact (proj2 (Hin _))
           | now rewrite length_rev, length_map]).
Qed.

Lemma thread_function_returns_witness :
  exists w',
    mainThreadFunc_exit NOT_IMPLEMENTED w_go = Ret tt w' /\
    thread_func_result_ (ut w') = NOT_IMPLEMENTED /\
    state_ (ut w') = kExited.
Proof.
  destruct (thread_function_returns NOT_IMPLEMENTED w_go)
    as (w' & told & H1 & _ & H3 & _ & H5 & _).
  - vm_compute. discriminate.
  - exists w'. split; [exact H1 | split; [exact H5 | exact H3]].
Defined.

(** ** A blocking request from another thread *)

(** Runs a call on an opened world: reduces, leaving the tests on states,
    thread ids and times alone, and rewrites with [rw], again and
    again. *)
Ltac run_call rw :=
  repeat
    (progress
       (cbn -[State_eqb N.eqb Z.eqb Z.ltb Z.leb Z.add Z.sub int64_wrap
              int32_wrap Duration_Min Prepend String.append StateToString
              deadline_of];
        rw)).

(** X14: a blocking [RequestState] made by another thread for a state
    the thread is not in records the request, signals [go_cond_] and
    then waits: on [go_ready_cond_] for [kGo], on [idle_ready_cond_] for
    [kIdle], on [state_ready_cond_] for [kExiting]; without deadline
    when blocking for ever, and otherwise until the timeout after the
    second time it reads the clock (without deadline, again, if that
    sum is the sentinel [TimePoint::Min()]). *)
Theorem blocking_request_waits fuel me newstate timeout w :
  thread_exists (ut w) = true ->
  is_current_thread me (ut w) = false ->
  running (state_ (ut w)) = true ->
  would_record newstate (ut w) = true ->
  is_joined_with_thread_ (ut w) = false ->
  is_paused_ (ut w) = false ->
  timeout = Duration_Min \/ 0 < timeout ->
  let deadline :=
    if timeout =? Duration_Min then None
    else deadline_of (int64_wrap (clock w (S (clock_reads w)) + timeout)) in
  exists w',
    RequestState (S (S fuel)) me newstate timeout w
      = Parked (wait_cond_of newstate) w' /\
    requested_state_ (ut w') = newstate /\
    state_ (ut w') = state_ (ut w) /\
    log w' = Sleeps (wait_cond_of newstate) deadline
               :: NotifyOne go_cond_ :: Request newstate :: log w /\
    state_ready_wait_count_ (ut w')
      = int32_wrap (state_ready_wait_count_ (ut w) + 1).
Proof.
  intros Hex Hme Hrun Hrec Hj Hp Ht. open_world w.
  unfold is_current_thread in Hme. cbn in Hme.
  destruct thr as [t|]; [|discriminate]. subst joined paused.
  unfold would_record in Hrec. cbn -[State_eqb] in Hrec.
  repeat (apply andb_true_iff in Hrec; destruct Hrec as [Hrec ?]).
  repeat match goal with
         | H : negb _ = true |- _ => apply negb_true_iff in H
         end.
  assert (Hs : (st ==s newstate) = false)
    by (destruct st, newstate; try reflexivity; discriminate).
  assert (Hz0 : (0 =? timeout) = false)
    by (apply Z.eqb_neq; unfold Duration_Min, int64_min in Ht; lia).
  assert (Hm : 0 < timeout -> (timeout =? Duration_Min) = false
                              /\ (Duration_Min =? timeout) = false)
    by (intros Hpos; split; apply Z.eqb_neq; unfold Duration_Min, int64_min; lia).
  unfold RequestState, RequestState_unlocked, RequestState_locked,
    RequestState_submit, RequestState_loop, StateWait, StateWaitFor,
    StateWaitFor_loop, StateCondWaitFor_enter, StateCondWaitUntil_enter,
    is_current_thread, bind, get, thread_exists.
  destruct Ht as [-> | Ht].
  - run_call ltac:(rewrite ?Hme, ?Hs, ?Hz0, ?Z.eqb_refl;
                   repeat match goal with
                          | H : _ = false |- _ => rewrite H
                          end).
    eexists; repeat split.
  - destruct (Hm Ht) as [Hm1 Hm2].
    run_call ltac:(rewrite ?Hme, ?Hs, ?Hz0;
                   repeat match goal with
                          | H : _ = false |- _ => rewrite H
                          end).
    eexists; repeat split.
Qed.

Lemma blocking_request_waits_witness :
  exists w',
    RequestState 2 1%N kGo Duration_Min w_idle = Parked go_ready_cond_ w' /\
    requested_state_ (ut w') = kGo.
Proof.
  destruct (blocking_request_waits 0 1%N kGo Duration_Min w_idle)
    as (w' & H1 & H2 & _); try (vm_compute; reflexivity).
  - left; reflexivity.
  - exists w'. split; [exact H1 | exact H2].
Defined.

(** ** The cycle wait by type *)

(** Runs a pass through [ProcState] on an opened world whose state and
    cycle-wait type are known, rewriting with [rw] on the way. *)
Ltac run_proc rw :=
  repeat
    (progress
       (cbn -[N.eqb Z.eqb Z.ltb Z.leb Z.add Z.sub int64_wrap int32_wrap
              Duration_Min ProcState_apply fold_left deadline_of];
        unfold cycle_wait_round, cycle_sleep_period, StateCondWaitFor,
          StateCondWait, StateCondWaitUntil, bindM, bindT, TimePoint_diff,
          Duration_sub;
        cbn -[N.eqb Z.eqb Z.ltb Z.leb Z.add Z.sub int64_wrap int32_wrap
              Duration_Min ProcState_apply fold_left deadline_of];
        rw)).

(** X15: with cycle-wait type [kIndefinite] a pass through [ProcState]
    with nothing requested does not wait at all: the sleep period of the
    loop is never assigned and stays zero.  The pass reads the clock
    once, counts the cycle and returns [kContinue]. *)
Theorem indefinite_cycle_wait_never_waits me env w :
  thread_ (ut w) = Some me ->
  state_ (ut w) = kGo \/ state_ (ut w) = kInit ->
  cycle_wait_type_ (ut w) = kIndefinite ->
  requested_state_ (ut w) = kInvalid ->
  cycle_wait_skip_orig_state_ (ut w) = kInvalid ->
  in_progress (set_state_multiple_info_ (ut w)) = false ->
  is_pause_pending_ (ut w) = false ->
  exists w',
    ProcState me env w = Ret (kContinue, env) w' /\
    log w' = log w /\
    state_ (ut w') = state_ (ut w) /\
    clock_reads w' = S (clock_reads w) /\
    prev_cycle_time_point_ (ut w') = clock w (clock_reads w) /\
    cycle_count_ (ut w') = int64_wrap (cycle_count_ (ut w) + 1).
Proof.
  intros Hme Hst Ht Hreq Hskip Hin Hpp.
  unfold ProcState, ProcState_skip, ProcState_cycle_wait, ProcState_apply,
    ProcState_finish, ProcState_barrier, ConsiderPause_locked.
  destruct Hst as [Hst | Hst]; destruct env;
    run_proc ltac:(unfold thread_exists, thread_id;
                   rewrite ?Hme, ?Hst, ?Ht, ?Hreq, ?Hskip, ?Hin, ?Hpp,
                     ?N.eqb_refl, ?Z.eqb_refl, ?orb_true_r);
    eexists; (split; [reflexivity|]);
    cbn -[int64_wrap int32_wrap Z.add Z.sub]; rewrite ?Hst; repeat split.
Qed.

Lemma indefinite_cycle_wait_never_waits_witness :
  exists w',
    ProcState 7%N [] (world_of (set_cycle_wait_type kIndefinite w_go))
      = Ret (kContinue, []) w' /\
    log w' = log (world_of (set_cycle_wait_type kIndefinite w_go)).
Proof.
  destruct (indefinite_cycle_wait_never_waits 7%N []
              (world_of (set_cycle_wait_type kIndefinite w_go)))
    as (w' & H1 & H2 & _); try (vm_compute; reflexivity).
  - left. vm_compute; reflexivity.
  - exists w'. split; [exact H1 | exact H2].
Defined.


(** X16: with cycle-wait type [kRelative] and a period [P > 0], a pass
    through [ProcState] with nothing requested waits on [go_cond_] until
    [P] after the time it reads (without deadline if that sum is the
    sentinel [TimePoint::Min()]), whatever time has gone by since the
    last cycle. *)
Theorem relative_cycle_wait_sleeps_period me w :
  thread_ (ut w) = Some me ->
  state_ (ut w) = kGo \/ state_ (ut w) = kInit ->
  cycle_wait_type_ (ut w) = kRelative ->
  0 < cycle_wait_period_ (ut w) ->
  requested_state_ (ut w) = kInvalid ->
  cycle_wait_skip_orig_state_ (ut w) = kInvalid ->
  exists w',
    ProcState me [] w = Parked go_cond_ w' /\
    log w' = Sleeps go_cond_
               (deadline_of (int64_wrap (clock w (clock_reads w)
                                         + cycle_wait_period_ (ut w))))
               :: log w /\
    state_ (ut w') = state_ (ut w) /\
    is_between_cycles_ (ut w') = true.
Proof.
  intros Hme Hst Ht HP Hreq Hskip.
  assert (Hpos : (0 <? cycle_wait_period_ (ut w)) = true)
    by (apply Z.ltb_lt; exact HP).
  assert (Hz : (cycle_wait_period_ (ut w) =? 0) = false)
    by (apply Z.eqb_neq; lia).
  assert (Hz' : (0 =? cycle_wait_period_ (ut w)) = false)
    by (apply Z.eqb_neq; lia).
  assert (Hm : (Duration_Min =? cycle_wait_period_ (ut w)) = false)
    by (apply Z.eqb_neq; unfold Duration_Min, int64_min; lia).
  unfold ProcState, ProcState_skip, ProcState_cycle_wait.
  destruct Hst as [Hst | Hst];
    run_proc ltac:(unfold thread_exists, thread_id;
                   rewrite ?Hme, ?Hst, ?Ht, ?Hreq, ?Hskip, ?N.eqb_refl,
                     ?Hpos, ?Hz, ?Hz', ?Hm);
    eexists; (split; [reflexivity|]);
    cbn -[int64_wrap int32_wrap Z.add Z.sub deadline_of]; rewrite ?Hst;
    repeat split.
Qed.

Lemma relative_cycle_wait_sleeps_period_witness :
  exists w',
    ProcState 7%N [] (world_of (set_cycle_wait_type kRelative w_period))
      = Parked go_cond_ w' /\
    hd_error (log w') = Some (Sleeps go_cond_ (Some 7000)).
Proof.
  destruct (relative_cycle_wait_sleeps_period 7%N
              (world_of (set_cycle_wait_type kRelative w_period)))
    as (w' & H1 & H2 & _); try (vm_compute; reflexivity).
  - left. vm_compute; reflexivity.
  - exists w'. split; [exact H1 | rewrite H2; vm_compute; reflexivity].
Defined.


(** X17: with cycle-wait type [kAbsolute] or [kRelative] and a period
    that is zero (as on a new object) or negative, a pass through
    [ProcState] with nothing requested returns [kContinue] at once: it
    neither waits nor reads the clock, and [prev_cycle_time_point_] is
    left as it was. *)
Theorem no_period_no_wait me env w :
  thread_ (ut w) = Some me ->
  state_ (ut w) = kGo \/ state_ (ut w) = kInit ->
  cycle_wait_type_ (ut w) = kAbsolute \/ cycle_wait_type_ (ut w) = kRelative ->
  cycle_wait_period_ (ut w) <= 0 ->
  requested_state_ (ut w) = kInvalid ->
  cycle_wait_skip_orig_state_ (ut w) = kInvalid ->
  is_pause_pending_ (ut w) = false ->
  ProcState me env w
  = Ret (kContinue, env)
      (set_ut (set_is_between_cycles_ false
                 (set_cycle_count_ (int64_wrap (cycle_count_ (ut w) + 1)) (ut w)))
              w).
Proof.
  intros Hme Hst Ht HP Hreq Hskip Hpp.
  assert (Hpos : (0 <? cycle_wait_period_ (ut w)) = false)
    by (apply Z.ltb_ge; exact HP).
  unfold ProcState, ProcState_skip, ProcState_cycle_wait, ConsiderPause_locked.
  destruct Hst as [Hst | Hst]; destruct Ht as [Ht | Ht];
    run_proc ltac:(unfold thread_exists, thread_id;
                   rewrite ?Hme, ?Hst, ?Ht, ?Hreq, ?Hskip, ?Hpp, ?N.eqb_refl,
                     ?Hpos);
    reflexivity.
Qed.

Lemma no_period_no_wait_witness :
  ProcState 7%N [] w_go
  = Ret (kContinue, [])
      (set_ut (set_is_between_cycles_ false
                 (set_cycle_count_
                    (int64_wrap (cycle_count_ (ut w_go) + 1)) (ut w_go)))
              w_go).
Proof.
  apply no_period_no_wait.
  1: vm_compute; reflexivity.
  1: left; vm_compute; reflexivity.
  1: left; vm_compute; reflexivity.
  1: vm_compute; discriminate.
  all: vm_compute; reflexivity.
Defined.

(** ** Requests applied at a checkpoint *)

(** X18: a request for [kIdle] found at a checkpoint by a thread in
    [kInit] or [kGo] (no multi-transition being in progress) is applied
    on the spot: the request is cleared, [kIdle] becomes the state, the
    waiters on [state_ready_cond_] and [idle_ready_cond_] are woken and
    the thread waits on [go_cond_] without deadline.  No listener is
    called, and the cycle wait is skipped. *)
Theorem idle_request_parks_thread me w :
  thread_ (ut w) = Some me ->
  state_ (ut w) = kInit \/ state_ (ut w) = kGo ->
  requested_state_ (ut w) = kIdle ->
  cycle_wait_skip_orig_state_ (ut w) = kInvalid ->
  in_progress (set_state_multiple_info_ (ut w)) = false ->
  exists w',
    ProcState me [] w = Parked go_cond_ w' /\
    state_ (ut w') = kIdle /\
    prev_state_ (ut w') = state_ (ut w) /\
    requested_state_ (ut w') = kInvalid /\
    log w' = Sleeps go_cond_ None :: NotifyAll idle_ready_cond_
               :: NotifyAll state_ready_cond_
               :: SetState (state_ (ut w)) kIdle :: log w.
Proof.
  intros Hme Hst Hreq Hskip Hin.
  unfold ProcState, ProcState_skip, ProcState_cycle_wait, ProcState_apply.
  destruct Hst as [Hst | Hst];
    run_proc ltac:(unfold thread_exists, thread_id;
                   rewrite ?Hme, ?Hst, ?Hreq, ?Hskip, ?Hin, ?N.eqb_refl);
    eexists; (split; [reflexivity|]);
    cbn -[int64_wrap int32_wrap Z.add Z.sub]; rewrite ?Hst; repeat split.
Qed.

Lemma idle_request_parks_thread_witness :
  exists w',
    ProcState 7%N [] w_init = Parked go_cond_ w' /\ state_ (ut w') = kIdle.
Proof.
  destruct (idle_request_parks_thread 7%N w_init) as (w' & H1 & H2 & _);
    try (vm_compute; reflexivity).
  - left. vm_compute; reflexivity.
  - exists w'. split; [exact H1 | exact H2].
Defined.

(** ** A request without blocking *)

(** X19: a [RequestState] without blocking that is valid, is not barred
    by the thread exiting and is not for the state the thread is in,
    made on a thread that is not paused, writes the request over the
    pending one, signals [go_cond_] and returns success; nothing else
    changes, and the state stays what it was until the thread reaches a
    checkpoint. *)
Theorem RequestState_records fuel who newstate w :
  thread_exists (ut w) = true ->
  would_record newstate (ut w) = true ->
  is_joined_with_thread_ (ut w) = false ->
  is_paused_ (ut w) = false ->
  RequestState fuel who newstate 0 w
  = Ret SUCCESS
      (set_log (NotifyOne go_cond_ :: Request newstate :: log w)
         (set_ut (set_requested_state_ newstate (ut w)) w)).
Proof.
  intros Hex Hrec Hj Hp.
  unfold would_record in Hrec.
  repeat (apply andb_true_iff in Hrec; destruct Hrec as [Hrec ?]).
  repeat match goal with
         | H : negb _ = true |- _ => apply negb_true_iff in H
         end.
  unfold RequestState, RequestState_unlocked, RequestState_locked,
    RequestState_submit, bind, get.
  run_call ltac:(rewrite ?Hex, ?Hj, ?Hp;
                 repeat match goal with
                        | H : _ = false |- _ => rewrite H
                        end).
  reflexivity.
Qed.

Lemma RequestState_records_witness :
  RequestState 1 1%N kIdle 0 w_go
  = Ret SUCCESS
      (set_log (NotifyOne go_cond_ :: Request kIdle :: log w_go)
         (set_ut (set_requested_state_ kIdle (ut w_go)) w_go)).
Proof.
  apply RequestState_records; vm_compute; reflexivity.
Defined.

Lemma run_calls_one c w : run_calls [c] w = ext_apply c w.
Proof. reflexivity. Qed.




Lemma told_go_state_pending_count s p hs w0 :
  go_state_pending_count
    (fold_left (fun w h => set_log (Listener h s p :: log w) w) hs w0)
  = go_state_pending_count w0.
Proof. apply (call_listeners_entries s p hs w0). Qed.









(** ** The cycle wait of type [kAbsolute], in general *)

(** Runs a pass through [ProcState] on an opened world, rewriting with
    what is known of the tests on the way. *)
Ltac run_pass Hpos Hw Hle :=
  repeat
    (progress
       (cbn -[Z.leb Z.ltb Z.eqb int64_wrap Z.sub Z.add Duration_Min deadline_of
              ProcState_apply];
        unfold cycle_wait_round, cycle_sleep_period, StateCondWaitFor,
          StateCondWaitUntil, bindM, TimePoint_diff, Duration_sub;
        cbn -[Z.leb Z.ltb Z.eqb int64_wrap Z.sub Z.add Duration_Min deadline_of
              ProcState_apply];
        rewrite ?N.eqb_refl, ?Z.eqb_refl, ?Hpos, ?Hw, ?Hle)).

(** X21: with cycle-wait type [kAbsolute], a period [P > 0] and a clock
    that has not gone back since [prev_cycle_time_point_] was written,
    the sleep period the loop computes is [P] minus the time elapsed since
    [prev_cycle_time_point_], and zero when that time is at least [P].
    A pass through [ProcState] with nothing requested then waits on
    [go_cond_] with the deadline that much later than its second reading
    of the clock (a deadline, unless the sum leaves the range of the
    clock), and does not wait on it at all when the period is zero.
    [prev_cycle_time_point_] is written with the time read when a wait
    has ended by its deadline, or when none was needed; a pass that
    applies a pending [kGo] or [kExiting] leaves it as it was. *)
Theorem absolute_cycle_wait_sleep_period me sp w :
  cycle_wait_type_ (ut w) = kAbsolute ->
  0 < cycle_wait_period_ (ut w) <= int64_max ->
  0 <= clock w (clock_reads w) - prev_cycle_time_point_ (ut w) <= int64_max ->
  let P := cycle_wait_period_ (ut w) in
  let elapsed := clock w (clock_reads w) - prev_cycle_time_point_ (ut w) in
  let d := if P <=? elapsed then 0 else P - elapsed in
  cycle_sleep_period sp w = Ret d (set_clock_reads (S (clock_reads w)) w)
  /\ (thread_ (ut w) = Some me ->
      running (state_ (ut w)) = true -> state_ (ut w) <> kIdle ->
      requested_state_ (ut w) = kInvalid ->
      cycle_wait_skip_orig_state_ (ut w) = kInvalid ->
      (elapsed < P ->
       exists w',
         ProcState me [] w = Parked go_cond_ w' /\
         log w' = Sleeps go_cond_
                    (deadline_of
                       (int64_wrap (clock w (S (clock_reads w)) + (P - elapsed))))
                    :: log w /\
         (int64_min < clock w (S (clock_reads w)) + (P - elapsed) <= int64_max ->
          log w' = Sleeps go_cond_
                     (Some (clock w (S (clock_reads w)) + (P - elapsed)))
                     :: log w))
      /\ (P <= elapsed ->
          forall env, exists w',
            ProcState me env w = ProcState_apply env w' /\
            log w' = log w /\
            prev_cycle_time_point_ (ut w') = clock w (S (clock_reads w))))
  /\ (forall env w0,
        is_pause_pending_ (ut w0) = false ->
        exists w',
          cycle_wait_expired env w0 = Ret (Some kContinue, env) w' /\
          prev_cycle_time_point_ (ut w') = clock w0 (clock_reads w0) /\
          log w' = log w0)
  /\ (forall env w0,
        thread_ (ut w0) = Some me ->
        state_ (ut w0) = kInit \/ state_ (ut w0) = kGo ->
        requested_state_ (ut w0) = kGo \/ requested_state_ (ut w0) = kExiting ->
        requested_state_ (ut w0) <> state_ (ut w0) ->
        cycle_wait_skip_orig_state_ (ut w0) = kInvalid ->
        in_progress (set_state_multiple_info_ (ut w0)) = false ->
        is_pause_pending_ (ut w0) = false ->
        exists r w',
          ProcState me env w0 = Ret (r, env) w' /\
          state_ (ut w') = requested_state_ (ut w0) /\
          prev_cycle_time_point_ (ut w') = prev_cycle_time_point_ (ut w0)).
Proof.
  intros Ht HP Hel P elapsed d.
  assert (E : cycle_sleep_period sp w
              = Ret d (set_clock_reads (S (clock_reads w)) w)).
  { unfold cycle_sleep_period, bind, get, Now, ret, TimePoint_diff, Duration_sub.
    rewrite Ht. cbn -[Z.leb Z.sub int64_wrap].
    rewrite (int64_wrap_id (clock w (clock_reads w) - prev_cycle_time_point_ (ut w)))
      by (unfold in_int64, int64_min, int64_max in *; lia).
    fold elapsed. fold P. unfold d.
    destruct (P <=? elapsed) eqn:Hle; [reflexivity|].
    apply Z.leb_gt in Hle.
    rewrite int64_wrap_id by (unfold in_int64, int64_min, int64_max in *; subst P elapsed; lia).
    reflexivity. }
  split; [exact E|].
  split; [|split; [intros env w0; apply cycle_wait_expired_time
                  |intros env w0; apply pending_request_keeps_time_point]].
  intros Hthr Hrun Hidle Hreq Hskip.
  clear E d. subst P elapsed.
  open_world w. subst thr ctype req sorig.
  assert (Hpos : (0 <? cperiod) = true) by (apply Z.ltb_lt; lia).
  assert (Hw : int64_wrap (clk reads - ptime) = clk reads - ptime)
    by (apply int64_wrap_id; unfold in_int64, int64_min, int64_max in *; lia).
  assert (Hst : st = kInit \/ st = kGo)
    by (destruct st; try discriminate; try congruence; auto).
  clear Hrun Hidle.
  split.
  - intros Hlt.
    assert (Hw' : int64_wrap (cperiod - (clk reads - ptime))
                  = cperiod - (clk reads - ptime))
      by (apply int64_wrap_id; unfold in_int64, int64_min, int64_max in *; lia).
    assert (Hle : (cperiod <=? clk reads - ptime) = false)
      by (apply Z.leb_gt; exact Hlt).
    assert (Hz : (cperiod - (clk reads - ptime) =? 0) = false)
      by (apply Z.eqb_neq; lia).
    assert (Hz' : (0 =? cperiod - (clk reads - ptime)) = false)
      by (apply Z.eqb_neq; lia).
    assert (Hm : (Duration_Min =? cperiod - (clk reads - ptime)) = false)
      by (apply Z.eqb_neq; unfold Duration_Min, int64_min, int64_max in *; lia).
    unfold ProcState, ProcState_skip, ProcState_cycle_wait, bindM, bindT.
    destruct Hst as [-> | ->];
      run_pass Hpos Hw Hle; rewrite Hw'; run_pass Hz Hz' Hm;
      eexists; (split; [reflexivity|]);
      (split; [reflexivity|]);
      intros Hr; cbn [log]; now rewrite deadline_of_in_range.
  - intros Hge env.
    assert (Hle : (cperiod <=? clk reads - ptime) = true)
      by (apply Z.leb_le; exact Hge).
    unfold ProcState, ProcState_skip, ProcState_cycle_wait, bindM, bindT.
    destruct Hst as [-> | ->]; destruct env;
      run_pass Hpos Hw Hle;
      eexists; (split; [reflexivity | split; reflexivity]).
Qed.

Lemma absolute_cycle_wait_sleep_period_witness :
  cycle_sleep_period 0 w_period = Ret 3000 (set_clock_reads 3 w_period)
  /\ exists w',
       ProcState 7%N [] w_period = Parked go_cond_ w' /\
       log w' = Sleeps go_cond_ (Some 6000) :: log w_period.
Proof.
  destruct (absolute_cycle_wait_sleep_period 7%N 0 w_period) as (H1 & H2 & _).
  - vm_compute; reflexivity.
  - vm_compute; split; [reflexivity | discriminate].
  - vm_compute; split; discriminate.
  - split; [exact H1|].
    destruct H2 as [H2 _]; try (vm_compute; reflexivity).
    + vm_compute; discriminate.
    + destruct H2 as (w' & Hp & _ & Hl); [vm_compute; reflexivity|].
      exists w'. split; [exact Hp | apply Hl].
      vm_compute. split; [reflexivity | discriminate].
Defined.


(** ** What no operation touches: the cycle counter and the skipping of
    cycle waits *)

Lemma steady_refl w : steady w w.
Proof. split; auto. Qed.

Lemma steady_trans w1 w2 w3 : steady w1 w2 -> steady w2 w3 -> steady w1 w3.
Proof. intros [a b] [c d]. split; [congruence | auto]. Qed.

Lemma steady_of_ut w w' : ut w' = ut w -> steady w w'.
Proof. intros H. unfold steady. rewrite H. auto. Qed.

Lemma steady_emit o : pres steady (emit o).
Proof. intros w. now apply steady_of_ut. Qed.

Lemma steady_Now : pres steady Now.
Proof. intros w. now apply steady_of_ut. Qed.

Lemma steady_modify (f : UThread -> UThread) :
  (forall u,
      cycle_count_ (f u) = cycle_count_ u /\
      (cycle_wait_skip_orig_state_ u = kInvalid ->
       cycle_wait_skip_orig_state_ (f u) = kInvalid)) ->
  pres steady (modify f).
Proof. intros H w. exact (H (ut w)). Qed.

Create HintDb steady.

#[local] Hint Resolve steady_Now : steady.

(** Goes through a program built from the operations above. *)
Ltac steady_tac :=
  repeat
    (intros;
     first
       [ apply (pres_ret steady steady_refl)
       | apply (pres_get steady steady_refl)
       | apply (pres_assert steady steady_refl)
       | apply (pres_park steady steady_refl)
       | apply (pres_out_of_fuel steady steady_refl)
       | apply steady_emit
       | apply steady_modify; intros; split; solve [ auto ]
       | solve [ auto with steady ]
       | apply (pres_when steady steady_refl)
       | apply (pres_bind steady steady_trans)
       | match goal with
         | |- pres steady (if ?b then _ else _) => destruct b
         | |- pres steady (match ?x with _ => _ end) => destruct x
         end ]).

Lemma steady_SetStateInternal s : pres steady (SetStateInternal s).
Proof. unfold SetStateInternal. steady_tac. Qed.
#[local] Hint Resolve steady_SetStateInternal : steady.

Lemma steady_JoinInternal : pres steady JoinInternal.
Proof. unfold JoinInternal. steady_tac. Qed.
#[local] Hint Resolve steady_JoinInternal : steady.

Lemma steady_Prepare : pres steady RequestStateMultiple_Prepare.
Proof. unfold RequestStateMultiple_Prepare. steady_tac. Qed.

Lemma steady_set_cycle_wait_type t : pres steady (set_cycle_wait_type t).
Proof. unfold set_cycle_wait_type. steady_tac. Qed.

Lemma steady_set_cycle_wait_period p : pres steady (set_cycle_wait_period p).
Proof. unfold set_cycle_wait_period. steady_tac. Qed.

Lemma steady_StateCondWaitUntil_enter c t : pres steady (StateCondWaitUntil_enter c t).
Proof. unfold StateCondWaitUntil_enter. steady_tac. Qed.
#[local] Hint Resolve steady_StateCondWaitUntil_enter : steady.

Lemma steady_StateCondWaitUntil_leave b : pres steady (StateCondWaitUntil_leave b).
Proof. unfold StateCondWaitUntil_leave. steady_tac. Qed.
#[local] Hint Resolve steady_StateCondWaitUntil_leave : steady.

Lemma steady_StateCondWaitFor_enter c d : pres steady (StateCondWaitFor_enter c d).
Proof. unfold StateCondWaitFor_enter. steady_tac. Qed.
#[local] Hint Resolve steady_StateCondWaitFor_enter : steady.

Lemma steady_StateCondWait_enter c : pres steady (StateCondWait_enter c).
Proof. unfold StateCondWait_enter. steady_tac. Qed.
#[local] Hint Resolve steady_StateCondWait_enter : steady.

Lemma steady_StateWaitFor_done : pres steady StateWaitFor_done.
Proof. unfold StateWaitFor_done. steady_tac. Qed.
#[local] Hint Resolve steady_StateWaitFor_done : steady.

Lemma steady_StateWaitFor_loop fuel s t : pres steady (StateWaitFor_loop fuel s t).
Proof.
  induction fuel as [|fuel IH]; cbn [StateWaitFor_loop]; steady_tac.
Qed.
#[local] Hint Resolve steady_StateWaitFor_loop : steady.

Lemma steady_StateWaitFor fuel me s t : pres steady (StateWaitFor fuel me s t).
Proof. unfold StateWaitFor. steady_tac. Qed.
#[local] Hint Resolve steady_StateWaitFor : steady.

Lemma steady_StateWait fuel me s : pres steady (StateWait fuel me s).
Proof. unfold StateWait. steady_tac. Qed.
#[local] Hint Resolve steady_StateWait : steady.

Lemma steady_Unpause : pres steady Unpause.
Proof. unfold Unpause. steady_tac. Qed.

Lemma steady_Pause : pres steady Pause.
Proof. unfold Pause. steady_tac. Qed.

Lemma steady_RequestState_loop fuel me s t r :
  pres steady (RequestState_loop fuel me s t r).
Proof.
  revert r. induction fuel as [|fuel IH]; intros r; cbn [RequestState_loop];
    steady_tac.
Qed.
#[local] Hint Resolve steady_RequestState_loop : steady.

Lemma steady_RequestState_submit fuel me s t :
  pres steady (RequestState_submit fuel me s t).
Proof. unfold RequestState_submit. steady_tac. Qed.
#[local] Hint Resolve steady_RequestState_submit : steady.

Lemma steady_RequestState_locked fuel me s t :
  pres steady (RequestState_locked fuel me s t).
Proof. unfold RequestState_locked. steady_tac. Qed.
#[local] Hint Resolve steady_RequestState_locked : steady.

Lemma steady_RequestState fuel me s t : pres steady (RequestState fuel me s t).
Proof. unfold RequestState. steady_tac. Qed.
#[local] Hint Resolve steady_RequestState : steady.

Lemma steady_RequestState_b fuel me s b : pres steady (RequestState_b fuel me s b).
Proof. unfold RequestState_b. steady_tac. Qed.
#[local] Hint Resolve steady_RequestState_b : steady.

Lemma steady_Exit fuel me b : pres steady (Exit fuel me b).
Proof. unfold Exit. steady_tac. Qed.

Lemma steady_InitThread fuel me t b : pres steady (InitThread fuel me t b).
Proof. unfold InitThread. steady_tac. Qed.
#[local] Hint Resolve steady_InitThread : steady.

Lemma steady_Start fuel me t b : pres steady (Start fuel me t b).
Proof. unfold Start. steady_tac. Qed.

Lemma steady_Register : pres steady RegisterStateChangeListener.
Proof. unfold RegisterStateChangeListener. steady_tac. Qed.

Lemma steady_Unregister h : pres steady (UnregisterStateChangeListener h).
Proof. unfold UnregisterStateChangeListener. steady_tac. Qed.

Lemma steady_RunNCycles n b : pres steady (RunNCycles n b).
Proof. unfold RunNCycles. steady_tac. Qed.

Lemma steady_ext_apply c w : steady w (ext_apply c w).
Proof.
  destruct c; cbn [ext_apply].
  - apply steady_RequestState.
  - apply steady_RequestState_loop.
  - apply steady_StateWaitFor.
  - apply steady_StateCondWaitUntil_leave.
  - apply steady_Exit.
  - apply steady_Start.
  - apply steady_Pause.
  - apply steady_Unpause.
  - apply steady_set_cycle_wait_type.
  - apply steady_set_cycle_wait_period.
  - apply steady_Register.
  - apply steady_Unregister.
  - apply steady_RunNCycles.
  - destruct (is_available (ut w)); [apply steady_Prepare | apply steady_refl].
  - now apply steady_of_ut.
  - now apply steady_of_ut.
Qed.

Lemma steady_run_calls cs : forall w, steady w (run_calls cs w).
Proof.
  induction cs as [|c cs IH]; intros w; cbn [run_calls fold_left].
  - apply steady_refl.
  - eapply steady_trans; [apply steady_ext_apply | apply IH].
Qed.

(** *** The programs of the managed thread *)

Lemma steady_StateCondWaitUntil {A} c t (k_now k_woken : Result -> MT A) env :
  (forall r, presT steady (k_now r) env) ->
  (forall e env' r, env = e :: env' -> presT steady (k_woken r) env') ->
  presT steady (StateCondWaitUntil c t k_now k_woken) env.
Proof.
  intros Hnow Hwoken w. unfold StateCondWaitUntil.
  pose proof (steady_StateCondWaitUntil_enter c t w) as He.
  destruct (StateCondWaitUntil_enter c t w) as [r w1|c1 w1|w1|w1]; cbn in He; auto.
  - eapply steady_trans; [exact He | apply Hnow].
  - destruct env as [|e env']; cbv beta iota zeta; auto.
    pose proof (steady_run_calls (during e) w1) as Hc.
    match goal with
    | |- steady _ (world_of (match StateCondWaitUntil_leave ?b ?w2 with _ => _ end)) =>
        pose proof (steady_StateCondWaitUntil_leave b w2) as Hl;
        destruct (StateCondWaitUntil_leave b w2) as [r w3|c3 w3|w3|w3];
        cbn in Hl |- *
    end.
    + eapply steady_trans; [exact He|]. eapply steady_trans; [exact Hc|].
      eapply steady_trans; [exact Hl|]. now apply (Hwoken e env' r).
    + eapply steady_trans; [exact He|]. eapply steady_trans; [exact Hc|]. exact Hl.
    + eapply steady_trans; [exact He|]. eapply steady_trans; [exact Hc|]. exact Hl.
    + eapply steady_trans; [exact He|]. eapply steady_trans; [exact Hc|]. exact Hl.
Qed.

Lemma steady_StateCondWait {A} c (k_now k_woken : MT A) env :
  presT steady k_now env ->
  (forall e env', env = e :: env' -> presT steady k_woken env') ->
  presT steady (StateCondWait c k_now k_woken) env.
Proof.
  intros. unfold StateCondWait. apply steady_StateCondWaitUntil; eauto.
Qed.

Lemma steady_StateCondWaitFor {A} c d (k_now k_woken : Result -> MT A) env :
  (forall r, presT steady (k_now r) env) ->
  (forall e env' r, env = e :: env' -> presT steady (k_woken r) env') ->
  presT steady (StateCondWaitFor c d k_now k_woken) env.
Proof.
  intros Hnow Hwoken. unfold StateCondWaitFor.
  destruct (0 =? d); [apply Hnow|].
  destruct (Duration_Min =? d); [now apply steady_StateCondWaitUntil|].
  apply (presT_bindM steady steady_trans).
  - apply steady_Now.
  - intros now. now apply steady_StateCondWaitUntil.
Qed.

(** Goes through a program of the managed thread. *)
Ltac steadyT_tac :=
  repeat
    (intros;
     first
       [ apply (presT_ret steady steady_refl)
       | apply (presT_out_of_fuel steady steady_refl)
       | solve [ eauto ]
       | apply (presT_lift steady); solve [ steady_tac ]
       | apply (presT_bindM steady steady_trans); [ solve [ steady_tac ] | ]
       | apply steady_StateCondWait
       | apply steady_StateCondWaitFor
       | solve [ auto with steadyT ]
       | apply (presT_bindT steady steady_trans)
       | match goal with
         | |- presT steady (if ?b then _ else _) _ => destruct b
         | |- presT steady (match ?x with _ => _ end) _ => destruct x
         | |- presT steady (whenT ?b _) _ => destruct b; cbn [whenT]
         end ]).

Create HintDb steadyT.

Lemma steady_ConsiderPause_locked env : presT steady ConsiderPause_locked env.
Proof. unfold ConsiderPause_locked. steadyT_tac. Qed.
#[local] Hint Resolve steady_ConsiderPause_locked : steadyT.

Lemma steady_Sleep me d env : presT steady (Sleep me d) env.
Proof. unfold Sleep. steadyT_tac. Qed.

Lemma steady_ProcState_skip env : presT steady ProcState_skip env.
Proof. unfold ProcState_skip. steadyT_tac. Qed.
#[local] Hint Resolve steady_ProcState_skip : steadyT.

Lemma steady_cycle_sleep_period sp : pres steady (cycle_sleep_period sp).
Proof. unfold cycle_sleep_period. steady_tac. Qed.
#[local] Hint Resolve steady_cycle_sleep_period : steady.

Lemma steady_cycle_wait_signalled : pres steady cycle_wait_signalled.
Proof. unfold cycle_wait_signalled. steady_tac. Qed.
#[local] Hint Resolve steady_cycle_wait_signalled : steady.

Lemma steady_cycle_wait_expired env : presT steady cycle_wait_expired env.
Proof. unfold cycle_wait_expired. steadyT_tac. Qed.
#[local] Hint Resolve steady_cycle_wait_expired : steadyT.

Lemma steady_cycle_wait_round again sp env :
  (forall e env' sp', env = e :: env' -> presT steady (again sp') env') ->
  presT steady (cycle_wait_round again sp) env.
Proof. intros Hagain. unfold cycle_wait_round. steadyT_tac. Qed.

Lemma steady_cycle_wait_loop env : forall sp,
  presT steady (fun env w => cycle_wait_loop env sp w) env.
Proof.
  induction env as [|e env IH]; intros sp w;
    cbn [cycle_wait_loop]; apply steady_cycle_wait_round;
    intros e' env' sp' Heq; inversion Heq; subst; apply IH.
Qed.
#[local] Hint Resolve steady_cycle_wait_loop : steadyT.

Lemma steady_ProcState_cycle_wait env : presT steady ProcState_cycle_wait env.
Proof. unfold ProcState_cycle_wait. steadyT_tac. Qed.
#[local] Hint Resolve steady_ProcState_cycle_wait : steadyT.

Lemma steady_apply_go l : pres steady (apply_go l).
Proof. unfold apply_go. steady_tac. Qed.
#[local] Hint Resolve steady_apply_go : steady.

Lemma steady_apply_exiting l : pres steady (apply_exiting l).
Proof. unfold apply_exiting. steady_tac. Qed.
#[local] Hint Resolve steady_apply_exiting : steady.

Lemma steady_idle_woken : pres steady idle_woken.
Proof. unfold idle_woken. steady_tac. Qed.
#[local] Hint Resolve steady_idle_woken : steady.

Lemma steady_state_change_round again l env :
  (forall e env' l', env = e :: env' -> presT steady (again l') env') ->
  presT steady (state_change_round again l) env.
Proof. intros Hagain. unfold state_change_round. steadyT_tac. Qed.

Lemma steady_state_change_loop env : forall l,
  presT steady (fun env w => state_change_loop env l w) env.
Proof.
  induction env as [|e env IH]; intros l w;
    cbn [state_change_loop]; apply steady_state_change_round;
    intros e' env' l' Heq; inversion Heq; subst; apply IH.
Qed.
#[local] Hint Resolve steady_state_change_loop : steadyT.

Lemma steady_barrier_wait env : presT steady barrier_wait env.
Proof.
  intros w. unfold barrier_wait. destruct env as [|e env]; cbn [world_of].
  - now apply steady_of_ut.
  - eapply steady_trans; [|apply steady_run_calls]. now apply steady_of_ut.
Qed.
#[local] Hint Resolve steady_barrier_wait : steadyT.

Lemma steady_set_pending n :
  pres steady (fun w => Ret tt (set_go_state_pending_count n w)).
Proof. intros w. now apply steady_of_ut. Qed.

Lemma steady_get_pending_count : pres steady get_pending_count.
Proof. intros w. apply steady_refl. Qed.
#[local] Hint Resolve steady_get_pending_count : steady.

Lemma steady_ProcState_barrier env : presT steady ProcState_barrier env.
Proof.
  unfold ProcState_barrier.
  apply (presT_bindM steady steady_trans); [steady_tac|]. intros u.
  destruct (in_progress (set_state_multiple_info_ u)); [|steadyT_tac].
  apply (presT_bindM steady steady_trans).
  { intros w. now apply steady_of_ut. }
  steadyT_tac.
Qed.
#[local] Hint Resolve steady_ProcState_barrier : steadyT.

Lemma steady_call_listeners : pres steady call_listeners.
Proof.
  intros w. unfold call_listeners. cbn [world_of]. apply steady_of_ut.
  apply (call_listeners_entries (state_ (ut w)) (prev_state_ (ut w))
           (state_change_listeners_ (ut w)) w).
Qed.
#[local] Hint Resolve steady_call_listeners : steady.

Lemma steady_ProcState_finish l env : presT steady (ProcState_finish l) env.
Proof. unfold ProcState_finish. steadyT_tac. Qed.
#[local] Hint Resolve steady_ProcState_finish : steadyT.

Lemma steady_ProcState_apply env : presT steady ProcState_apply env.
Proof. unfold ProcState_apply. steadyT_tac. Qed.
#[local] Hint Resolve steady_ProcState_apply : steadyT.

Lemma steady_mainThreadFunc_exit r : pres steady (mainThreadFunc_exit r).
Proof. unfold mainThreadFunc_exit. steady_tac. Qed.

Lemma bindM_Ret {A B} (m : M A) (k : A -> MT B) env w a w1 :
  m w = Ret a w1 -> bindM m k env w = k a env w1.
Proof. intros H. unfold bindM. now rewrite H. Qed.

(** The part of [ProcState] after the counter has been moved. *)
Lemma steady_ProcState_counted (u : UThread) env :
  presT steady
    (if kExiting ==s state_ u then
       ConsiderPause_locked ~;;
       retT kExit
     else
       r <~ ProcState_skip ;;
       match r with
       | Some res => retT res
       | None =>
           modify (set_is_between_cycles_ true) !;;
           r <~ ProcState_cycle_wait ;;
           match r with
           | Some res => retT res
           | None => ProcState_apply
           end
       end) env.
Proof. steadyT_tac. Qed.

(** X22: the cycle counter counts the checkpoints.  Called by the managed
    thread of a started object that is not idle, with a counter that has
    room, [ProcState] leaves [cycle_count_] one above what it found,
    however the pass ends (it returns, or it is left waiting) and
    whatever other threads call while it waits; and it does not arm the
    skipping of cycle waits.  Nothing else moves the counter or arms the
    skipping: no call from another thread (what would arm it in
    [RunNCycles] comes after the first [return] of that function), and
    not the end of the thread function. *)
Theorem cycle_count_counts_passes me env w :
  thread_ (ut w) = Some me ->
  state_ (ut w) <> kIdle ->
  0 <= cycle_count_ (ut w) < int64_max ->
  (let w' := world_of (ProcState me env w) in
   cycle_count_ (ut w') = cycle_count_ (ut w) + 1 /\
   (cycle_wait_skip_orig_state_ (ut w) = kInvalid ->
    cycle_wait_skip_orig_state_ (ut w') = kInvalid)) /\
  (forall cs w0,
     let w' := run_calls cs w0 in
     cycle_count_ (ut w') = cycle_count_ (ut w0) /\
     (cycle_wait_skip_orig_state_ (ut w0) = kInvalid ->
      cycle_wait_skip_orig_state_ (ut w') = kInvalid)) /\
  (forall r w0,
     let w' := world_of (mainThreadFunc_exit r w0) in
     cycle_count_ (ut w') = cycle_count_ (ut w0) /\
     (cycle_wait_skip_orig_state_ (ut w0) = kInvalid ->
      cycle_wait_skip_orig_state_ (ut w') = kInvalid)).
Proof.
  intros Hthr Hidle Hc.
  split; [|split; [intros cs w0; apply steady_run_calls
                  |intros r w0; apply steady_mainThreadFunc_exit]].
  cbv zeta.
  assert (Hw : int64_wrap (cycle_count_ (ut w) + 1) = cycle_count_ (ut w) + 1)
    by (apply int64_wrap_id; unfold in_int64, int64_min, int64_max in *; lia).
  assert (Hi : (kIdle ==s state_ (ut w)) = false)
    by (destruct (state_ (ut w)); try reflexivity; congruence).
  unfold ProcState.
  rewrite (bindM_Ret get _ env w (ut w) w eq_refl). cbv beta.
  erewrite bindM_Ret
    by (unfold assert, thread_exists; rewrite Hthr; reflexivity).
  erewrite bindM_Ret
    by (unfold assert, thread_id; rewrite Hthr, N.eqb_refl; reflexivity).
  erewrite bindM_Ret by (unfold assert; rewrite Hi; reflexivity).
  erewrite bindM_Ret by (unfold modify; reflexivity).
  match goal with
  | |- context [world_of (_ env ?w1)] =>
      destruct (steady_ProcState_counted (ut w) env w1) as [H1 H2]
  end.
  split.
  - etransitivity; [exact H1|]. cbn. exact Hw.
  - intros Hs. apply H2. cbn. exact Hs.
Qed.

Lemma cycle_count_counts_passes_witness :
  cycle_count_ (ut w_period) = 1 /\
  cycle_count_ (ut (world_of (ProcState 7%N [] w_period))) = 2.
Proof.
  split; [reflexivity|].
  destruct (cycle_count_counts_passes 7%N [] w_period) as [[H _] _].
  - reflexivity.
  - vm_compute; discriminate.
  - vm_compute; split; [discriminate | reflexivity].
  - exact H.
Defined.
